(** * STT-for-Windows: hotkey parser, keyboard hook, JSON path extraction
      and the recorder state machine, embedded from the Go sources.

    - [GoStrings]  the functions of Go's [strings] and [strconv] packages the
                   sources call, on byte strings (ASCII range).
    - [Hotkey]     [internal/hotkey/hotkey_windows.go]: [parseHotkey] and the
                   low-level hook callback of [startLowLevelHook].
    - [Jsonpath]   [internal/jsonpath/jsonpath.go].
    - [Record]     [internal/record]: the [Recorder] and its capture worker
                   [recordLoop], as an interleaving transition system.
    - [Register]   [registerHotkeys] of [hotkey_windows.go], over the hot keys
                   the system holds for the thread.
    - [Asr]        [internal/asr]: the retry loop of [Transcribe].
    - [Config], [Ffmpeg]  [Validate], [ContainerExt], [ffmpegCodecFor] and the
                   command line of [Convert].
    - [App]        [internal/app/app.go]: the temporary files of a recording,
                   [handleCache] and [cleanupOldTempFiles], over a set of
                   paths.

    The definitions come first; the facts follow, module by module. *)

From stdpp Require Import gmap strings list.
From Stdlib Require Import ZArith String Ascii Lia.

Set Warnings "-register-all".
#[local] Open Scope string_scope.
#[local] Open Scope Z_scope.

(* ===================================================================== *)
(** * Go library functions on strings *)
(* ===================================================================== *)

Module GoStrings.

(** A Go string is a sequence of bytes; [byte_of] is the numeric value of one
    byte.  [ToLower], [ToUpper] and [TrimSpace] are modelled on the ASCII
    range, where Go works byte by byte; statements about them quantified over
    all strings carry [is_ascii] for that reason, and [Hotkey.parseHotkey_of]
    takes the three as parameters. *)
Definition byte_of (c : ascii) : Z := Z.of_N (N_of_ascii c).

Definition is_ascii_byte (c : ascii) : bool := byte_of c <? 128.

Fixpoint is_ascii (s : string) : bool :=
  match s with
  | EmptyString => true
  | String c r => is_ascii_byte c && is_ascii r
  end.

Definition byte_to_ascii (z : Z) : ascii := ascii_of_N (Z.to_N z).

(** [len(s)] *)
Definition len (s : string) : Z := Z.of_nat (String.length s).

(** [strings.Split(s, sep)] for a one-byte separator: always at least one
    field, and [n] separators give [n + 1] fields. *)
Fixpoint Split (sep : ascii) (s : string) : list string :=
  match s with
  | EmptyString => [EmptyString]
  | String c r =>
      if Ascii.eqb c sep then EmptyString :: Split sep r
      else match Split sep r with
           | [] => [String c EmptyString]
           | t :: ts => String c t :: ts
           end
  end.

(** [strings.Join(fields, sep)] (used to state facts about [Split]). *)
Fixpoint Join (sep : ascii) (fields : list string) : string :=
  match fields with
  | [] => EmptyString
  | [t] => t
  | t :: ts => t ++ String sep (Join sep ts)
  end.

Definition lower_byte (c : ascii) : ascii :=
  let b := byte_of c in
  if (65 <=? b) && (b <=? 90) then byte_to_ascii (b + 32) else c.

Definition upper_byte (c : ascii) : ascii :=
  let b := byte_of c in
  if (97 <=? b) && (b <=? 122) then byte_to_ascii (b - 32) else c.

Fixpoint map_bytes (f : ascii -> ascii) (s : string) : string :=
  match s with
  | EmptyString => EmptyString
  | String c r => String (f c) (map_bytes f r)
  end.

(** [strings.ToLower], [strings.ToUpper] *)
Definition ToLower : string -> string := map_bytes lower_byte.
Definition ToUpper : string -> string := map_bytes upper_byte.

(** The ASCII white space of [unicode.IsSpace]: tab, LF, VT, FF, CR, space. *)
Definition is_space (c : ascii) : bool :=
  let b := byte_of c in ((9 <=? b) && (b <=? 13)) || (b =? 32).

Fixpoint trim_left (s : string) : string :=
  match s with
  | EmptyString => EmptyString
  | String c r => if is_space c then trim_left r else s
  end.

Fixpoint trim_right (s : string) : string :=
  match s with
  | EmptyString => EmptyString
  | String c r =>
      match trim_right r with
      | EmptyString => if is_space c then EmptyString else String c EmptyString
      | r' => String c r'
      end
  end.

(** [strings.TrimSpace] *)
Definition TrimSpace (s : string) : string := trim_right (trim_left s).

(** [strings.HasPrefix], [strings.TrimPrefix] *)
Definition HasPrefix (s p : string) : bool := String.prefix p s.

Fixpoint drop_bytes (n : nat) (s : string) : string :=
  match n, s with
  | O, _ => s
  | S n', String _ r => drop_bytes n' r
  | S _, EmptyString => EmptyString
  end.

Definition TrimPrefix (s p : string) : string :=
  if HasPrefix s p then drop_bytes (String.length p) s else s.

(** [strings.Index(s, sub)] for a one-byte [sub]: position of the first
    occurrence, or [-1]. *)
Fixpoint IndexByte (c : ascii) (s : string) : Z :=
  match s with
  | EmptyString => -1
  | String d r =>
      if Ascii.eqb d c then 0
      else let i := IndexByte c r in if i <? 0 then -1 else i + 1
  end.

(** Go slicing [s[lo:hi]] and [s[lo:]] on in-range bounds. *)
Fixpoint take_bytes (n : nat) (s : string) : string :=
  match n, s with
  | S n', String c r => String c (take_bytes n' r)
  | _, _ => EmptyString
  end.

Definition slice (s : string) (lo hi : Z) : string :=
  take_bytes (Z.to_nat (hi - lo)) (drop_bytes (Z.to_nat lo) s).

Definition slice_from (s : string) (lo : Z) : string :=
  drop_bytes (Z.to_nat lo) s.

(** [strconv.Atoi]: an optional sign, then one or more decimal digits; the
    value must fit the (64-bit) [int].  [None] stands for a non-nil error. *)
Definition digit_val (c : ascii) : option Z :=
  let b := byte_of c in
  if (48 <=? b) && (b <=? 57) then Some (b - 48) else None.

Fixpoint digits_val (acc : Z) (s : string) : option Z :=
  match s with
  | EmptyString => Some acc
  | String c r =>
      match digit_val c with
      | Some d => digits_val (10 * acc + d) r
      | None => None
      end
  end.

Definition int_min : Z := - 2 ^ 63.
Definition int_max : Z := 2 ^ 63 - 1.

Definition Atoi (s : string) : option Z :=
  let '(neg, body) :=
    match s with
    | String "-" r => (true, r)
    | String "+" r => (false, r)
    | _ => (false, s)
    end in
  match body with
  | EmptyString => None
  | _ =>
      match digits_val 0 body with
      | Some n =>
          let v := if neg then - n else n in
          if (int_min <=? v) && (v <=? int_max) then Some v else None
      | None => None
      end
  end.

(** Membership of a string in the label list of a [switch] case. *)
Definition one_of (s : string) (labels : list string) : bool :=
  existsb (String.eqb s) labels.

End GoStrings.

(* ===================================================================== *)
(** * internal/hotkey/hotkey_windows.go *)
(* ===================================================================== *)

Module Hotkey.
Import GoStrings.

Definition VK_NUMPAD0 : Z := 0x60.
Definition VK_NUMPAD1 : Z := 0x61.
Definition VK_NUMPAD2 : Z := 0x62.
Definition VK_NUMPAD3 : Z := 0x63.
Definition VK_NUMPAD4 : Z := 0x64.
Definition VK_NUMPAD5 : Z := 0x65.
Definition VK_NUMPAD6 : Z := 0x66.
Definition VK_NUMPAD7 : Z := 0x67.
Definition VK_NUMPAD8 : Z := 0x68.
Definition VK_NUMPAD9 : Z := 0x69.
Definition VK_ADD : Z := 0x6B.
Definition VK_SUBTRACT : Z := 0x6D.

(** Modifier bits of the mask ([MOD_ALT], [MOD_CONTROL], [MOD_SHIFT],
    [MOD_WIN] of RegisterHotKey). *)
Definition MOD_ALT : Z := 0x0001.
Definition MOD_CONTROL : Z := 0x0002.
Definition MOD_SHIFT : Z := 0x0004.
Definition MOD_WIN : Z := 0x0008.

(** The [switch p] of the modifier loop: the bit a token adds to [mod]. *)
Definition modifier_bit (p : string) : Z :=
  if one_of p ["alt"; "menu"] then MOD_ALT
  else if one_of p ["ctrl"; "control"] then MOD_CONTROL
  else if one_of p ["shift"] then MOD_SHIFT
  else if one_of p ["win"; "meta"; "super"] then MOD_WIN
  else 0.

(** [for _, p := range parts[:len(parts)-1] { switch p {...} }] *)
Definition modifier_loop (ps : list string) : Z :=
  fold_left (fun m p => Z.lor m (modifier_bit p)) ps 0.

(** The [named] map literal. *)
Definition named : list (string * Z) :=
  [ ("tab", 0x09); ("backspace", 0x08); ("insert", 0x2D); ("delete", 0x2E);
    ("home", 0x24); ("end", 0x23); ("pageup", 0x21); ("pagedown", 0x22);
    ("left", 0x25); ("up", 0x26); ("right", 0x27); ("down", 0x28) ].

Fixpoint named_lookup (tbl : list (string * Z)) (k : string) : option Z :=
  match tbl with
  | [] => None
  | (k', v) :: r => if String.eqb k k' then Some v else named_lookup r k
  end.

(** The second [switch keyToken]: numeric-pad keys and operator aliases. *)
Definition numpad_key (keyToken : string) : option Z :=
  if one_of keyToken ["numpad0"; "num0"; "kp0"] then Some VK_NUMPAD0
  else if one_of keyToken ["numpad1"; "num1"; "kp1"] then Some VK_NUMPAD1
  else if one_of keyToken ["numpad2"; "num2"; "kp2"] then Some VK_NUMPAD2
  else if one_of keyToken ["numpad3"; "num3"; "kp3"] then Some VK_NUMPAD3
  else if one_of keyToken ["numpad4"; "num4"; "kp4"] then Some VK_NUMPAD4
  else if one_of keyToken ["numpad5"; "num5"; "kp5"] then Some VK_NUMPAD5
  else if one_of keyToken ["numpad6"; "num6"; "kp6"] then Some VK_NUMPAD6
  else if one_of keyToken ["numpad7"; "num7"; "kp7"] then Some VK_NUMPAD7
  else if one_of keyToken ["numpad8"; "num8"; "kp8"] then Some VK_NUMPAD8
  else if one_of keyToken ["numpad9"; "num9"; "kp9"] then Some VK_NUMPAD9
  else if one_of keyToken ["add"; "plus"; "kpadd"] then Some VK_ADD
  else if one_of keyToken ["subtract"; "minus"; "kpsubtract"] then Some VK_SUBTRACT
  else None.

(** The first [switch keyToken]. *)
Definition basic_key (keyToken : string) : option Z :=
  if one_of keyToken ["esc"; "escape"] then Some 0x1B
  else if one_of keyToken ["space"] then Some 0x20
  else if one_of keyToken ["enter"; "return"] then Some 0x0D
  else None.

(** [if len(keyToken) == 1 { ch := keyToken[0]; ... }]: letters and digits. *)
Definition alnum_key (keyToken : string) : option Z :=
  match keyToken with
  | String ch EmptyString =>
      let b := byte_of ch in
      if (97 <=? b) && (b <=? 122) then Some (b - 97 + 65)
      else if (48 <=? b) && (b <=? 57) then Some b
      else None
  | _ => None
  end.

(** [if strings.HasPrefix(keyToken, "f") { ... strconv.Atoi ... }] *)
Definition function_key (keyToken : string) : option Z :=
  if HasPrefix keyToken "f" then
    match Atoi (TrimPrefix keyToken "f") with
    | Some n => if (1 <=? n) && (n <=? 24) then Some (0x70 + (n - 1)) else None
    | None => None
    end
  else None.

(** The closing [if len(keyToken) == 1]: the upper-cased byte itself. *)
Definition single_byte_key (keyToken : string) : option Z :=
  match ToUpper keyToken, keyToken with
  | String ch _, String _ EmptyString => Some (byte_of ch)
  | _, _ => None
  end.

(** Resolution of the key token, in the order of the source. *)
Definition key_code (keyToken : string) : option Z :=
  match alnum_key keyToken with
  | Some v => Some v
  | None =>
  match basic_key keyToken with
  | Some v => Some v
  | None =>
  match function_key keyToken with
  | Some v => Some v
  | None =>
  match numpad_key keyToken with
  | Some v => Some v
  | None =>
  match named_lookup named keyToken with
  | Some v => Some v
  | None => single_byte_key keyToken
  end end end end end.

(** [(uint32, uint32, error)]: the error is [None] for [nil]. *)
Definition hotkey_result : Type := Z * Z * option string.

Definition normalise (p : string) : string := TrimSpace (ToLower p).

Definition parseHotkey (s : string) : hotkey_result :=
  if String.eqb s "" then (0, 0, Some "empty key")
  else
    let parts := map normalise (Split "+" s) in
    let '(mod_, keyToken) :=
      match parts with
      | [p] => (0, p)
      | _ => (modifier_loop (removelast parts), List.last parts "")
      end in
    match key_code keyToken with
    | Some vk => (mod_, vk, None)
    | None => (0, 0, Some ("unsupported key token: " ++ s))
    end.

(** A call succeeded when its error is [nil]. *)
Definition succeeds (r : hotkey_result) : bool :=
  match r with (_, _, None) => true | _ => false end.

(** What the caller uses of a successful call. *)
Definition hotkey_value (r : hotkey_result) : option (Z * Z) :=
  match r with (m, vk, None) => Some (m, vk) | _ => None end.

(** ** The key tokens of the specification

    The definitions below follow the wording of the specification, not the
    code: they are what [key_code] is compared with. *)

Definition is_single_byte (tok : string) : bool :=
  match tok with String _ EmptyString => true | _ => false end.

Definition is_letter_token (tok : string) : bool :=
  match tok with
  | String c EmptyString => (97 <=? byte_of c) && (byte_of c <=? 122)
  | _ => false
  end.

Definition is_digit_token (tok : string) : bool :=
  match tok with
  | String c EmptyString => (48 <=? byte_of c) && (byte_of c <=? 57)
  | _ => false
  end.

Definition decimal_1_24 : list string :=
  [ "1"; "2"; "3"; "4"; "5"; "6"; "7"; "8"; "9"; "10"; "11"; "12";
    "13"; "14"; "15"; "16"; "17"; "18"; "19"; "20"; "21"; "22"; "23"; "24" ].

(** [f1] .. [f24] *)
Definition function_key_names : list string :=
  map (fun d => String "f" d) decimal_1_24.

Definition named_key_names : list string :=
  [ "esc"; "escape"; "enter"; "return"; "tab"; "space"; "backspace";
    "insert"; "delete"; "home"; "end"; "pageup"; "pagedown";
    "left"; "up"; "right"; "down" ].

Definition numpad_key_names : list string :=
  [ "numpad0"; "num0"; "kp0"; "numpad1"; "num1"; "kp1"; "numpad2"; "num2"; "kp2";
    "numpad3"; "num3"; "kp3"; "numpad4"; "num4"; "kp4"; "numpad5"; "num5"; "kp5";
    "numpad6"; "num6"; "kp6"; "numpad7"; "num7"; "kp7"; "numpad8"; "num8"; "kp8";
    "numpad9"; "num9"; "kp9";
    "add"; "plus"; "kpadd"; "subtract"; "minus"; "kpsubtract" ].

(** A known key as the specification lists them: a single letter, a digit, a
    function key, a named key, a numeric-pad key or operator alias. *)
Definition names_known_key (tok : string) : bool :=
  is_letter_token tok || is_digit_token tok
  || one_of tok function_key_names
  || one_of tok named_key_names
  || one_of tok numpad_key_names.

Fixpoint strip_zeros (s : string) : string :=
  match s with
  | String "0" r => strip_zeros r
  | _ => s
  end.

Fixpoint all_digits (s : string) : bool :=
  match s with
  | EmptyString => true
  | String c r => (48 <=? byte_of c) && (byte_of c <=? 57) && all_digits r
  end.

(** [f] followed by a decimal numeral of value 1 .. 24, leading zeros
    allowed ([f07], [f024]). *)
Definition padded_function_key (tok : string) : bool :=
  match tok with
  | String "f" ds => all_digits ds && one_of (strip_zeros ds) decimal_1_24
  | _ => false
  end.

(** The tokens [parseHotkey] takes as a key. *)
Definition accepted_token (tok : string) : bool :=
  names_known_key tok || is_single_byte tok || padded_function_key tok.

(** [keyToken]: the last of the trimmed, lower-cased fields. *)
Definition final_token (s : string) : string :=
  List.last (map normalise (Split "+" s)) "".

(** The modifier names the parser knows. *)
Definition recognised_modifier (p : string) : bool :=
  one_of p ["alt"; "menu"; "ctrl"; "control"; "shift"; "win"; "meta"; "super"].

(** No byte of [s] is [c]. *)
Fixpoint free_of (c : ascii) (s : string) : bool :=
  match s with
  | EmptyString => true
  | String d r => negb (Ascii.eqb d c) && free_of c r
  end.

(** ** The parser over Go's own case mapping and trimming

    Outside the ASCII range [strings.ToLower], [strings.ToUpper] and
    [strings.TrimSpace] work rune by rune with the tables of Unicode, and
    there the functions of [GoStrings] are not theirs.  In this section the
    three are parameters: [parseHotkey_of] is [parseHotkey] read from the
    source with nothing assumed of them, and [parseHotkey] is its instance
    at the functions of [GoStrings]. *)

(** The key token resolved, not resolved, or the index
    [strings.ToUpper(keyToken)[0]] out of range. *)
Inductive key_answer :=
| KeyCode (vk : Z)
| NoKey
| KeyPanics.

(** How a call ends: it returns, or that index is out of range. *)
Inductive ended :=
| Returns (r : hotkey_result)
| IndexPanics.

(** The tests on [keyToken] before the closing [if len(keyToken) == 1], in
    the order of the source; they compare bytes. *)
Definition listed_key (keyToken : string) : option Z :=
  match alnum_key keyToken with
  | Some v => Some v
  | None =>
  match basic_key keyToken with
  | Some v => Some v
  | None =>
  match function_key keyToken with
  | Some v => Some v
  | None =>
  match numpad_key keyToken with
  | Some v => Some v
  | None => named_lookup named keyToken
  end end end end.

Section Unicode.

Variable strings_ToLower : string -> string.
Variable strings_ToUpper : string -> string.
Variable strings_TrimSpace : string -> string.

(** [strings.TrimSpace(strings.ToLower(parts[i]))] *)
Definition normalise_of (p : string) : string :=
  strings_TrimSpace (strings_ToLower p).

Definition key_code_of (keyToken : string) : key_answer :=
  match listed_key keyToken with
  | Some vk => KeyCode vk
  | None =>
      match keyToken with
      | String _ EmptyString =>
          match strings_ToUpper keyToken with
          | String ch _ => KeyCode (byte_of ch)
          | EmptyString => KeyPanics
          end
      | _ => NoKey
      end
  end.

Definition parseHotkey_of (s : string) : ended :=
  if String.eqb s "" then Returns (0, 0, Some "empty key")
  else
    let parts := map normalise_of (Split "+" s) in
    let '(mod_, keyToken) :=
      match parts with
      | [p] => (0, p)
      | _ => (modifier_loop (removelast parts), List.last parts "")
      end in
    match key_code_of keyToken with
    | KeyCode vk => Returns (mod_, vk, None)
    | NoKey => Returns (0, 0, Some ("unsupported key token: " ++ s))
    | KeyPanics => IndexPanics
    end.

End Unicode.

(** What the caller has of a call: nothing when it panics, else the value of
    a success or the absence of one. *)
Definition ended_value (e : ended) : option (option (Z * Z)) :=
  match e with
  | Returns r => Some (hotkey_value r)
  | IndexPanics => None
  end.

(** What a call returns for a spec whose key token, normalised, is
    [keyToken] and whose other tokens give the mask [mod_]. *)
Definition answer_for (mod_ : Z) (a : key_answer) : option (option (Z * Z)) :=
  match a with
  | KeyCode vk => Some (Some (mod_, vk))
  | NoKey => Some None
  | KeyPanics => None
  end.

End Hotkey.

(* ===================================================================== *)
(** * The low-level keyboard hook of [startLowLevelHook] *)
(* ===================================================================== *)

Module Hook.
Import GoStrings Hotkey.

(** Conversions of a [uintptr] argument. *)
Definition uint32 (z : Z) : Z := z mod 2 ^ 32.
Definition int32 (z : Z) : Z :=
  let m := z mod 2 ^ 32 in if m <? 2 ^ 31 then m else m - 2 ^ 32.

Definition WM_KEYDOWN : Z := 0x0100.
Definition WM_KEYUP : Z := 0x0101.
Definition WM_SYSKEYDOWN : Z := 0x0104.
Definition WM_SYSKEYUP : Z := 0x0105.
Definition LLKHF_INJECTED : Z := 0x10.
Definition VK_SHIFT : Z := 0x10.
Definition VK_CONTROL : Z := 0x11.
Definition VK_MENU : Z := 0x12.
Definition VK_LWIN : Z := 0x5B.
Definition VK_RWIN : Z := 0x5C.

Record candidate := { cand_id : Z; cand_mod : Z }.

Record KBDLLHOOKSTRUCT := {
  vkCode : Z;
  scanCode : Z;
  flags : Z;
  time : Z;
  dwExtraInfo : Z
}.

(** One invocation of the callback: its three arguments ([lParam] points to
    the structure [k]) and the answers of [GetAsyncKeyState] while it runs. *)
Record event := {
  nCode : Z;
  wParam : Z;
  k : KBDLLHOOKSTRUCT;
  GetAsyncKeyState : Z -> Z
}.

(** What the callback returns: the result of [CallNextHookEx] (the event
    goes on to the next hook and the application), or [1] (the event is
    consumed), after [go handler(id)] when a hotkey matched. *)
Inductive verdict :=
| Forward
| Swallow (dispatched : option Z).

Definition modsSatisfied (ks : Z -> Z) (required : Z) : bool :=
  if required =? 0 then true
  else if negb (Z.land required 0x0002 =? 0) && (Z.land (ks VK_CONTROL) 0x8000 =? 0)
  then false
  else if negb (Z.land required 0x0001 =? 0) && (Z.land (ks VK_MENU) 0x8000 =? 0)
  then false
  else if negb (Z.land required 0x0004 =? 0) && (Z.land (ks VK_SHIFT) 0x8000 =? 0)
  then false
  else if negb (Z.land required 0x0008 =? 0)
          && ((Z.land (ks VK_LWIN) 0x8000 =? 0) && (Z.land (ks VK_RWIN) 0x8000 =? 0))
  then false
  else true.

(** [swallowed[vk]]: a missing key reads as [false]. *)
Definition is_swallowed (swallowed : gmap Z bool) (vk : Z) : bool :=
  default false (swallowed !! vk).

(** [for _, c := range cands { if modsSatisfied(c.mod) { ... return 1 } }] *)
Definition first_match (ks : Z -> Z) (cands : list candidate) : option candidate :=
  List.find (fun c => modsSatisfied ks (cand_mod c)) cands.

(** The hook callback: the new [swallowed] map and the verdict. *)
Definition callback (lookup : gmap Z (list candidate)) (swallowed : gmap Z bool)
    (ev : event) : gmap Z bool * verdict :=
  if int32 (nCode ev) <? 0 then (swallowed, Forward)
  else
    let msg := uint32 (wParam ev) in
    let vk := vkCode (k ev) in
    if negb (Z.land (flags (k ev)) LLKHF_INJECTED =? 0) then (swallowed, Forward)
    else
      let keyup :=
        if ((msg =? WM_KEYUP) || (msg =? WM_SYSKEYUP)) && is_swallowed swallowed vk
        then (delete vk swallowed, Swallow None)
        else (swallowed, Forward) in
      if (msg =? WM_KEYDOWN) || (msg =? WM_SYSKEYDOWN) then
        match lookup !! vk with
        | Some cands =>
            match first_match (GetAsyncKeyState ev) cands with
            | Some c => (<[vk := true]> swallowed, Swallow (Some (cand_id c)))
            | None => keyup
            end
        | None => keyup
        end
      else keyup.

(** The callback over a sequence of events, from the oldest on. *)
Fixpoint run_hook (lookup : gmap Z (list candidate)) (swallowed : gmap Z bool)
    (evs : list event) : gmap Z bool * list verdict :=
  match evs with
  | [] => (swallowed, [])
  | ev :: rest =>
      let '(sw1, v) := callback lookup swallowed ev in
      let '(sw2, vs) := run_hook lookup sw1 rest in
      (sw2, v :: vs)
  end.

(** [lookup[vk] = append(lookup[vk], candidate{id, mod})] over the three
    specs; [None] when a spec does not parse. *)
Fixpoint build_lookup (specs : list (Z * string)) (lookup : gmap Z (list candidate))
    : option (gmap Z (list candidate)) :=
  match specs with
  | [] => Some lookup
  | (id, spec) :: rest =>
      match parseHotkey spec with
      | (mod_, vk, None) =>
          build_lookup rest
            (<[vk := (default [] (lookup !! vk) ++ [{| cand_id := id; cand_mod := mod_ |}])%list]>
               lookup)
      | _ => None
      end
  end.

Definition install (startKey pauseKey cancelKey : string)
    : option (gmap Z (list candidate)) :=
  build_lookup [(1, startKey); (2, pauseKey); (3, cancelKey)] ∅.

(** Classification of events, for the statements. *)
Definition is_injected (ev : event) : bool :=
  negb (Z.land (flags (k ev)) LLKHF_INJECTED =? 0).

Definition is_keyup (ev : event) : bool :=
  (uint32 (wParam ev) =? WM_KEYUP) || (uint32 (wParam ev) =? WM_SYSKEYUP).

Definition is_keydown (ev : event) : bool :=
  (uint32 (wParam ev) =? WM_KEYDOWN) || (uint32 (wParam ev) =? WM_SYSKEYDOWN).

(** A key-up for [vk] that the callback examines: hook code not negative,
    not injected. *)
Definition genuine_keyup (vk : Z) (ev : event) : bool :=
  negb (int32 (nCode ev) <? 0) && negb (is_injected ev)
  && is_keyup ev && (vkCode (k ev) =? vk).

(** Sample events: Ctrl held and [V] pressed; [V] released by an injected
    event; [V] released by the keyboard. *)
Definition ctrl_held (vk : Z) : Z := if vk =? VK_CONTROL then 0x8000 else 0.

Definition key_v_down : event :=
  {| nCode := 0; wParam := WM_KEYDOWN;
     k := {| vkCode := 0x56; scanCode := 0x2F; flags := 0; time := 0;
             dwExtraInfo := 0 |};
     GetAsyncKeyState := ctrl_held |}.

Definition key_v_up_injected : event :=
  {| nCode := 0; wParam := WM_KEYUP;
     k := {| vkCode := 0x56; scanCode := 0x2F; flags := 0x90; time := 1;
             dwExtraInfo := 0 |};
     GetAsyncKeyState := ctrl_held |}.

Definition key_v_up : event :=
  {| nCode := 0; wParam := WM_KEYUP;
     k := {| vkCode := 0x56; scanCode := 0x2F; flags := 0x80; time := 2;
             dwExtraInfo := 0 |};
     GetAsyncKeyState := ctrl_held |}.

(** The table of a hook installed for Ctrl+V, Ctrl+P and Esc. *)
Definition sample_lookup : gmap Z (list candidate) :=
  default ∅ (install "ctrl+v" "ctrl+p" "esc").

End Hook.

(* ===================================================================== *)
(** * internal/jsonpath/jsonpath.go *)
(* ===================================================================== *)

Module Jsonpath.
Import GoStrings.

(** How a call ends: it returns, or a run-time check of Go fails (index or
    slice bound out of range), or the loop of the model is cut short by its
    fuel.  The facts below show that only [Returned] occurs. *)
Inductive outcome (A : Type) : Type :=
| Returned (a : A)
| Panicked
| OutOfFuel.
Arguments Returned {A} a.
Arguments Panicked {A}.
Arguments OutOfFuel {A}.

Definition bind {A B} (m : outcome A) (f : A -> outcome B) : outcome B :=
  match m with
  | Returned a => f a
  | Panicked => Panicked
  | OutOfFuel => OutOfFuel
  end.

Notation "'let*' x ':=' m 'in' k" := (bind m (fun x => k))
  (at level 10, x name, m at level 100, k at level 200).

(** [s[lo:hi]] and [s[lo:]] with Go's bounds checks. *)
Definition slice_checked (s : string) (lo hi : Z) : outcome string :=
  if (0 <=? lo) && (lo <=? hi) && (hi <=? len s)
  then Returned (slice s lo hi) else Panicked.

Definition slice_from_checked (s : string) (lo : Z) : outcome string :=
  if (0 <=? lo) && (lo <=? len s)
  then Returned (slice_from s lo) else Panicked.

(** The loop [for len(rest) > 0 { ... }] of [ParseKeyAndIndexes]; [None] is
    a non-nil error. *)
Fixpoint parse_indexes (fuel : nat) (rest : string) (idxs : list Z)
    : outcome (option (list Z)) :=
  if 0 <? len rest then
    match fuel with
    | O => OutOfFuel
    | S fuel' =>
        if negb (HasPrefix rest "[") then Returned None
        else
          let closePos := IndexByte "]" rest in
          if closePos =? -1 then Returned None
          else
            let* numStr := slice_checked rest 1 closePos in
            if String.eqb numStr "" then Returned None
            else
              match Atoi numStr with
              | None => Returned None
              | Some n =>
                  let* rest' := slice_from_checked rest (closePos + 1) in
                  parse_indexes fuel' rest' (idxs ++ [n])%list
              end
    end
  else Returned (Some idxs).

(** [ParseKeyAndIndexes]: the base key and the indexes of one path token. *)
Definition ParseKeyAndIndexes (token : string) : outcome (option (string * list Z)) :=
  if String.eqb token "" then Returned None
  else
    let br := IndexByte "[" token in
    if br =? -1 then Returned (Some (token, []))
    else
      let* key := slice_checked token 0 br in
      let* rest := slice_from_checked token br in
      let* r := parse_indexes (String.length rest) rest [] in
      Returned (match r with Some idxs => Some (key, idxs) | None => None end).

Section Values.

(** [float64] and the text [fmt.Sprintf] gives a number ([%d] of the integer
    part when the value is integral, [%v] otherwise) are parameters. *)
Variable float64 : Type.
Variable format_number : float64 -> string.

(** What [json.Unmarshal] stores in an [interface{}]. *)
Inductive value : Type :=
| JNull
| JBool (b : bool)
| JNumber (f : float64)
| JString (s : string)
| JArray (items : list value)
| JObject (fields : gmap string value).

(** [json.Unmarshal(body, &root)]; [None] is a non-nil error. *)
Variable Unmarshal : string -> option value.

(** The order in which [range] visits a map (unspecified by Go). *)
Variable range_order : gmap string value -> list (string * value).

(** [arr[idx]] with its bounds check. *)
Definition index_checked (arr : list value) (idx : Z) : outcome value :=
  if (0 <=? idx) && (idx <? Z.of_nat (List.length arr)) then
    match nth_error arr (Z.to_nat idx) with
    | Some v => Returned v
    | None => Panicked
    end
  else Panicked.

(** [for _, idx := range idxs { ... }]; [None]: the function returns
    [("", false)]. *)
Fixpoint walk_indexes (cur : value) (idxs : list Z) : outcome (option value) :=
  match idxs with
  | [] => Returned (Some cur)
  | idx :: rest =>
      match cur with
      | JArray arr =>
          if (idx <? 0) || (Z.of_nat (List.length arr) <=? idx) then Returned None
          else
            let* next := index_checked arr idx in
            walk_indexes next rest
      | _ => Returned None
      end
  end.

(** [if key != "" { ... }] *)
Definition walk_key (cur : value) (key : string) : option value :=
  if negb (String.eqb key "") then
    match cur with
    | JObject m => m !! key
    | _ => None
    end
  else Some cur.

(** The body of [for _, part := range parts]. *)
Definition walk_part (cur : value) (part : string) : outcome (option value) :=
  let* parsed := ParseKeyAndIndexes part in
  match parsed with
  | None => Returned None
  | Some (key, idxs) =>
      match walk_key cur key with
      | None => Returned None
      | Some next => walk_indexes next idxs
      end
  end.

Fixpoint walk (cur : value) (parts : list string) : outcome (option value) :=
  match parts with
  | [] => Returned (Some cur)
  | part :: rest =>
      let* r := walk_part cur part in
      match r with
      | None => Returned None
      | Some next => walk next rest
      end
  end.

(** The closing [switch v := cur.(type)]. *)
Definition leaf_text (cur : value) : string * bool :=
  match cur with
  | JString v => (v, true)
  | JNumber v => (format_number v, true)
  | JBool v => (if v then "true" else "false", true)
  | _ => ("", false)
  end.

Definition ExtractByPath (root : value) (path : string) : outcome (string * bool) :=
  if String.eqb path "" then Returned ("", false)
  else
    let* r := walk root (Split "." path) in
    match r with
    | None => Returned ("", false)
    | Some cur => Returned (leaf_text cur)
    end.

(** [for _, val := range m { if s, ok := val.(string); ok && s != "" ... }] *)
Fixpoint first_string (vals : list (string * value)) : option string :=
  match vals with
  | [] => None
  | (_, JString s) :: rest =>
      if negb (String.eqb s "") then Some s else first_string rest
  | _ :: rest => first_string rest
  end.

Definition text_field (m : gmap string value) : option string :=
  match m !! "text" with
  | Some (JString s) => Some s
  | Some (JNumber f) => Some (format_number f)
  | Some (JBool b) => Some (if b then "true" else "false")
  | _ => None
  end.

Definition ExtractTextFromResponse (body : string) (textPath : string) : outcome string :=
  match Unmarshal body with
  | None => Returned ""
  | Some root =>
      let* r := (if negb (String.eqb textPath "") then ExtractByPath root textPath
                 else Returned ("", false)) in
      match r with
      | (v, true) => Returned v
      | (_, false) =>
          match root with
          | JObject m =>
              match text_field m with
              | Some s => Returned s
              | None =>
                  match first_string (range_order m) with
                  | Some s => Returned s
                  | None => Returned ""
                  end
              end
          | _ => Returned ""
          end
      end
  end.

(** Kinds of values, for the statements. *)
Definition is_object (v : value) : bool :=
  match v with JObject _ => true | _ => false end.
Definition is_array (v : value) : bool :=
  match v with JArray _ => true | _ => false end.
Definition is_primitive (v : value) : bool :=
  match v with JString _ | JNumber _ | JBool _ => true | _ => false end.

End Values.

Arguments JNull {float64}.
Arguments JBool {float64} b.
Arguments JNumber {float64} f.
Arguments JString {float64} s.
Arguments JArray {float64} items.
Arguments JObject {float64} fields.

(** The value built in [TestExtractByPath]. *)
Definition test_root : value unit :=
  JObject (list_to_map
    [ ("text", JString "hello");
      ("data", JObject (list_to_map
         [ ("items", JArray
              [ JObject (list_to_map [("value", JString "a")]);
                JObject (list_to_map [("value", JString "b")]) ]) ]));
      ("results", JArray
         [ JObject (list_to_map
             [ ("alternatives", JArray
                  [ JObject (list_to_map [("transcript", JString "ok")]) ]) ]) ]) ]).

End Jsonpath.

(* ===================================================================== *)
(** * internal/record: the Recorder and its capture worker *)
(* ===================================================================== *)

Module Record.

Inductive State :=
| StateIdle
| StateRecording
| StatePaused
| StateStopping
| StateCanceled.

Definition State_eqb (a b : State) : bool :=
  match a, b with
  | StateIdle, StateIdle | StateRecording, StateRecording
  | StatePaused, StatePaused | StateStopping, StateStopping
  | StateCanceled, StateCanceled => true
  | _, _ => false
  end.

(** [Result]; [Err = None] is a nil error. *)
Record Result := {
  WavPath : string;
  Canceled : bool;
  Err : option string
}.

(** [Result{}] *)
Definition zero_Result : Result :=
  {| WavPath := ""; Canceled := false; Err := None |}.

(** The fields of [Recorder] ([mu] is implicit: every transition below is
    one critical section).  Contexts and channels live in the tables of
    [sys]; a field holds the position of its object, [None] for nil. *)
Record Recorder := {
  state : State;
  tempDir : string;
  wavPath : string;
  stopCtx : option nat;
  stopCancel : option nat;
  done : option nat
}.

(** [New(cfg, tempDir)] *)
Definition New (tempDir : string) : Recorder :=
  {| state := StateIdle; tempDir := tempDir; wavPath := "";
     stopCtx := None; stopCancel := None; done := None |}.

(** Program points of [recordLoop]. *)
Inductive pc :=
| AtInitialize      (* portaudio.Initialize() *)
| AtOpen            (* portaudio.OpenDefaultStream(...) *)
| AtStreamStart     (* stream.Start() *)
| AtCreate          (* os.Create(wavPath) *)
| AtLoopCanceled    (* for { if r.isCanceled() { break } *)
| AtLoopPaused      (* if r.isPaused() { Sleep; continue } *)
| AtLoopCtx         (* select { case <-r.stopCtx.Done(): goto done ... } *)
| AtRead            (* stream.Read() *)
| AtWrite           (* enc.Write(buf) *)
| AtDone            (* done: stream.Stop(); stream.Close(); if r.isCanceled() *)
| AtEncClose        (* enc.Close() *)
| AtRemove (res : Result)   (* os.Remove(wavPath), on the way to r.finish(res) *)
| AtFinish (res : Result)   (* r.finish(res): r.state = StateIdle *)
| AtSend (res : Result)     (* r.finish(res): the operand r.done of the send is read *)
| Sending (d : option nat) (res : Result)   (* r.done <- res, on the channel read *)
| AtReturn (res : Result)   (* recordLoop returns; the deferred Terminate runs *)
| Exited (res : Result).    (* the goroutine has ended *)

(** One goroutine running [recordLoop], with what it holds.  The names
    drawn from [uuid.New()] are taken to differ from session to session, so
    the file of a worker is its own and [w_onDisk] is its presence on disk.
    [w_stream] and [w_file] tell what the worker has opened and not yet
    closed; [w_removeFailed] records the answer of the system to the one
    [os.Remove] a worker may call. *)
Record worker := {
  w_pc : pc;
  w_wavPath : string;   (* the local wavPath *)
  w_pa : bool;          (* PortAudio initialised, Terminate deferred *)
  w_stream : bool;      (* the input stream is opened and not closed *)
  w_file : bool;        (* the file and its encoder are opened and not closed *)
  w_onDisk : bool;      (* the file at wavPath exists *)
  w_removeFailed : bool;   (* os.Remove(wavPath) was called and failed *)
  w_buffers : nat       (* buffers written through the encoder *)
}.

(** A goroutine inside [Stop] or [Cancel], past the critical section. *)
Inductive op := OpStop | OpCancel.

Inductive caller_pc :=
| CancelPending             (* if cancel != nil { cancel() } *)
| Waiting                   (* res := <-done *)
| CallerReturned (res : Result).

Record caller := {
  c_op : op;
  c_cancel : option nat;    (* the local cancel *)
  c_done : option nat;      (* the local done *)
  c_pc : caller_pc
}.

(** The recorder, the goroutines around it, and the objects they share:
    [ctxs] holds for each context made by [context.WithCancel] whether it is
    cancelled, [chans] the one-slot buffer of each channel made by [make]. *)
Record sys := {
  rec : Recorder;
  workers : list worker;
  ctxs : list bool;
  chans : list (option Result);
  callers : list caller
}.

Definition init (tempDir : string) : sys :=
  {| rec := New tempDir; workers := []; ctxs := []; chans := []; callers := [] |}.

Definition with_state (st : State) (r : Recorder) : Recorder :=
  {| state := st; tempDir := tempDir r; wavPath := wavPath r;
     stopCtx := stopCtx r; stopCancel := stopCancel r; done := done r |}.

Definition set_state (st : State) (s : sys) : sys :=
  {| rec := with_state st (rec s); workers := workers s; ctxs := ctxs s;
     chans := chans s; callers := callers s |}.

Definition set_worker (i : nat) (w : worker) (s : sys) : sys :=
  {| rec := rec s; workers := <[i := w]> (workers s); ctxs := ctxs s;
     chans := chans s; callers := callers s |}.

Definition set_caller (j : nat) (c : caller) (s : sys) : sys :=
  {| rec := rec s; workers := workers s; ctxs := ctxs s;
     chans := chans s; callers := <[j := c]> (callers s) |}.

Definition set_chan (d : nat) (slot : option Result) (s : sys) : sys :=
  {| rec := rec s; workers := workers s; ctxs := ctxs s;
     chans := <[d := slot]> (chans s); callers := callers s |}.

Definition cancel_ctx (c : nat) (s : sys) : sys :=
  {| rec := rec s; workers := workers s; ctxs := <[c := true]> (ctxs s);
     chans := chans s; callers := callers s |}.

Definition add_caller (c : caller) (s : sys) : sys :=
  {| rec := rec s; workers := workers s; ctxs := ctxs s;
     chans := chans s; callers := (callers s ++ [c])%list |}.

(** [filepath.Join(dir, base)]: the separator (byte 92 on Windows) between
    the non-empty elements; the cleaning of the joined path is not modelled. *)
Definition path_separator : string := String (ascii_of_nat 92) "".

Definition filepath_Join (dir base : string) : string :=
  if String.eqb dir "" then base else dir ++ path_separator ++ base.

(** [generateTempWav]: [id] is the 16 characters cut from [uuid.New()],
    [cwd] the answer of [os.Getwd()]. *)
Definition generateTempWav (r : Recorder) (id cwd : string) : string :=
  let base := "RecordTemp_" ++ id ++ ".wav" in
  let dir := if String.eqb (tempDir r) "" then cwd else tempDir r in
  filepath_Join dir base.

Definition spawn (path : string) : worker :=
  {| w_pc := AtInitialize; w_wavPath := path; w_pa := false;
     w_stream := false; w_file := false; w_onDisk := false;
     w_removeFailed := false; w_buffers := 0 |}.

(** [Start(ctx)] with a context nobody else cancels ([context.Background()]
    in [RunRecordMode]).  The first two statements of the spawned
    [recordLoop], which draw the file name, are part of this step. *)
Definition Start (id cwd : string) (s : sys) : sys * option string :=
  if negb (State_eqb (state (rec s)) StateIdle) then (s, Some "recorder not idle")
  else
    let path := generateTempWav (rec s) id cwd in
    ({| rec := {| state := StateRecording; tempDir := tempDir (rec s);
                  wavPath := path;
                  stopCtx := Some (List.length (ctxs s));
                  stopCancel := Some (List.length (ctxs s));
                  done := Some (List.length (chans s)) |};
        workers := (workers s ++ [spawn path])%list;
        ctxs := (ctxs s ++ [false])%list;
        chans := (chans s ++ [None])%list;
        callers := callers s |}, None).

Definition running (st : State) : bool :=
  State_eqb st StateRecording || State_eqb st StatePaused.

(** The critical section of [Stop] and of [Cancel].  An error returns at
    once with [Result{}]; otherwise the call goes on as a [caller]. *)
Definition request (o : op) (s : sys) : sys * option (Result * option string) :=
  if negb (running (state (rec s))) then (s, Some (zero_Result, Some "recorder not running"))
  else
    (add_caller {| c_op := o; c_cancel := stopCancel (rec s);
                   c_done := done (rec s); c_pc := CancelPending |}
       (set_state (match o with OpStop => StateStopping | OpCancel => StateCanceled end) s),
     None).

Definition Stop : sys -> sys * option (Result * option string) := request OpStop.
Definition Cancel : sys -> sys * option (Result * option string) := request OpCancel.

Definition TogglePause (s : sys) : sys * option string :=
  if negb (running (state (rec s))) then (s, Some "recorder not running")
  else if State_eqb (state (rec s)) StatePaused
  then (set_state StateRecording s, None)
  else (set_state StatePaused s, None).

(** The rest of [Stop] / [Cancel]: [cancel()], then the receive, which
    blocks while the channel is empty or nil. *)
Definition caller_step (j : nat) (s : sys) : sys :=
  match callers s !! j with
  | None => s
  | Some c =>
      match c_pc c with
      | CancelPending =>
          let s' := match c_cancel c with
                    | Some x => cancel_ctx x s
                    | None => s
                    end in
          set_caller j {| c_op := c_op c; c_cancel := c_cancel c;
                          c_done := c_done c; c_pc := Waiting |} s'
      | Waiting =>
          match c_done c with
          | Some d =>
              match chans s !! d with
              | Some (Some res) =>
                  set_caller j {| c_op := c_op c; c_cancel := c_cancel c;
                                  c_done := c_done c; c_pc := CallerReturned res |}
                    (set_chan d None s)
              | _ => s
              end
          | None => s
          end
      | CallerReturned _ => s
      end
  end.

Definition at_pc (p : pc) (w : worker) : worker :=
  {| w_pc := p; w_wavPath := w_wavPath w; w_pa := w_pa w; w_stream := w_stream w;
     w_file := w_file w; w_onDisk := w_onDisk w;
     w_removeFailed := w_removeFailed w; w_buffers := w_buffers w |}.

Definition failed (w : worker) (msg : string) : Result :=
  {| WavPath := w_wavPath w; Canceled := false; Err := Some msg |}.

(** [<-r.stopCtx.Done()] is ready. *)
Definition stop_requested (s : sys) : bool :=
  match stopCtx (rec s) with
  | Some c => default false (ctxs s !! c)
  | None => false
  end.

(** The result of the cancel branch: empty [WavPath], [Canceled] set. *)
Definition cancelled_result : Result :=
  {| WavPath := ""; Canceled := true; Err := None |}.

(** [Result{WavPath: wavPath}], the result of a clean stop. *)
Definition completed (w : worker) : Result :=
  {| WavPath := w_wavPath w; Canceled := false; Err := None |}.

(** The worker with its stream closed ([stream.Stop(); stream.Close()]) and
    with its encoder and file closed ([enc.Close(); file.Close()]). *)
Definition close_stream (w : worker) : worker :=
  {| w_pc := w_pc w; w_wavPath := w_wavPath w; w_pa := w_pa w; w_stream := false;
     w_file := w_file w; w_onDisk := w_onDisk w;
     w_removeFailed := w_removeFailed w; w_buffers := w_buffers w |}.

Definition close_file (w : worker) : worker :=
  {| w_pc := w_pc w; w_wavPath := w_wavPath w; w_pa := w_pa w; w_stream := w_stream w;
     w_file := false; w_onDisk := w_onDisk w;
     w_removeFailed := w_removeFailed w; w_buffers := w_buffers w |}.

(** [os.Remove(wavPath)]: the file is gone when the call succeeds and stays
    when it fails; the source drops the error. *)
Definition remove_wav (ok : bool) (w : worker) : worker :=
  {| w_pc := w_pc w; w_wavPath := w_wavPath w; w_pa := w_pa w; w_stream := w_stream w;
     w_file := w_file w; w_onDisk := if ok then false else w_onDisk w;
     w_removeFailed := negb ok; w_buffers := w_buffers w |}.

(** One step of [recordLoop] for the worker [w]: the new worker.  [ok]
    tells whether the library call at this point succeeds, for the calls
    whose error the source tests and for [os.Remove], which has a step of its
    own ([AtRemove]).  The other calls whose error the source drops
    ([stream.Stop], [stream.Close], [file.Close], and [enc.Close] on the
    failure paths) end the worker's use of the stream or the file whatever
    they answer.  At [AtSend] the worker reads [r.done]; it then stays on
    that channel ([Sending]) until its result is in it. *)
Definition recordLoop_local (ok : bool) (s : sys) (w : worker) : worker :=
  match w_pc w with
  | AtInitialize =>
      if ok then
        {| w_pc := AtOpen; w_wavPath := w_wavPath w; w_pa := true;
           w_stream := w_stream w; w_file := w_file w; w_onDisk := w_onDisk w;
           w_removeFailed := w_removeFailed w; w_buffers := w_buffers w |}
      else at_pc (AtFinish (failed w "portaudio init failed")) w
  | AtOpen =>
      if ok then
        {| w_pc := AtStreamStart; w_wavPath := w_wavPath w; w_pa := w_pa w;
           w_stream := true; w_file := w_file w; w_onDisk := w_onDisk w;
           w_removeFailed := w_removeFailed w; w_buffers := w_buffers w |}
      else at_pc (AtFinish (failed w "open stream failed")) w
  | AtStreamStart =>
      if ok then at_pc AtCreate w
      else at_pc (AtFinish (failed w "start stream failed")) (close_stream w)
  | AtCreate =>
      if ok then
        {| w_pc := AtLoopCanceled; w_wavPath := w_wavPath w; w_pa := w_pa w;
           w_stream := w_stream w; w_file := true; w_onDisk := true;
           w_removeFailed := w_removeFailed w; w_buffers := w_buffers w |}
      else at_pc (AtFinish (failed w "create wav failed")) (close_stream w)
  | AtLoopCanceled =>
      if State_eqb (state (rec s)) StateCanceled then at_pc AtDone w
      else at_pc AtLoopPaused w
  | AtLoopPaused =>
      if State_eqb (state (rec s)) StatePaused then at_pc AtLoopCanceled w
      else at_pc AtLoopCtx w
  | AtLoopCtx =>
      if stop_requested s then at_pc AtDone w else at_pc AtRead w
  | AtRead =>
      if ok then at_pc AtWrite w else at_pc AtLoopCanceled w
  | AtWrite =>
      if ok then
        {| w_pc := AtLoopCanceled; w_wavPath := w_wavPath w; w_pa := w_pa w;
           w_stream := w_stream w; w_file := w_file w; w_onDisk := w_onDisk w;
           w_removeFailed := w_removeFailed w; w_buffers := S (w_buffers w) |}
      else
        at_pc (AtRemove (failed w "wav write failed")) (close_stream (close_file w))
  | AtDone =>
      if State_eqb (state (rec s)) StateCanceled then
        at_pc (AtRemove cancelled_result) (close_file (close_stream w))
      else at_pc AtEncClose (close_stream w)
  | AtEncClose =>
      if ok then at_pc (AtFinish (completed w)) (close_file w)
      else at_pc (AtRemove (failed w "wav close failed")) (close_file w)
  | AtRemove res => at_pc (AtFinish res) (remove_wav ok w)
  | AtFinish res => at_pc (AtSend res) w
  | AtSend res => at_pc (Sending (done (rec s)) res) w
  | Sending _ res => at_pc (AtReturn res) w
  | AtReturn res =>
      {| w_pc := Exited res; w_wavPath := w_wavPath w; w_pa := false;
         w_stream := w_stream w; w_file := w_file w; w_onDisk := w_onDisk w;
         w_removeFailed := w_removeFailed w; w_buffers := w_buffers w |}
  | Exited res => w
  end.

(** The step of worker [i].  [finish] sets [r.state = StateIdle] in its
    critical section; the send that follows reads [r.done] first, then
    blocks on that channel while its slot is full (or the channel nil),
    whatever [r.done] has become meanwhile; the return comes after it. *)
Definition recordLoop_step (i : nat) (ok : bool) (s : sys) : sys :=
  match workers s !! i with
  | None => s
  | Some w =>
      match w_pc w with
      | AtFinish res =>
          set_worker i (recordLoop_local ok s w) (set_state StateIdle s)
      | Sending (Some d) res =>
          match chans s !! d with
          | Some None =>
              set_worker i (recordLoop_local ok s w) (set_chan d (Some res) s)
          | _ => s
          end
      | Sending None res => s
      | _ => set_worker i (recordLoop_local ok s w) s
      end
  end.

(** What can happen next: a call of the recorder's interface enters its
    critical section, a pending caller goes on, a worker goes on. *)
Inductive label :=
| L_Start (id cwd : string)
| L_Stop
| L_Cancel
| L_TogglePause
| L_Caller (j : nat)
| L_Worker (i : nat) (ok : bool).

Definition step (l : label) (s : sys) : sys :=
  match l with
  | L_Start id cwd => fst (Start id cwd s)
  | L_Stop => fst (Stop s)
  | L_Cancel => fst (Cancel s)
  | L_TogglePause => fst (TogglePause s)
  | L_Caller j => caller_step j s
  | L_Worker i ok => recordLoop_step i ok s
  end.

(** An interleaving, from the oldest step on. *)
Definition run (tr : list label) (s : sys) : sys :=
  fold_left (fun s l => step l s) tr s.

(** A worker is active from its spawn until [finish] has reset the state. *)
Definition active (w : worker) : bool :=
  match w_pc w with
  | AtSend _ | Sending _ _ | AtReturn _ | Exited _ => false
  | _ => true
  end.

Definition active_workers (s : sys) : nat :=
  List.length (List.filter active (workers s)).

(** The result a worker has settled on. *)
Definition settled (w : worker) : option Result :=
  match w_pc w with
  | AtRemove res | AtFinish res | AtSend res | Sending _ res
  | AtReturn res | Exited res => Some res
  | _ => None
  end.

(** Sample interleavings of one session: up to the first [stream.Read],
    and up to the first [enc.Write]. *)
Definition sample_id : string := "0123456789abcdef".

Definition to_first_read : list label :=
  [ L_Start sample_id ""; L_Worker 0 true; L_Worker 0 true; L_Worker 0 true;
    L_Worker 0 true; L_Worker 0 true; L_Worker 0 true; L_Worker 0 true ].

Definition to_first_write : list label :=
  (to_first_read ++ [L_Worker 0 true])%list.

(** One round of the capture loop that reads and encodes a buffer. *)
Definition one_buffer : list label :=
  [ L_Worker 0 true; L_Worker 0 true; L_Worker 0 true; L_Worker 0 true;
    L_Worker 0 true ].

(** Start, three buffers, then [Stop]: the caller cancels the context, the
    worker leaves its loop, closes the encoder, finishes and sends, and the
    caller receives. *)
Definition stop_after_three_buffers : list label :=
  ([ L_Start sample_id ""; L_Worker 0 true; L_Worker 0 true; L_Worker 0 true;
     L_Worker 0 true ]
   ++ one_buffer ++ one_buffer ++ one_buffer
   ++ [ L_Stop; L_Caller 0;
        L_Worker 0 true; L_Worker 0 true; L_Worker 0 true;
        L_Worker 0 true; L_Worker 0 true; L_Worker 0 true; L_Worker 0 true;
        L_Worker 0 true; L_Worker 0 true;
        L_Caller 0 ])%list.

(** Start, then [Cancel] at once: the worker opens the device and the file,
    sees the cancellation at the top of its loop, removes the file, finishes,
    sends and returns. *)
Definition cancel_at_once : list label :=
  [ L_Start sample_id ""; L_Cancel; L_Caller 0;
    L_Worker 0 true; L_Worker 0 true; L_Worker 0 true; L_Worker 0 true;
    L_Worker 0 true; L_Worker 0 true; L_Worker 0 true; L_Worker 0 true;
    L_Worker 0 true; L_Worker 0 true; L_Worker 0 true;
    L_Caller 0 ].

(** The same, the system refusing to remove the file. *)
Definition cancel_remove_refused : list label :=
  [ L_Start sample_id ""; L_Cancel; L_Caller 0;
    L_Worker 0 true; L_Worker 0 true; L_Worker 0 true; L_Worker 0 true;
    L_Worker 0 true; L_Worker 0 true; L_Worker 0 false; L_Worker 0 true;
    L_Worker 0 true; L_Worker 0 true; L_Worker 0 true;
    L_Caller 0 ].

(** Start, then [Cancel] while [portaudio.Initialize] fails. *)
Definition cancel_while_init_fails : list label :=
  [ L_Start sample_id ""; L_Cancel; L_Caller 0;
    L_Worker 0 false; L_Worker 0 true; L_Worker 0 true; L_Worker 0 true;
    L_Worker 0 true; L_Caller 0 ].

(** Start, one buffer, a second buffer read; [Cancel] is accepted while the
    worker is about to encode it, and [enc.Write] fails. *)
Definition cancel_while_write_fails : list label :=
  ([ L_Start sample_id ""; L_Worker 0 true; L_Worker 0 true; L_Worker 0 true;
     L_Worker 0 true ]
   ++ one_buffer
   ++ [ L_Worker 0 true; L_Worker 0 true; L_Worker 0 true; L_Worker 0 true;
        L_Cancel; L_Caller 0;
        L_Worker 0 false; L_Worker 0 true; L_Worker 0 true; L_Worker 0 true;
        L_Worker 0 true; L_Worker 0 true; L_Caller 0 ])%list.

End Record.

(* ===================================================================== *)
(** * Step relations and invariants of the Recorder *)
(* ===================================================================== *)

Module RecordInv.
Import Record.

(** The worker after its return: the deferred [portaudio.Terminate] has
    run. *)
Definition returned (w : worker) (res : Result) : worker :=
  {| w_pc := Exited res; w_wavPath := w_wavPath w; w_pa := false;
     w_stream := w_stream w; w_file := w_file w; w_onDisk := w_onDisk w;
     w_removeFailed := w_removeFailed w; w_buffers := w_buffers w |}.

(** A worker inside [recordLoop], before its call of [finish]. *)
Definition working (w : worker) : bool :=
  match w_pc w with
  | AtFinish _ | AtSend _ | Sending _ _ | AtReturn _ | Exited _ => false
  | _ => true
  end.

(** A worker whose result is in its channel, or was. *)
Definition delivered (w : worker) (res : Result) : Prop :=
  w_pc w = AtReturn res \/ w_pc w = Exited res.


(** The shapes of a step of worker [i]: blocked or absent, the reset of
    [finish], the reading of [r.done], the send, the return, a step inside
    [recordLoop]. *)
Inductive worker_move (i : nat) (ok : bool) (s : sys) : sys -> Prop :=
| Move_none :
    worker_move i ok s s
| Move_finish w res :
    workers s !! i = Some w -> w_pc w = AtFinish res ->
    worker_move i ok s (set_worker i (at_pc (AtSend res) w) (set_state StateIdle s))
| Move_read w res :
    workers s !! i = Some w -> w_pc w = AtSend res ->
    worker_move i ok s (set_worker i (at_pc (Sending (done (rec s)) res) w) s)
| Move_send w res d :
    workers s !! i = Some w -> w_pc w = Sending (Some d) res ->
    chans s !! d = Some None ->
    worker_move i ok s (set_worker i (at_pc (AtReturn res) w) (set_chan d (Some res) s))
| Move_return w res :
    workers s !! i = Some w -> w_pc w = AtReturn res ->
    worker_move i ok s (set_worker i (returned w res) s)
| Move_local w :
    workers s !! i = Some w -> working w = true ->
    worker_move i ok s (set_worker i (recordLoop_local ok s w) s).

(** The shapes of a step of caller [j]: blocked or absent, [cancel()], the
    receive. *)
Inductive caller_move (j : nat) (s : sys) : sys -> Prop :=
| CMove_none :
    caller_move j s s
| CMove_cancel c :
    callers s !! j = Some c -> c_pc c = CancelPending ->
    caller_move j s
      (set_caller j {| c_op := c_op c; c_cancel := c_cancel c;
                       c_done := c_done c; c_pc := Waiting |}
         (match c_cancel c with Some x => cancel_ctx x s | None => s end))
| CMove_receive c d res :
    callers s !! j = Some c -> c_pc c = Waiting -> c_done c = Some d ->
    chans s !! d = Some (Some res) ->
    caller_move j s
      (set_caller j {| c_op := c_op c; c_cancel := c_cancel c;
                       c_done := c_done c; c_pc := CallerReturned res |}
         (set_chan d None s)).

(** The position of the newest of [n] objects. *)
Definition last_id (n : nat) : option nat :=
  match n with O => None | S m => Some m end.

(** Every [Start] makes one context, one channel and one worker, and the
    fields of the recorder name the newest; only the newest worker can be
    active, and the state is [StateIdle] exactly when none is.  A worker
    that is sending read [r.done] after its own [Start]: its channel is its
    own or a newer one. *)
Record wf (s : sys) : Prop := {
  wf_ctxs : List.length (ctxs s) = List.length (workers s);
  wf_chans : List.length (chans s) = List.length (workers s);
  wf_done : done (rec s) = last_id (List.length (workers s));
  wf_stopCtx : stopCtx (rec s) = last_id (List.length (workers s));
  wf_stopCancel : stopCancel (rec s) = last_id (List.length (workers s));
  wf_last : forall i w,
    workers s !! i = Some w -> active w = true -> S i = List.length (workers s);
  wf_idle :
    state (rec s) = StateIdle <->
    (forall i w, workers s !! i = Some w -> active w = false);
  wf_sending : forall i w od res,
    workers s !! i = Some w -> w_pc w = Sending od res ->
    exists d, od = Some d /\ (i <= d < List.length (workers s))%nat
}.

(** How worker [i] of [step l s] came to be [w']: it was there, or it was
    spawned, or it made this step. *)
Inductive worker_change (l : label) (s : sys) (i : nat) (w' : worker) : Prop :=
| Change_none :
    workers s !! i = Some w' -> worker_change l s i w'
| Change_spawn id cwd :
    l = L_Start id cwd -> state (rec s) = StateIdle ->
    i = List.length (workers s) -> w' = spawn (generateTempWav (rec s) id cwd) ->
    worker_change l s i w'
| Change_finish ok w res :
    l = L_Worker i ok -> workers s !! i = Some w -> w_pc w = AtFinish res ->
    w' = at_pc (AtSend res) w -> state (rec (step l s)) = StateIdle ->
    worker_change l s i w'
| Change_read ok w res :
    l = L_Worker i ok -> workers s !! i = Some w -> w_pc w = AtSend res ->
    w' = at_pc (Sending (done (rec s)) res) w ->
    worker_change l s i w'
| Change_send ok w res d :
    l = L_Worker i ok -> workers s !! i = Some w -> w_pc w = Sending (Some d) res ->
    w' = at_pc (AtReturn res) w -> chans s !! d = Some None ->
    worker_change l s i w'
| Change_return ok w res :
    l = L_Worker i ok -> workers s !! i = Some w -> w_pc w = AtReturn res ->
    w' = returned w res ->
    worker_change l s i w'
| Change_local ok w :
    l = L_Worker i ok -> workers s !! i = Some w ->
    working w = true ->
    w' = recordLoop_local ok s w -> rec (step l s) = rec s ->
    worker_change l s i w'.


(** The result a worker has settled on and the file: a cancelled or failed
    session has its file on disk exactly when [os.Remove] failed (it was not
    called when the file was never created); a completed one has it. *)
Definition outcome (w : worker) (res : Result) : Prop :=
  (res = cancelled_result /\ w_onDisk w = w_removeFailed w) \/
  ((exists msg, res = failed w msg) /\ w_onDisk w = w_removeFailed w) \/
  (res = completed w /\ w_onDisk w = true /\ w_removeFailed w = false).

(** The stream, the file handle and the file on disk at each point of
    [recordLoop], and the three shapes of a result. *)
Definition holds (w : worker) : Prop :=
  w_wavPath w <> "" /\
  match w_pc w with
  | AtInitialize =>
      w_pa w = false /\ w_stream w = false /\ w_file w = false /\
      w_onDisk w = false /\ w_removeFailed w = false
  | AtOpen =>
      w_pa w = true /\ w_stream w = false /\ w_file w = false /\
      w_onDisk w = false /\ w_removeFailed w = false
  | AtStreamStart | AtCreate =>
      w_pa w = true /\ w_stream w = true /\ w_file w = false /\
      w_onDisk w = false /\ w_removeFailed w = false
  | AtLoopCanceled | AtLoopPaused | AtLoopCtx | AtRead | AtWrite | AtDone =>
      w_pa w = true /\ w_stream w = true /\ w_file w = true /\
      w_onDisk w = true /\ w_removeFailed w = false
  | AtEncClose =>
      w_pa w = true /\ w_stream w = false /\ w_file w = true /\
      w_onDisk w = true /\ w_removeFailed w = false
  | AtRemove res =>
      w_pa w = true /\ w_stream w = false /\ w_file w = false /\
      w_onDisk w = true /\ w_removeFailed w = false /\
      (res = cancelled_result \/ exists msg, res = failed w msg)
  | AtFinish res | AtSend res | Sending _ res | AtReturn res =>
      w_stream w = false /\ w_file w = false /\ outcome w res
  | Exited res =>
      w_pa w = false /\ w_stream w = false /\ w_file w = false /\ outcome w res
  end.

(** The state [Stop] and [Cancel] set. *)
Definition target (o : op) : State :=
  match o with OpStop => StateStopping | OpCancel => StateCanceled end.

(** The caller that leaves the critical section of [Stop] or [Cancel]. *)
Definition pending (o : op) (s : sys) : caller :=
  {| c_op := o; c_cancel := stopCancel (rec s); c_done := done (rec s);
     c_pc := CancelPending |}.

(** The caller [c] at the point [p]. *)
Definition moved (c : caller) (p : caller_pc) : caller :=
  {| c_op := c_op c; c_cancel := c_cancel c; c_done := c_done c; c_pc := p |}.

(** The steps that change the system, each with the state it leads to. *)
Inductive move (s : sys) : sys -> Prop :=
| M_start id cwd :
    state (rec s) = StateIdle ->
    move s (fst (Start id cwd s))
| M_request o :
    running (state (rec s)) = true ->
    move s (add_caller (pending o s) (set_state (target o) s))
| M_toggle st :
    running (state (rec s)) = true -> running st = true ->
    move s (set_state st s)
| M_cancel j c :
    callers s !! j = Some c -> c_pc c = CancelPending ->
    move s (set_caller j (moved c Waiting)
              (match c_cancel c with Some x => cancel_ctx x s | None => s end))
| M_receive j c d res :
    callers s !! j = Some c -> c_pc c = Waiting -> c_done c = Some d ->
    chans s !! d = Some (Some res) ->
    move s (set_caller j (moved c (CallerReturned res)) (set_chan d None s))
| M_finish i w res :
    workers s !! i = Some w -> w_pc w = AtFinish res ->
    move s (set_worker i (at_pc (AtSend res) w) (set_state StateIdle s))
| M_read i w res :
    workers s !! i = Some w -> w_pc w = AtSend res ->
    move s (set_worker i (at_pc (Sending (done (rec s)) res) w) s)
| M_send i w res d :
    workers s !! i = Some w -> w_pc w = Sending (Some d) res ->
    chans s !! d = Some None ->
    move s (set_worker i (at_pc (AtReturn res) w) (set_chan d (Some res) s))
| M_return i w res :
    workers s !! i = Some w -> w_pc w = AtReturn res ->
    move s (set_worker i (returned w res) s)
| M_local i ok w :
    workers s !! i = Some w -> working w = true ->
    move s (set_worker i (recordLoop_local ok s w) s).

(** A caller captured [cancel] and [done] in one critical section: they name
    the context and the channel of the same [Start], one that has happened. *)
Definition callers_ok (s : sys) : Prop :=
  forall j c, callers s !! j = Some c ->
    c_cancel c = c_done c /\
    forall d, c_done c = Some d -> (d < List.length (workers s))%nat.

(** What the result of the session is to a caller of [Stop], of [Cancel]. *)
Definition agrees (o : op) (res : Result) : Prop :=
  match o with
  | OpStop => Canceled res = false
  | OpCancel => Canceled res = true \/ Err res <> None
  end.

(** The session of worker [k], started when every earlier worker had
    returned.  [wk] is its worker; the callers that captured channel [k]
    are the [Stop] or [Cancel] accepted during the session. *)
Record session (k : nat) (s : sys) (wk : worker) : Prop := {
  ss_worker : workers s !! k = Some wk;
  ss_old : forall i w, (i < k)%nat -> workers s !! i = Some w ->
    exists r, w_pc w = Exited r;
  ss_state : forall j c, callers s !! j = Some c -> c_done c = Some k ->
    active wk = true -> state (rec s) = target (c_op c);
  ss_result : forall j c res, callers s !! j = Some c -> c_done c = Some k ->
    settled wk = Some res -> agrees (c_op c) res;
  ss_returned : forall j c res, callers s !! j = Some c -> c_done c = Some k ->
    c_pc c = CallerReturned res -> delivered wk res;
  ss_chan : forall res, chans s !! k = Some (Some res) -> delivered wk res;
  ss_ctx : ctxs s !! k = Some true -> active wk = true ->
    state (rec s) = StateStopping \/ state (rec s) = StateCanceled;
  ss_done : w_pc wk = AtDone ->
    state (rec s) = StateStopping \/ state (rec s) = StateCanceled;
  ss_encclose : w_pc wk = AtEncClose -> state (rec s) = StateStopping;
  ss_finish : forall res, active wk = true -> settled wk = Some res ->
    (Canceled res = true -> state (rec s) = StateCanceled) /\
    (Canceled res = false -> Err res = None -> state (rec s) = StateStopping)
}.

End RecordInv.

(* ===================================================================== *)
(** * The table of the hook, for the statements *)
(* ===================================================================== *)

Module HookTable.
Import GoStrings Hotkey Hook.

(** The candidates the table of [startLowLevelHook] holds for the key [vk]
    once the loop over [specs] is through: one for each spec whose key is
    [vk], in the order of the specs. *)
Definition candidates_for (vk : Z) (specs : list (Z * string)) : list candidate :=
  flat_map (fun '(id, spec) =>
              match parseHotkey spec with
              | (m, v, None) =>
                  if v =? vk then [{| cand_id := id; cand_mod := m |}] else []
              | _ => []
              end) specs.

(** [GetAsyncKeyState(vk) & 0x8000]: the key is down. *)
Definition key_down (ks : Z -> Z) (vk : Z) : bool :=
  negb (Z.land (ks vk) 0x8000 =? 0).

(** Sample key states: every key down. *)
Definition all_held (vk : Z) : Z := 0x8001.

(** Ctrl and Shift held and [V] pressed, for a hook installed with
    Ctrl+V as start key and Ctrl+Shift+V as pause key. *)
Definition ctrl_shift_held (vk : Z) : Z :=
  if (vk =? VK_CONTROL) || (vk =? VK_SHIFT) then 0x8000 else 0.

Definition key_v_down_ctrl_shift : event :=
  {| nCode := 0; wParam := WM_KEYDOWN;
     k := {| vkCode := 0x56; scanCode := 0x2F; flags := 0; time := 0;
             dwExtraInfo := 0 |};
     GetAsyncKeyState := ctrl_shift_held |}.

Definition shadow_lookup : gmap Z (list candidate) :=
  default ∅ (install "ctrl+v" "ctrl+shift+v" "esc").

(** [A] released, a key no hotkey of [sample_lookup] uses. *)
Definition key_a_up : event :=
  {| nCode := 0; wParam := WM_KEYUP;
     k := {| vkCode := 0x41; scanCode := 0x1E; flags := 0x80; time := 3;
             dwExtraInfo := 0 |};
     GetAsyncKeyState := ctrl_held |}.

End HookTable.

(* ===================================================================== *)
(** * [registerHotkeys] of internal/hotkey/hotkey_windows.go *)
(* ===================================================================== *)

Module Register.
Import GoStrings Hotkey.

(** [hotkeyDef] *)
Record hotkeyDef := {
  def_id : Z;
  def_spec : string;
  def_mod : Z;
  def_vk : Z
}.

(** The errors of [registerHotkeys], by their arguments: the two its
    goroutine sends on [errCh], and the one of the [select] when no answer
    comes within two seconds. *)
Inductive register_error :=
| InvalidHotkey (spec : string) (err : string)
| RegisterFailed (spec : string) (id : Z)
| TimeoutRegistering.

(** [for i := range defs { mod, vk, err := parseHotkey(defs[i].spec) ... }]:
    the definitions with [mod] and [vk] filled in, or the error of the first
    spec that does not parse. *)
Fixpoint parse_defs (defs : list hotkeyDef) : register_error + list hotkeyDef :=
  match defs with
  | [] => inr []
  | d :: rest =>
      match parseHotkey (def_spec d) with
      | (m, vk, None) =>
          match parse_defs rest with
          | inr ds =>
              inr ({| def_id := def_id d; def_spec := def_spec d;
                      def_mod := m; def_vk := vk |} :: ds)
          | inl e => inl e
          end
      | (_, _, Some e) => inl (InvalidHotkey (def_spec d) e)
      end
  end.

(** The hot keys of the thread, as the system holds them: identifier to
    modifiers and key.  Whether the system grants a registration is outside
    the program (another program may hold the combination); [accepts] is
    its answer. *)
Abbreviation hotkeys := (gmap Z (Z * Z)).

Definition RegisterHotKey (accepts : Z -> Z -> Z -> bool) (t : hotkeys)
    (id m vk : Z) : hotkeys * bool :=
  if accepts id m vk then (<[id := (m, vk)]> t, true) else (t, false).

Definition UnregisterHotKey (t : hotkeys) (id : Z) : hotkeys := delete id t.

(** [for _, od := range defs { if od.id == d.id { break };
    procUnregisterHotKey.Call(0, uintptr(od.id)) }] *)
Fixpoint unregister_before (id : Z) (defs : list hotkeyDef) (t : hotkeys) : hotkeys :=
  match defs with
  | [] => t
  | od :: rest =>
      if def_id od =? id then t
      else unregister_before id rest (UnregisterHotKey t (def_id od))
  end.

(** [for _, d := range defs { r := RegisterHotKey(...); if r == 0 { ... } }] *)
Fixpoint register_loop (accepts : Z -> Z -> Z -> bool) (defs rest : list hotkeyDef)
    (t : hotkeys) : hotkeys * option register_error :=
  match rest with
  | [] => (t, None)
  | d :: rest' =>
      match RegisterHotKey accepts t (def_id d) (def_mod d) (def_vk d) with
      | (t', true) => register_loop accepts defs rest' t'
      | (t', false) =>
          (unregister_before (def_id d) defs t',
           Some (RegisterFailed (def_spec d) (def_id d)))
      end
  end.

(** The goroutine of [registerHotkeys] up to its send on [errCh]: the hot
    keys of its thread when it sends, and the error it sends ([None] for
    [errCh <- nil], after which it enters the message loop). *)
Definition register_goroutine (accepts : Z -> Z -> Z -> bool)
    (startKey pauseKey cancelKey : string) (t : hotkeys)
    : hotkeys * option register_error :=
  let defs := [ {| def_id := 1; def_spec := startKey; def_mod := 0; def_vk := 0 |};
                {| def_id := 2; def_spec := pauseKey; def_mod := 0; def_vk := 0 |};
                {| def_id := 3; def_spec := cancelKey; def_mod := 0; def_vk := 0 |} ] in
  match parse_defs defs with
  | inl e => (t, Some e)
  | inr defs' => register_loop accepts defs' defs' t
  end.

(** [registerHotkeys]: what the [select] returns.  [answered] tells whether
    the send of the goroutine is received before [time.After(2 *
    time.Second)] fires; when it is not, the call returns the timeout error
    and the goroutine goes on by itself. *)
Definition registerHotkeys (answered : bool) (accepts : Z -> Z -> Z -> bool)
    (startKey pauseKey cancelKey : string) (t : hotkeys)
    : option register_error :=
  if answered then snd (register_goroutine accepts startKey pauseKey cancelKey t)
  else Some TimeoutRegistering.

(** The three parsed hot keys added to the hot keys [t]. *)
Definition all_registered (startKey pauseKey cancelKey : string) (t t' : hotkeys)
    : Prop :=
  exists m1 v1 m2 v2 m3 v3,
    parseHotkey startKey = (m1, v1, None) /\
    parseHotkey pauseKey = (m2, v2, None) /\
    parseHotkey cancelKey = (m3, v3, None) /\
    t' = <[3 := (m3, v3)]> (<[2 := (m2, v2)]> (<[1 := (m1, v1)]> t)).

(** A system that grants the first two registrations and refuses the third. *)
Definition refuse_third (id m vk : Z) : bool := negb (id =? 3).

End Register.

(* ===================================================================== *)
(** * Path tokens, for the statements *)
(* ===================================================================== *)

Module JsonpathGrammar.
Import GoStrings.

(** The index part of a path token, for the statements: each numeral between
    brackets, [brackets ["0"; "12"] = "[0][12]"]. *)
Fixpoint brackets (ds : list string) : string :=
  match ds with
  | [] => ""
  | d :: rest => String "[" (d ++ String "]" (brackets rest))
  end.

(** A response with a transcript and a number, and one with the transcript
    under another name. *)
Definition sample_fields : gmap string (Jsonpath.value unit) :=
  list_to_map [ ("text", Jsonpath.JString "hello");
                ("duration", Jsonpath.JNumber tt) ].

Definition sample_result_fields : gmap string (Jsonpath.value unit) :=
  list_to_map [ ("result", Jsonpath.JString "hello");
                ("duration", Jsonpath.JNumber tt) ].

End JsonpathGrammar.

(* ===================================================================== *)
(** * internal/asr: the retry loop of [Transcribe] *)
(* ===================================================================== *)

Module Asr.
Import GoStrings Jsonpath.

(** The errors of [Transcribe], by their arguments. *)
Inductive transcribe_error :=
| EndpointEmpty
| RetriesExceeded (maxRetry : Z).

(** What [Transcribe] returns, with the value of [try] at the return: the
    number of calls of [doUpload] made.  [raw = None] is a nil slice. *)
Record transcript := {
  text : string;
  raw : option string;
  err : option transcribe_error;
  attempts : Z
}.

Section Client.

Variable float64 : Type.
Variable format_number : float64 -> string.
Variable Unmarshal : string -> option (value float64).
Variable range_order : gmap string (value float64) -> list (string * value float64).

(** The fields of [c.cfg] that [Transcribe] reads. *)
Variable APIEndpoint : string.
Variable TEXTPath : string.
Variable MaxRetry : Z.

(** [c.doUpload(ctx, filePath)] of the attempt numbered [try]: whether the
    server answered 200, and the body or the error text. *)
Variable doUpload : Z -> bool * string.

(** The loop [for { try++; ... }]; the sleeps between attempts pass time
    only. *)
Fixpoint retry_loop (fuel : nat) (try : Z) : outcome transcript :=
  match fuel with
  | O => OutOfFuel
  | S fuel' =>
      let try := try + 1 in
      let '(ok, res) := doUpload try in
      if ok then
        let* t := ExtractTextFromResponse float64 format_number Unmarshal
                    range_order res TEXTPath in
        Returned {| text := t; raw := Some res; err := None; attempts := try |}
      else if try >=? MaxRetry then
        Returned {| text := ""; raw := Some res;
                    err := Some (RetriesExceeded MaxRetry); attempts := try |}
      else retry_loop fuel' try
  end.

Definition Transcribe : outcome transcript :=
  if String.eqb APIEndpoint "" then
    Returned {| text := ""; raw := None; err := Some EndpointEmpty; attempts := 0 |}
  else retry_loop (Z.to_nat (Z.max 1 MaxRetry)) 0.

End Client.

(** A server that fails once and then answers. *)
Definition second_try_succeeds (try : Z) : bool * string :=
  if try =? 2 then (true, "{}") else (false, "busy").

End Asr.

(* ===================================================================== *)
(** * internal/config: [Validate], [TempDir], [ContainerExt] *)
(* ===================================================================== *)

Module Config.
Import GoStrings.

(** The fields of [config.Config] read by the functions modelled here. *)
Record Config := {
  Channels : Z;
  SAMPLING_RATE : Z;
  SAMPLING_RATE_DEPTH : Z;
  BIT_RATE : Z;
  CODECS : string;
  CONTAINER : string;
  CacheDir : string;
  KeepCache : bool
}.

(** The errors of [Validate], by the field they refuse. *)
Inductive config_error :=
| InvalidChannels
| InvalidSamplingRate
| InvalidDepth
| InvalidBitRate
| InvalidCodecs
| InvalidContainer.

(** The keys of the map literals [allowedCodecs] and [allowedContainers]
    (every value is [true], so a lookup tells whether the key is there). *)
Definition allowedCodecs : list string :=
  [ "opus"; "libopus"; "wavpack"; "aac"; "ac3"; "eac3"; "mp3"; "mp2"; "mp1";
    "flac"; "alac"; "pcm"; "vorbis"; "libvorbis"; "vorb"; "adpcm"; "amr";
    "pcm_f32be"; "pcm_f32le"; "pcm_f64be"; "pcm_f64le"; "pcm_s16be"; "pcm_s16le";
    "pcm_s24be"; "pcm_s24le"; "pcm_s32be"; "pcm_s32le"; "pcm_s64be"; "pcm_s64le";
    "pcm_s8" ].

Definition allowedContainers : list string :=
  [ "wav"; "ac3"; "ac4"; "ogg"; "oga"; "mp3"; "flac"; "eac3"; "aac"; "m4a";
    "mp4"; "opus"; "webm"; "s8"; "s16be"; "s16le"; "s24be"; "s24le"; "s32be";
    "s32le"; "f32be"; "f32le"; "f64be"; "f64le" ].

(** [Validate]; [None] is a nil error. *)
Definition Validate (cfg : Config) : option config_error :=
  if (Channels cfg <? 1) || (8 <? Channels cfg) then Some InvalidChannels
  else if SAMPLING_RATE cfg <=? 0 then Some InvalidSamplingRate
  else if negb ((SAMPLING_RATE_DEPTH cfg =? 8) || (SAMPLING_RATE_DEPTH cfg =? 16)
                || (SAMPLING_RATE_DEPTH cfg =? 24) || (SAMPLING_RATE_DEPTH cfg =? 32))
  then Some InvalidDepth
  else if BIT_RATE cfg <=? 0 then Some InvalidBitRate
  else if negb (one_of (ToLower (CODECS cfg)) allowedCodecs) then Some InvalidCodecs
  else if negb (one_of (ToLower (CONTAINER cfg)) allowedContainers)
  then Some InvalidContainer
  else None.

(** [TempDir]; [cwd] is the answer of [os.Getwd()]. *)
Definition TempDir (cfg : Config) (cwd : string) : string :=
  if negb (String.eqb (CacheDir cfg) "") then CacheDir cfg else cwd.

(** [ContainerExt] *)
Definition ContainerExt (container : string) : string :=
  let c := ToLower container in
  if one_of c ["wav"] then "wav"
  else if one_of c ["ac3"] then "ac3"
  else if one_of c ["ac4"] then "ac4"
  else if one_of c ["ogg"] then "ogg"
  else if one_of c ["oga"] then "oga"
  else if one_of c ["mp3"] then "mp3"
  else if one_of c ["flac"] then "flac"
  else if one_of c ["eac3"] then "eac3"
  else if one_of c ["aac"] then "aac"
  else if one_of c ["m4a"] then "m4a"
  else if one_of c ["mp4"] then "mp4"
  else if one_of c ["opus"] then "opus"
  else if one_of c ["webm"] then "webm"
  else if one_of c ["s8"; "s16be"; "s16le"; "s24be"; "s24le"; "s32be"; "s32le";
                    "f32be"; "f32le"; "f64be"; "f64le"] then c
  else if String.eqb c "" then "ogg" else c.

(** [DefaultConfig()], for the fields above. *)
Definition DefaultConfig : Config :=
  {| Channels := 1; SAMPLING_RATE := 16000; SAMPLING_RATE_DEPTH := 16;
     BIT_RATE := 128; CODECS := "opus"; CONTAINER := "ogg";
     CacheDir := ""; KeepCache := false |}.

End Config.

(* ===================================================================== *)
(** * internal/audio/ffmpeg: [Convert] and [ffmpegCodecFor] *)
(* ===================================================================== *)

Module Ffmpeg.
Import GoStrings Config.

(** [ffmpegCodecFor]: the encoder name and whether it takes a bit rate. *)
Definition ffmpegCodecFor (key : string) : string * bool :=
  let k := ToLower key in
  if one_of k ["opus"; "libopus"] then ("libopus", true)
  else if one_of k ["wavpack"] then ("wavpack", false)
  else if one_of k ["aac"] then ("aac", true)
  else if one_of k ["ac3"] then ("ac3", true)
  else if one_of k ["eac3"] then ("eac3", true)
  else if one_of k ["mp3"] then ("libmp3lame", true)
  else if one_of k ["mp2"] then ("mp2", true)
  else if one_of k ["mp1"] then ("mp1", true)
  else if one_of k ["flac"] then ("flac", false)
  else if one_of k ["alac"] then ("alac", false)
  else if one_of k ["pcm"] then ("pcm_s16le", false)
  else if one_of k ["vorbis"; "libvorbis"; "vorb"] then ("libvorbis", true)
  else if one_of k ["adpcm"] then ("adpcm_ms", false)
  else if one_of k ["amr"] then ("libopencore_amrnb", true)
  else if one_of k ["pcm_f32be"; "pcm_f32le"; "pcm_f64be"; "pcm_f64le";
                    "pcm_s16be"; "pcm_s16le"; "pcm_s24be"; "pcm_s24le";
                    "pcm_s32be"; "pcm_s32le"; "pcm_s64be"; "pcm_s64le"; "pcm_s8"]
  then (k, false)
  else ("", false).

Section Convert.

(** [strconv.Itoa]; [fmt.Sprintf("%dk", n)] is [Itoa n ++ "k"]. *)
Variable Itoa : Z -> string.

(** [switch depth { case 8: ... }]: the arguments the depth adds. *)
Definition sample_fmt_args (depth : Z) : list string :=
  if depth =? 8 then ["-sample_fmt"; "u8"]
  else if depth =? 16 then ["-sample_fmt"; "s16"]
  else if depth =? 24 then ["-sample_fmt"; "s24"]
  else if depth =? 32 then ["-sample_fmt"; "s32"]
  else [].

(** [Convert] up to [exec.Command("ffmpeg", args...)]: the argument list,
    or [None] for the error "unsupported codec". *)
Definition Convert_args (cfg : Config) (inPath outPath : string) (rate : Z)
    : option (list string) :=
  let codecKey := ToLower (CODECS cfg) in
  let channels := if Channels cfg <=? 0 then 1 else Channels cfg in
  let sr := if SAMPLING_RATE cfg <=? 0 then rate else SAMPLING_RATE cfg in
  let bitrate := if BIT_RATE cfg <=? 0 then 128 else BIT_RATE cfg in
  let depth := if SAMPLING_RATE_DEPTH cfg =? 0 then 16 else SAMPLING_RATE_DEPTH cfg in
  let '(ffCodec, codecHasBitrate) := ffmpegCodecFor codecKey in
  if String.eqb ffCodec "" then None
  else
    let args := ["-y"; "-i"; inPath; "-ac"; Itoa channels; "-ar"; Itoa sr] in
    let args :=
      if HasPrefix ffCodec "pcm_" then (args ++ ["-c:a"; ffCodec])%list
      else
        let args := (args ++ ["-c:a"; ffCodec])%list in
        let args :=
          if codecHasBitrate then (args ++ ["-b:a"; (Itoa bitrate ++ "k")%string])%list
          else args in
        (args ++ sample_fmt_args depth)%list in
    Some (args ++ [outPath])%list.

End Convert.

(** [strconv.Itoa] on the numbers of [DefaultConfig]. *)
Definition sample_Itoa (n : Z) : string :=
  if n =? 1 then "1" else if n =? 16000 then "16000" else "128".

End Ffmpeg.

(* ===================================================================== *)
(** * internal/app/app.go: temporary files and the cache *)
(* ===================================================================== *)

Module App.
Import GoStrings Record Config.

(** [os.IsPathSeparator] on Windows: backslash (byte 92) and slash. *)
Definition is_path_separator (c : ascii) : bool :=
  Ascii.eqb c (ascii_of_nat 92) || Ascii.eqb c "/".

(** [filepath.Ext]: the loop runs from the last byte down, [rev_bytes] being
    the bytes still to visit and [suffix] the part of the path behind them;
    it stops at a separator and returns [path[i:]] at a dot. *)
Fixpoint ext_scan (rev_bytes : list ascii) (suffix : string) : string :=
  match rev_bytes with
  | [] => ""
  | c :: more =>
      if is_path_separator c then ""
      else if Ascii.eqb c "." then String c suffix
      else ext_scan more (String c suffix)
  end.

Definition Ext (path : string) : string :=
  ext_scan (rev (list_ascii_of_string path)) "".

(** [strings.HasSuffix], [strings.TrimSuffix] *)
Definition HasSuffix (s suffix : string) : bool :=
  (String.length suffix <=? String.length s)%nat
  && String.eqb (drop_bytes (String.length s - String.length suffix) s) suffix.

Definition TrimSuffix (s suffix : string) : string :=
  if HasSuffix s suffix
  then take_bytes (String.length s - String.length suffix) s else s.

(** An extension token: no dot and no path separator in it. *)
Definition plain (e : string) : Prop :=
  Forall (fun c => is_path_separator c = false /\ Ascii.eqb c "." = false)
         (list_ascii_of_string e).

(** The separator [filepath.Join] puts between directory and name. *)
Definition separator : ascii := ascii_of_nat 92.

(** [outPath] of the handler of [RunRecordMode]. *)
Definition outPath_of (wavPath container : string) : string :=
  TrimSuffix wavPath (Ext wavPath) ++ "." ++ ContainerExt container.

(** [tempOutputPath]; [id] and [cwd] as for [generateTempWav]. *)
Definition tempOutputPath (dir ext id cwd : string) : string :=
  let base := "RecordTemp_" ++ id ++ "." ++ ext in
  let dir := if String.eqb dir "" then cwd else dir in
  filepath_Join dir base.

Section Files.

(** The files on disk are a set of paths.  Whether the system lets a file
    be removed, renamed or written is outside the program: [removable],
    [renames] and [writes] are its answers. *)
Variable removable : string -> bool.
Variable renames : string -> string -> bool.
Variable writes : string -> bool.

(** [time.Now().Format("2006-01-02-15.04.05")] *)
Variable timestamp : string.

Definition os_Remove (path : string) (fs : gset string) : gset string :=
  if removable path then fs ∖ {[path]} else fs.

(** [os.Rename]; [None] is a non-nil error. *)
Definition os_Rename (old new : string) (fs : gset string) : option (gset string) :=
  if renames old new && bool_decide (old ∈ fs)
  then Some ((fs ∖ {[old]}) ∪ {[new]}) else None.

Definition os_WriteFile (path : string) (fs : gset string) : gset string :=
  if writes path then fs ∪ {[path]} else fs.

(** [cleanupOldTempFiles]; [entries] are the names [os.ReadDir(dir)]
    returns, [None] when it fails. *)
Definition cleanupOldTempFiles (dir : string) (entries : option (list string))
    (fs : gset string) : gset string :=
  match entries with
  | None => fs
  | Some es =>
      fold_left (fun fs name =>
                   if HasPrefix name "RecordTemp_"
                   then os_Remove (filepath_Join dir name) fs
                   else fs) es fs
  end.

(** The move of one file into the cache directory, in [handleCache]. *)
Definition cache_file (cfg : Config) (base path : string) (fs : gset string)
    : gset string :=
  if negb (String.eqb path "") then
    let new := filepath_Join (CacheDir cfg) (base ++ Ext path) in
    match os_Rename path new fs with
    | Some fs' => fs'
    | None => os_Remove path fs
    end
  else fs.

(** [handleCache] *)
Definition handleCache (cfg : Config) (wavPath outPath : string) (uploadOk : bool)
    (resBody : string) (fs : gset string) : gset string :=
  if KeepCache cfg && negb (String.eqb (CacheDir cfg) "") then
    let base := "audio-" ++ timestamp in
    let fs := cache_file cfg base wavPath fs in
    let fs := cache_file cfg base outPath fs in
    if uploadOk && (0 <? len resBody)
    then os_WriteFile (filepath_Join (CacheDir cfg) (base ++ ".json")) fs
    else fs
  else
    let fs := if negb (String.eqb wavPath "") then os_Remove wavPath fs else fs in
    if negb (String.eqb outPath "") then os_Remove outPath fs else fs.

(** The handler of [RunRecordMode] after [Stop] returned a recording: the
    files on disk when it is through.  [converted] is the outcome of
    [ffmpeg.Convert], which leaves an output file when it succeeds and may
    leave one ([partial]) when it fails; [uploadOk] and [raw] are what
    [Transcribe] gives.  Pasting and notifications touch no file. *)
Definition after_recording (cfg : Config) (wavPath : string)
    (converted partial uploadOk : bool) (raw : string) (fs : gset string)
    : gset string :=
  let outPath := outPath_of wavPath (CONTAINER cfg) in
  if negb converted then
    os_Remove outPath (os_Remove wavPath (if partial then fs ∪ {[outPath]} else fs))
  else handleCache cfg wavPath outPath uploadOk raw (fs ∪ {[outPath]}).

End Files.

(** A system that refuses nothing, and a configuration that keeps the files
    in the directory [cache]. *)
Definition willing (path : string) : bool := true.
Definition willing2 (old new : string) : bool := true.

Definition caching_config : Config :=
  {| Channels := 1; SAMPLING_RATE := 16000; SAMPLING_RATE_DEPTH := 16;
     BIT_RATE := 128; CODECS := "opus"; CONTAINER := "ogg";
     CacheDir := "cache"; KeepCache := true |}.

End App.

(* ===================================================================== *)
(** * The end of a session, for the statements *)
(* ===================================================================== *)

Module RecordProgress.
Import Record RecordInv.

(** The steps a worker still takes at most once [Stop] or [Cancel] has set
    the state and cancelled the context. *)
Definition rank (p : pc) : nat :=
  match p with
  | AtInitialize => 14
  | AtOpen => 13
  | AtStreamStart => 12
  | AtCreate => 11
  | AtRead => 12
  | AtWrite => 11
  | AtLoopCanceled => 10
  | AtLoopPaused => 9
  | AtLoopCtx => 8
  | AtDone => 7
  | AtEncClose => 6
  | AtRemove _ => 5
  | AtFinish _ => 4
  | AtSend _ => 3
  | Sending _ _ => 2
  | AtReturn _ => 1
  | Exited _ => 0
  end.

(** Worker [k] of a session that was asked to end: the context is
    cancelled, the state is the one [Stop] or [Cancel] set until [finish]
    resets it, the recorder still names the channel of the session, and the
    channel is empty until the result is in it. *)
Definition ending (k : nat) (s : sys) (w : worker) : Prop :=
  workers s !! k = Some w /\ done (rec s) = Some k /\ stopCtx (rec s) = Some k /\
  ctxs s !! k = Some true /\
  match w_pc w with
  | Exited res | AtReturn res =>
      chans s !! k = Some (Some res) /\ state (rec s) = StateIdle
  | Sending d res =>
      d = Some k /\ chans s !! k = Some None /\ state (rec s) = StateIdle
  | AtSend res => chans s !! k = Some None /\ state (rec s) = StateIdle
  | _ => chans s !! k = Some None /\
         (state (rec s) = StateStopping \/ state (rec s) = StateCanceled)
  end.

(** The steps of worker [i] alone, with the outcomes [oks] of its calls. *)
Definition worker_steps (i : nat) (oks : list bool) : list label :=
  map (L_Worker i) oks.

(** Start, one buffer, then the pause key. *)
Definition paused_after_one_buffer : list label :=
  ([ L_Start sample_id ""; L_Worker 0 true; L_Worker 0 true; L_Worker 0 true;
     L_Worker 0 true ] ++ one_buffer ++ [ L_TogglePause ])%list.

(** Start, one buffer, then [Stop] and the [cancel()] of its caller. *)
Definition stop_requested_after_one_buffer : list label :=
  ([ L_Start sample_id ""; L_Worker 0 true; L_Worker 0 true; L_Worker 0 true;
     L_Worker 0 true ] ++ one_buffer ++ [ L_Stop; L_Caller 0 ])%list.

End RecordProgress.

(* ===================================================================== *)
(** * Facts about [parseHotkey] *)
(* ===================================================================== *)

Module HotkeyFacts.
Import GoStrings Hotkey.

(** ** Bytes and list membership *)

Lemma one_of_In (s : string) (l : list string) :
  one_of s l = true <-> In s l.
Proof.
  unfold one_of. rewrite existsb_exists. split.
  - intros (x & Hx & He). apply String.eqb_eq in He. now subst.
  - intros H. exists s. split; [exact H | apply String.eqb_refl].
Qed.

Lemma one_of_false_not_In (s : string) (l : list string) :
  one_of s l = false <-> ~ In s l.
Proof.
  rewrite <- one_of_In. destruct (one_of s l); split; congruence.
Qed.

Lemma digit_val_inv (c : ascii) (d : Z) :
  digit_val c = Some d -> 0 <= d <= 9 /\ c = byte_to_ascii (d + 48).
Proof.
  destruct c as [[] [] [] [] [] [] [] []]; vm_compute; intros H;
    try discriminate H.
  all: injection H as <-.
  all: split; [split; discriminate | reflexivity].
Qed.

Lemma digits_val_ge (s : string) : forall acc n,
  0 <= acc -> digits_val acc s = Some n -> acc <= n.
Proof.
  induction s as [|c r IH]; simpl; intros acc n Hacc H.
  - injection H as <-. lia.
  - destruct (digit_val c) as [d|] eqn:Hd; [|discriminate].
    apply digit_val_inv in Hd as [Hd _].
    apply IH in H; lia.
Qed.

Lemma digits_val_all_digits (s : string) : forall acc n,
  digits_val acc s = Some n -> all_digits s = true.
Proof.
  induction s as [|c r IH]; simpl; intros acc n H; [reflexivity|].
  unfold digit_val in H.
  destruct ((48 <=? byte_of c) && (byte_of c <=? 57)); [|discriminate].
  simpl. eauto.
Qed.

Lemma strip_zeros_cons (c : ascii) (r : string) :
  strip_zeros (String c r) =
  if Ascii.eqb c "0" then strip_zeros r else String c r.
Proof. destruct c as [[] [] [] [] [] [] [] []]; reflexivity. Qed.

Lemma digits_val_strip (s : string) :
  digits_val 0 (strip_zeros s) = digits_val 0 s.
Proof.
  induction s as [|c r IH]; [reflexivity|].
  rewrite strip_zeros_cons.
  destruct (Ascii.eqb_spec c "0") as [->|]; [|reflexivity].
  exact IH.
Qed.

(** ** Decimal numerals of 1 .. 24 *)

Lemma small_digit_cases (d : Z) :
  0 <= d <= 9 ->
  d = 0 \/ d = 1 \/ d = 2 \/ d = 3 \/ d = 4 \/ d = 5 \/ d = 6 \/ d = 7 \/ d = 8 \/ d = 9.
Proof. lia. Qed.

Lemma digits_val_small (s : string) : forall n,
  digits_val 0 s = Some n -> 1 <= n <= 24 ->
  one_of (strip_zeros s) decimal_1_24 = true.
Proof.
  induction s as [|c r IH]; intros n H Hn.
  - simpl in H. injection H as <-. lia.
  - rewrite strip_zeros_cons. simpl in H.
    destruct (digit_val c) as [d|] eqn:Hd; [|discriminate].
    apply digit_val_inv in Hd as [Hd ->].
    destruct (Z.eq_dec d 0) as [->|Hd0].
    { simpl. eauto. }
    replace (Ascii.eqb (byte_to_ascii (d + 48)) "0") with false
      by (destruct (small_digit_cases d Hd) as [?|[?|[?|[?|[?|[?|[?|[?|[?|?]]]]]]]]];
          subst; first [lia | reflexivity]).
    destruct r as [|c2 r2]; simpl in H.
    { injection H as <-.
      destruct (small_digit_cases d Hd) as [?|[?|[?|[?|[?|[?|[?|[?|[?|?]]]]]]]]];
        subst; first [lia | reflexivity]. }
    destruct (digit_val c2) as [d2|] eqn:Hd2; [|discriminate].
    apply digit_val_inv in Hd2 as [Hd2 ->].
    destruct r2 as [|c3 r3]; simpl in H.
    { injection H as <-.
      assert (d = 1 \/ d = 2) as [-> | ->] by lia;
        destruct (small_digit_cases d2 Hd2) as [?|[?|[?|[?|[?|[?|[?|[?|[?|?]]]]]]]]];
        subst; first [lia | reflexivity]. }
    destruct (digit_val c3) as [d3|] eqn:Hd3; [|discriminate].
    apply digit_val_inv in Hd3 as [Hd3 _].
    apply digits_val_ge in H; lia.
Qed.

Lemma decimal_1_24_value (t : string) :
  In t decimal_1_24 ->
  exists n, digits_val 0 t = Some n /\ 1 <= n <= 24 /\ all_digits t = true /\ t <> "".
Proof.
  unfold decimal_1_24. simpl.
  intros H. repeat (destruct H as [<- | H]; [eexists; vm_compute; repeat split; congruence|]).
  contradiction.
Qed.

(** ** [strconv.Atoi] and the function keys *)

Lemma Atoi_minus (r : string) (v : Z) :
  Atoi (String "-" r) = Some v -> v <= 0.
Proof.
  unfold Atoi. destruct r as [|c r']; [discriminate|].
  destruct (digits_val 0 (String c r')) as [n|] eqn:Hn; [|discriminate].
  apply digits_val_ge in Hn; [|lia].
  destruct (_ && _); [|discriminate]. intros H. injection H as <-. lia.
Qed.

Lemma Atoi_unsigned (c : ascii) (r : string) :
  c <> "-"%char -> c <> "+"%char ->
  Atoi (String c r) =
  match digits_val 0 (String c r) with
  | Some n => if (int_min <=? n) && (n <=? int_max) then Some n else None
  | None => None
  end.
Proof.
  intros Hm Hp.
  destruct c as [[] [] [] [] [] [] [] []]; try congruence; reflexivity.
Qed.

Lemma HasPrefix_f (c : ascii) (r : string) :
  HasPrefix (String c r) "f" = Ascii.eqb c "f".
Proof.
  unfold HasPrefix. simpl.
  destruct c as [[] [] [] [] [] [] [] []]; destruct r; reflexivity.
Qed.

Lemma function_key_cons (c : ascii) (r : string) :
  function_key (String c r) =
  if Ascii.eqb c "f" then
    match Atoi r with
    | Some n => if (1 <=? n) && (n <=? 24) then Some (0x70 + (n - 1)) else None
    | None => None
    end
  else None.
Proof.
  unfold function_key, TrimPrefix. rewrite HasPrefix_f.
  destruct (Ascii.eqb c "f"); reflexivity.
Qed.

Lemma padded_function_key_cons (c : ascii) (r : string) :
  padded_function_key (String c r) =
  Ascii.eqb c "f" && (all_digits r && one_of (strip_zeros r) decimal_1_24).
Proof. destruct c as [[] [] [] [] [] [] [] []]; reflexivity. Qed.

Lemma function_key_padded (tok : string) :
  free_of "+" tok = true ->
  (is_Some (function_key tok) <-> padded_function_key tok = true).
Proof.
  intros Hfree. destruct tok as [|c r].
  { split; [intros [? H]; discriminate H | discriminate]. }
  rewrite function_key_cons, padded_function_key_cons.
  destruct (Ascii.eqb c "f"); cbn [andb];
    [| split; [intros [? H]; discriminate H | discriminate]].
  simpl in Hfree. apply andb_prop in Hfree as [_ Hfree].
  split.
  - intros [v Hv].
    destruct (Atoi r) as [n|] eqn:Hn; [|discriminate].
    destruct ((1 <=? n) && (n <=? 24)) eqn:Hrange; [|discriminate].
    assert (1 <= n <= 24) as Hn124 by lia.
    destruct r as [|d r']; [discriminate|].
    destruct (Ascii.eqb_spec d "-") as [->|Hm].
    { apply Atoi_minus in Hn. lia. }
    destruct (Ascii.eqb_spec d "+") as [->|Hp].
    { simpl in Hfree. discriminate. }
    rewrite Atoi_unsigned in Hn by assumption.
    destruct (digits_val 0 (String d r')) as [m|] eqn:Hm'; [|discriminate].
    destruct (_ && _) in Hn; [|discriminate]. injection Hn as ->.
    apply andb_true_intro. split.
    + exact (digits_val_all_digits _ _ _ Hm').
    + exact (digits_val_small _ _ Hm' Hn124).
  - intros H. apply andb_prop in H as [Hall Hin].
    apply one_of_In, decimal_1_24_value in Hin as (n & Hn & Hrange & _ & Hne).
    rewrite digits_val_strip in Hn.
    destruct r as [|d r']; [now elim Hne|].
    assert (d <> "-"%char /\ d <> "+"%char) as [Hm Hp].
    { simpl in Hall. split; intros ->; discriminate. }
    rewrite Atoi_unsigned, Hn by assumption.
    replace ((int_min <=? n) && (n <=? int_max)) with true
      by (unfold int_min, int_max; lia).
    replace ((1 <=? n) && (n <=? 24)) with true by lia.
    eauto.
Qed.

(** ** The stages of [key_code] *)

Lemma named_lookup_In (tbl : list (string * Z)) (k : string) :
  is_Some (named_lookup tbl k) <-> In k (map fst tbl).
Proof.
  induction tbl as [|[k' v] r IH]; simpl.
  - split; [intros [? H]; discriminate H | contradiction].
  - destruct (String.eqb_spec k k') as [->|Hne].
    + split; eauto.
    + rewrite IH. split; [auto | intros [Heq | H]; [congruence | exact H]].
Qed.

Ltac switch_label H :=
  repeat (
    let E := fresh "E" in
    destruct (one_of _ _) eqn:E in H;
    [ apply one_of_In in E; apply one_of_In; simpl in E |- *; tauto
    | clear E ]);
  discriminate H.

Lemma alnum_key_token (tok : string) :
  is_Some (alnum_key tok) -> is_letter_token tok || is_digit_token tok = true.
Proof.
  intros [v H]. destruct tok as [|c [|]]; try discriminate H.
  simpl in *.
  destruct ((97 <=? byte_of c) && (byte_of c <=? 122)); [reflexivity|].
  destruct ((48 <=? byte_of c) && (byte_of c <=? 57)); [reflexivity|discriminate].
Qed.

Lemma basic_key_named (tok : string) :
  is_Some (basic_key tok) -> one_of tok named_key_names = true.
Proof. intros [v H]. unfold basic_key in H. switch_label H. Qed.

Lemma numpad_key_named (tok : string) :
  is_Some (numpad_key tok) -> one_of tok numpad_key_names = true.
Proof. intros [v H]. unfold numpad_key in H. switch_label H. Qed.

Lemma named_lookup_named (tok : string) :
  is_Some (named_lookup named tok) -> one_of tok named_key_names = true.
Proof.
  rewrite named_lookup_In, one_of_In. simpl. tauto.
Qed.

Lemma single_byte_key_token (tok : string) :
  is_Some (single_byte_key tok) -> is_single_byte tok = true.
Proof.
  intros [v H]. destruct tok as [|c [|]]; try reflexivity; discriminate H.
Qed.

Lemma key_code_stage (tok : string) :
  is_Some (key_code tok) ->
  is_Some (alnum_key tok) \/ is_Some (basic_key tok) \/
  is_Some (function_key tok) \/ is_Some (numpad_key tok) \/
  is_Some (named_lookup named tok) \/ is_Some (single_byte_key tok).
Proof.
  unfold key_code.
  destruct (alnum_key tok); [eauto|].
  destruct (basic_key tok); [eauto|].
  destruct (function_key tok); [eauto 6|].
  destruct (numpad_key tok); [eauto 6|].
  destruct (named_lookup named tok); [eauto 7|].
  eauto 8.
Qed.

Lemma key_code_function_key (tok : string) :
  is_Some (function_key tok) -> is_Some (key_code tok).
Proof.
  intros [v H]. unfold key_code.
  destruct (alnum_key tok); [eauto|].
  destruct (basic_key tok); [eauto|].
  rewrite H. eauto.
Qed.

(** Every one-byte token resolves: letters and digits in the first test, any
    other byte in the closing one. *)
Lemma key_code_single_byte (c : ascii) :
  is_Some (key_code (String c "")).
Proof.
  destruct c as [[] [] [] [] [] [] [] []]; vm_compute; eauto.
Qed.

Lemma key_code_listed (tok : string) :
  In tok (function_key_names ++ named_key_names ++ numpad_key_names) ->
  is_Some (key_code tok).
Proof.
  unfold function_key_names, decimal_1_24, named_key_names, numpad_key_names.
  simpl. intros H.
  repeat (destruct H as [<- | H]; [vm_compute; eauto |]).
  contradiction.
Qed.

(** The tokens [key_code] resolves, for a token cut out by [Split "+"]. *)
Lemma key_code_accepted (tok : string) :
  free_of "+" tok = true ->
  (is_Some (key_code tok) <-> accepted_token tok = true).
Proof.
  intros Hfree. unfold accepted_token, names_known_key. split.
  - intros H. apply key_code_stage in H as [H|[H|[H|[H|[H|H]]]]].
    + apply alnum_key_token in H. rewrite H. reflexivity.
    + apply basic_key_named in H. rewrite H. rewrite !orb_true_r. reflexivity.
    + apply function_key_padded in H; [|exact Hfree]. rewrite H.
      apply orb_true_r.
    + apply numpad_key_named in H. rewrite H. rewrite !orb_true_r. reflexivity.
    + apply named_lookup_named in H. rewrite H. rewrite !orb_true_r. reflexivity.
    + apply single_byte_key_token in H. rewrite H. rewrite !orb_true_r. reflexivity.
  - intros H. rewrite !orb_true_iff in H.
    destruct H as [[[[[[H|H]|H]|H]|H]|H]|H].
    + destruct tok as [|c [|]]; try discriminate H. apply key_code_single_byte.
    + destruct tok as [|c [|]]; try discriminate H. apply key_code_single_byte.
    + apply key_code_listed. rewrite one_of_In in H. rewrite !in_app_iff. tauto.
    + apply key_code_listed. rewrite one_of_In in H. rewrite !in_app_iff. tauto.
    + apply key_code_listed. rewrite one_of_In in H. rewrite !in_app_iff. tauto.
    + destruct tok as [|c [|]]; try discriminate H. apply key_code_single_byte.
    + apply key_code_function_key, function_key_padded; assumption.
Qed.

(** ** Fields of [Split] *)

Lemma Split_nonempty (sep : ascii) (s : string) : Split sep s <> [].
Proof.
  destruct s as [|c r]; simpl; [discriminate|].
  destruct (Ascii.eqb c sep); [discriminate|].
  destruct (Split sep r); discriminate.
Qed.

Lemma Split_free (sep : ascii) (s : string) :
  Forall (fun t => free_of sep t = true) (Split sep s).
Proof.
  induction s as [|c r IH]; simpl.
  - repeat constructor.
  - destruct (Ascii.eqb c sep) eqn:Hc.
    + constructor; [reflexivity | exact IH].
    + destruct (Split sep r) as [|t ts]; [repeat constructor; simpl; now rewrite Hc|].
      inversion IH as [|? ? Ht Hts]; subst.
      constructor; [simpl; now rewrite Hc, Ht | exact Hts].
Qed.

Lemma Split_free_single (sep : ascii) (t : string) :
  free_of sep t = true -> Split sep t = [t].
Proof.
  induction t as [|c r IH]; simpl; [reflexivity|].
  intros H. apply andb_prop in H as [Hc Hr].
  apply negb_true_iff in Hc. rewrite Hc, (IH Hr). reflexivity.
Qed.

Lemma Split_app_sep (sep : ascii) (t rest : string) :
  free_of sep t = true ->
  Split sep (t ++ String sep rest) = t :: Split sep rest.
Proof.
  induction t as [|c r IH]; simpl.
  - now rewrite Ascii.eqb_refl.
  - intros H. apply andb_prop in H as [Hc Hr].
    apply negb_true_iff in Hc. rewrite Hc, (IH Hr). reflexivity.
Qed.

Lemma Split_Join (sep : ascii) (l : list string) :
  l <> [] -> Forall (fun t => free_of sep t = true) l ->
  Split sep (Join sep l) = l.
Proof.
  induction l as [|t [|t2 r] IH]; intros Hne Hall.
  - congruence.
  - inversion Hall; subst. now apply Split_free_single.
  - inversion Hall as [|? ? Ht Hr]; subst.
    change (Join sep (t :: t2 :: r)) with (t ++ String sep (Join sep (t2 :: r))).
    rewrite Split_app_sep by exact Ht.
    rewrite IH; [reflexivity | discriminate | exact Hr].
Qed.

Lemma lower_byte_plus (c : ascii) :
  Ascii.eqb (lower_byte c) "+" = Ascii.eqb c "+".
Proof. destruct c as [[] [] [] [] [] [] [] []]; reflexivity. Qed.

Lemma ToLower_free (t : string) :
  free_of "+" (ToLower t) = free_of "+" t.
Proof.
  unfold ToLower. induction t as [|c r IH]; simpl; [reflexivity|].
  now rewrite lower_byte_plus, IH.
Qed.

Lemma trim_left_free (c : ascii) (t : string) :
  free_of c t = true -> free_of c (trim_left t) = true.
Proof.
  induction t as [|d r IH]; simpl; [reflexivity|].
  intros H. destruct (is_space d); [|exact H].
  apply andb_prop in H as [_ H]. now apply IH.
Qed.

Lemma trim_right_free (c : ascii) (t : string) :
  free_of c t = true -> free_of c (trim_right t) = true.
Proof.
  induction t as [|d r IH]; simpl; [reflexivity|].
  intros H. apply andb_prop in H as [Hd Hr]. specialize (IH Hr).
  destruct (trim_right r) as [|e r'].
  - destruct (is_space d); simpl; [reflexivity | now rewrite Hd].
  - change (free_of c (String d (String e r')) = true).
    simpl in IH |- *. now rewrite Hd, IH.
Qed.

Lemma normalise_free (t : string) :
  free_of "+" t = true -> free_of "+" (normalise t) = true.
Proof.
  intros H. unfold normalise, TrimSpace.
  apply trim_right_free, trim_left_free. now rewrite ToLower_free.
Qed.

Lemma last_Forall {A} (P : A -> Prop) (l : list A) (d : A) :
  l <> [] -> Forall P l -> P (List.last l d).
Proof.
  induction l as [|x [|y r] IH]; intros Hne Hall.
  - congruence.
  - now inversion Hall.
  - inversion Hall; subst. apply IH; [discriminate | assumption].
Qed.

Lemma final_token_free (s : string) :
  free_of "+" (final_token s) = true.
Proof.
  unfold final_token.
  apply (last_Forall (fun t => free_of "+" t = true)).
  - intros H. apply map_eq_nil in H. now apply Split_nonempty in H.
  - apply List.Forall_forall. intros t Ht.
    apply List.in_map_iff in Ht as (t0 & <- & Hin).
    apply normalise_free.
    pose proof (Split_free "+" s) as HF.
    rewrite List.Forall_forall in HF. now apply HF.
Qed.

(** ** [parseHotkey] in terms of its key token *)

Lemma parts_mod_key (parts : list string) :
  match parts with
  | [p] => (0, p)
  | _ => (modifier_loop (removelast parts), List.last parts "")
  end = (modifier_loop (removelast parts), List.last parts "").
Proof. destruct parts as [|? [|]]; reflexivity. Qed.

Lemma parseHotkey_nonempty (s : string) :
  s <> "" ->
  parseHotkey s =
  match key_code (final_token s) with
  | Some vk => (modifier_loop (removelast (map normalise (Split "+" s))), vk, None)
  | None => (0, 0, Some ("unsupported key token: " ++ s))
  end.
Proof.
  intros Hne. unfold parseHotkey, final_token.
  destruct (String.eqb_spec s ""); [contradiction|].
  now rewrite parts_mod_key.
Qed.

Lemma parseHotkey_key_token (s : string) :
  succeeds (parseHotkey s) = true <-> is_Some (key_code (final_token s)).
Proof.
  destruct (String.eqb_spec s "") as [->|Hne].
  { simpl. split; [discriminate | intros [? H]; discriminate H]. }
  rewrite parseHotkey_nonempty by exact Hne.
  destruct (key_code (final_token s)) as [vk|]; simpl.
  - split; eauto.
  - split; [discriminate | intros [? H]; discriminate H].
Qed.

Lemma parseHotkey_fields (ms : list string) (key : string) :
  Forall (fun t => free_of "+" t = true) (ms ++ [key]) ->
  hotkey_value (parseHotkey (Join "+" (ms ++ [key]))) =
  option_map (fun vk => (modifier_loop (map normalise ms), vk))
             (key_code (normalise key)).
Proof.
  intros Hall.
  destruct (String.eqb_spec (Join "+" (ms ++ [key])) "") as [He|Hne].
  - destruct ms as [|m [|m2 r]].
    + simpl in He. subst key. reflexivity.
    + simpl in He. destruct m; discriminate He.
    + simpl in He. destruct m; discriminate He.
  - rewrite parseHotkey_nonempty by exact Hne. unfold final_token.
    rewrite Split_Join; [| now destruct ms | exact Hall].
    rewrite List.map_app. cbn [map].
    rewrite removelast_last, last_last.
    destruct (key_code (normalise key)); reflexivity.
Qed.

Lemma modifier_bit_unrecognised (p : string) :
  recognised_modifier p = false -> modifier_bit p = 0.
Proof.
  unfold recognised_modifier, modifier_bit. intros H.
  rewrite one_of_false_not_In in H.
  repeat (
    let E := fresh "E" in
    destruct (one_of p _) eqn:E;
    [ apply one_of_In in E; exfalso; apply H; simpl in E |- *; tauto | clear E ]).
  reflexivity.
Qed.

Lemma modifier_loop_skip (pre post : list string) (p : string) :
  modifier_bit p = 0 ->
  modifier_loop (pre ++ p :: post) = modifier_loop (pre ++ post).
Proof.
  intros Hp. unfold modifier_loop.
  rewrite !fold_left_app. simpl. now rewrite Hp, Z.lor_0_r.
Qed.

(** The inputs named in the comment of [parseHotkey], and a few around
    them. *)
Example parseHotkey_examples :
  parseHotkey "ctrl+shift+F1" = (Z.lor MOD_CONTROL MOD_SHIFT, 0x70, None) /\
  parseHotkey "esc" = (0, 0x1B, None) /\
  parseHotkey " Ctrl + Alt + Delete " = (Z.lor MOD_ALT MOD_CONTROL, 0x2E, None) /\
  parseHotkey "win+f24" = (MOD_WIN, 0x87, None) /\
  parseHotkey "shift+7" = (MOD_SHIFT, byte_of "7", None) /\
  parseHotkey "alt+kpadd" = (MOD_ALT, VK_ADD, None) /\
  succeeds (parseHotkey "f25") = false /\
  succeeds (parseHotkey "f0") = false /\
  succeeds (parseHotkey "f-1") = false /\
  succeeds (parseHotkey "ctrl+") = false /\
  succeeds (parseHotkey "ctrl+numpad") = false.
Proof. repeat split; vm_compute; reflexivity. Qed.

(** C5. The four parser scenarios: ["alt+q"] gives the mask [{Alt}] and the
    key code of ['Q']; ["ctrl+numpad1"] gives [{Ctrl}] and [VK_NUMPAD1 = 0x61];
    the empty string and ["numpad+"] both fail with an error. *)
Theorem parseHotkey_scenarios :
  parseHotkey "alt+q" = (MOD_ALT, byte_of "Q", None) /\
  parseHotkey "ctrl+numpad1" = (MOD_CONTROL, VK_NUMPAD1, None) /\
  VK_NUMPAD1 = 0x61 /\
  parseHotkey "" = (0, 0, Some "empty key") /\
  parseHotkey "numpad+" = (0, 0, Some "unsupported key token: numpad+").
Proof. repeat split; vm_compute; reflexivity. Qed.

(** C6, as stated, fails at [";"]: the token is one character that is no
    letter and no digit, and names none of the keys the specification lists,
    yet [parseHotkey] returns its byte as the key code with a nil error. *)
Lemma parseHotkey_semicolon_accepted :
  names_known_key (final_token ";") = false /\
  succeeds (parseHotkey ";") = true /\
  parseHotkey ";" = (0, byte_of ";", None).
Proof. repeat split; vm_compute; reflexivity. Qed.

(** The key code of a one-byte token is its upper-cased byte. *)
Lemma key_code_one_byte (c : ascii) :
  key_code (String c "") = Some (byte_of (upper_byte c)).
Proof. destruct c as [[] [] [] [] [] [] [] []]; vm_compute; reflexivity. Qed.

(** C6 (amended). For a spec made of ASCII characters, [parseHotkey]
    succeeds if and only if the final token of the ['+']-separated input,
    trimmed and lower-cased, is a known key (single letter, digit, [f1] ..
    [f24], named key, numeric-pad key or operator alias), or is any single
    character, whose upper-cased byte is then the key code, or is [f]
    followed by a numeral of value 1 .. 24 written with leading zeros; for
    every other final token the call returns [(0, 0, err)] with a non-nil
    error. *)
Theorem parseHotkey_accepts (s : string) :
  is_ascii s = true ->
  (succeeds (parseHotkey s) = true <-> accepted_token (final_token s) = true) /\
  (accepted_token (final_token s) = false ->
   exists msg, parseHotkey s = (0, 0, Some msg)) /\
  (forall c, final_token s = String c "" ->
   exists m, parseHotkey s = (m, byte_of (upper_byte c), None)).
Proof.
  intros _.
  pose proof (key_code_accepted (final_token s) (final_token_free s)) as Hk.
  split; [|split].
  - rewrite parseHotkey_key_token. exact Hk.
  - intros Hrej.
    destruct (String.eqb_spec s "") as [->|Hne]; [vm_compute; eauto|].
    rewrite parseHotkey_nonempty by exact Hne.
    destruct (key_code (final_token s)) as [vk|]; [|eauto].
    assert (accepted_token (final_token s) = true) by (apply Hk; eauto).
    congruence.
  - intros c Hc.
    destruct (String.eqb_spec s "") as [->|Hne]; [discriminate Hc|].
    rewrite parseHotkey_nonempty by exact Hne.
    rewrite Hc, key_code_one_byte. eauto.
Qed.

(** An instance: a modifier, blanks, and a one-character key. *)
Lemma parseHotkey_accepts_witness :
  is_ascii "Ctrl + ;" = true /\
  (succeeds (parseHotkey "Ctrl + ;") = true <->
   accepted_token (final_token "Ctrl + ;") = true) /\
  (accepted_token (final_token "Ctrl + ;") = false ->
   exists msg, parseHotkey "Ctrl + ;" = (0, 0, Some msg)) /\
  (forall c, final_token "Ctrl + ;" = String c "" ->
   exists m, parseHotkey "Ctrl + ;" = (m, byte_of (upper_byte c), None)).
Proof.
  split; [reflexivity | apply (parseHotkey_accepts "Ctrl + ;"); reflexivity].
Defined.

(** [parseHotkey] is [parseHotkey_of] at the functions of [GoStrings], which
    never panics: the upper case of one byte is one byte. *)
Lemma key_code_of_bytes (tok : string) :
  key_code_of ToUpper tok
  = match key_code tok with Some vk => KeyCode vk | None => NoKey end.
Proof.
  unfold key_code_of, key_code, listed_key, single_byte_key.
  destruct (alnum_key tok); [reflexivity|].
  destruct (basic_key tok); [reflexivity|].
  destruct (function_key tok); [reflexivity|].
  destruct (numpad_key tok); [reflexivity|].
  destruct (named_lookup named tok); [reflexivity|].
  destruct tok as [|c [|d r]]; reflexivity.
Qed.

Lemma parseHotkey_of_bytes (s : string) :
  parseHotkey_of ToLower ToUpper TrimSpace s = Returns (parseHotkey s).
Proof.
  unfold parseHotkey_of, parseHotkey.
  destruct (String.eqb s ""); [reflexivity|].
  change (normalise_of ToLower TrimSpace) with normalise.
  destruct (match map normalise (Split "+" s) with
            | [p] => (0, p)
            | _ => (modifier_loop (removelast (map normalise (Split "+" s))),
                    List.last (map normalise (Split "+" s)) "")
            end) as [m tok].
  rewrite key_code_of_bytes. destruct (key_code tok); reflexivity.
Qed.

Section Unicode.

Variable strings_ToLower : string -> string.
Variable strings_ToUpper : string -> string.
Variable strings_TrimSpace : string -> string.

(** The call on a spec given by its fields: the mask of the fields before
    the last, the key of the last. *)
Lemma parseHotkey_of_fields (ms : list string) (key : string) :
  Forall (fun t => free_of "+" t = true) (ms ++ [key]) ->
  Join "+" (ms ++ [key]) <> "" ->
  ended_value
    (parseHotkey_of strings_ToLower strings_ToUpper strings_TrimSpace
       (Join "+" (ms ++ [key]))) =
  answer_for
    (modifier_loop (map (normalise_of strings_ToLower strings_TrimSpace) ms))
    (key_code_of strings_ToUpper (normalise_of strings_ToLower strings_TrimSpace key)).
Proof.
  intros Hall Hne. unfold parseHotkey_of.
  destruct (String.eqb_spec (Join "+" (ms ++ [key])) "") as [He|_]; [contradiction|].
  rewrite Split_Join; [| now destruct ms | exact Hall].
  rewrite parts_mod_key, List.map_app. cbn [map].
  rewrite removelast_last, last_last.
  destruct (key_code_of strings_ToUpper _); reflexivity.
Qed.

Lemma Join_two_nonempty (t : string) (l : list string) :
  l <> [] -> Join "+" (t :: l) <> "".
Proof.
  destruct l as [|t2 r]; [congruence|]. intros _.
  change (Join "+" (t :: t2 :: r)) with (t ++ String "+" (Join "+" (t2 :: r))).
  destruct t; discriminate.
Qed.

Lemma Join_nonempty (l : list string) :
  l <> [] -> l <> [""] -> Join "+" l <> "".
Proof.
  destruct l as [|t [|t2 r]]; intros H1 H2.
  - congruence.
  - simpl. intros ->. congruence.
  - apply Join_two_nonempty. discriminate.
Qed.

(** C9. A non-final token that, trimmed and lower-cased, is none of the
    recognised modifier names adds no bit to the mask and raises no error:
    for every input with such a token, whatever [strings.ToLower],
    [strings.ToUpper] and [strings.TrimSpace] do to its fields, the call
    ends as the key token alone decides, with the mask of the other
    modifier tokens; it ends as the call on the input without that token
    does. *)
Theorem unknown_modifier_dropped (pre post : list string) (p key : string) :
  Forall (fun t => free_of "+" t = true) (pre ++ p :: post ++ [key]) ->
  recognised_modifier (normalise_of strings_ToLower strings_TrimSpace p) = false ->
  modifier_bit (normalise_of strings_ToLower strings_TrimSpace p) = 0 /\
  ended_value
    (parseHotkey_of strings_ToLower strings_ToUpper strings_TrimSpace
       (Join "+" (pre ++ p :: post ++ [key]))) =
  answer_for
    (modifier_loop (map (normalise_of strings_ToLower strings_TrimSpace) (pre ++ post)))
    (key_code_of strings_ToUpper (normalise_of strings_ToLower strings_TrimSpace key)) /\
  ((pre ++ post ++ [key])%list <> [""] ->
   ended_value
     (parseHotkey_of strings_ToLower strings_ToUpper strings_TrimSpace
        (Join "+" (pre ++ p :: post ++ [key]))) =
   ended_value
     (parseHotkey_of strings_ToLower strings_ToUpper strings_TrimSpace
        (Join "+" (pre ++ post ++ [key])))).
Proof.
  intros Hall Hp.
  pose proof (modifier_bit_unrecognised _ Hp) as Hbit.
  assert (Forall (fun t => free_of "+" t = true) ((pre ++ p :: post) ++ [key]))
    as Hall1 by (now rewrite <- List.app_assoc).
  assert (Forall (fun t => free_of "+" t = true) ((pre ++ post) ++ [key]))
    as Hall2.
  { rewrite List.Forall_forall in Hall |- *. intros t Ht. apply Hall.
    rewrite !List.in_app_iff in Ht. rewrite List.in_app_iff. simpl.
    rewrite List.in_app_iff. simpl in Ht |- *. tauto. }
  assert (Join "+" ((pre ++ p :: post) ++ [key]) <> "") as Hne1.
  { rewrite <- List.app_assoc. destruct pre as [|t pre'].
    - apply Join_two_nonempty. now destruct post.
    - apply Join_two_nonempty. now destruct pre'. }
  pose proof (parseHotkey_of_fields _ _ Hall1 Hne1) as H1.
  rewrite <- List.app_assoc in H1. cbn [app] in H1.
  rewrite List.map_app in H1. cbn [map] in H1.
  rewrite modifier_loop_skip in H1 by exact Hbit.
  rewrite <- List.map_app in H1.
  split; [exact Hbit|]. split; [exact H1|].
  intros Hrest.
  assert (Join "+" ((pre ++ post) ++ [key]) <> "") as Hne2.
  { apply Join_nonempty; [now destruct (pre ++ post)%list|].
    now rewrite <- List.app_assoc. }
  pose proof (parseHotkey_of_fields _ _ Hall2 Hne2) as H2.
  rewrite <- List.app_assoc in H2. rewrite H1, H2. reflexivity.
Qed.

End Unicode.

(** An instance, at the functions of [GoStrings]: the misspelt modifier
    [ctl] is dropped. *)
Lemma unknown_modifier_dropped_witness :
  parseHotkey "ctl+q" = (0, byte_of "Q", None) /\
  ended_value (parseHotkey_of ToLower ToUpper TrimSpace "shift+ctl+q")
  = Some (Some (MOD_SHIFT, byte_of "Q")) /\
  ended_value (parseHotkey_of ToLower ToUpper TrimSpace "shift+ctl+q")
  = ended_value (parseHotkey_of ToLower ToUpper TrimSpace "shift+q").
Proof.
  split; [reflexivity|].
  destruct (unknown_modifier_dropped ToLower ToUpper TrimSpace ["shift"] [] "ctl" "q")
    as (_ & H2 & H3).
  - repeat constructor.
  - reflexivity.
  - split; [exact H2|]. apply H3. discriminate.
Defined.

End HotkeyFacts.

(* ===================================================================== *)
(** * Facts about the hook callback *)
(* ===================================================================== *)

Module HookFacts.
Import GoStrings Hotkey Hook.

Lemma callback_injected lookup (sw : gmap Z bool) (ev : event) :
  is_injected ev = true -> callback lookup sw ev = (sw, Forward).
Proof.
  unfold is_injected, callback. intros ->.
  destruct (int32 (nCode ev) <? 0); reflexivity.
Qed.

Lemma callback_negative_code lookup (sw : gmap Z bool) (ev : event) :
  (int32 (nCode ev) <? 0) = true -> callback lookup sw ev = (sw, Forward).
Proof. unfold callback. intros ->. reflexivity. Qed.

Lemma keyup_not_keydown (ev : event) :
  is_keyup ev = true -> is_keydown ev = false.
Proof.
  unfold is_keyup, is_keydown, WM_KEYUP, WM_SYSKEYUP, WM_KEYDOWN, WM_SYSKEYDOWN.
  intros H. apply orb_prop in H as [H|H]; apply Z.eqb_eq in H; rewrite H; reflexivity.
Qed.

(** The only way to a dispatch is the key-down branch. *)
Lemma callback_dispatch lookup (sw sw' : gmap Z bool) (ev : event) (id : Z) :
  callback lookup sw ev = (sw', Swallow (Some id)) ->
  sw' = <[vkCode (k ev) := true]> sw /\ is_keydown ev = true /\
  is_injected ev = false /\ (int32 (nCode ev) <? 0) = false.
Proof.
  unfold callback, is_keydown, is_injected.
  destruct (int32 (nCode ev) <? 0); [discriminate|].
  destruct (negb _); [discriminate|].
  set (ku := if _ && is_swallowed _ _ then _ else _).
  assert (forall x, ku = (x, Swallow (Some id)) -> False) as Hku.
  { intros x. subst ku. destruct (_ && _); discriminate. }
  clearbody ku.
  destruct ((uint32 (wParam ev) =? WM_KEYDOWN) || (uint32 (wParam ev) =? WM_SYSKEYDOWN));
    [|intros H; now apply Hku in H].
  destruct (lookup !! vkCode (k ev)); [|intros H; now apply Hku in H].
  destruct (first_match _ _); [|intros H; now apply Hku in H].
  intros H. injection H as <- _. auto.
Qed.

(** A genuine key-up of a swallowed key is consumed and clears the marker. *)
Lemma callback_genuine_keyup lookup (sw : gmap Z bool) (ev : event) (vk : Z) :
  is_swallowed sw vk = true -> genuine_keyup vk ev = true ->
  callback lookup sw ev = (delete vk sw, Swallow None).
Proof.
  unfold genuine_keyup. intros Hsw H.
  apply andb_prop in H as [H Hvk]. apply andb_prop in H as [H Hup].
  apply andb_prop in H as [Hn Hinj].
  apply Z.eqb_eq in Hvk. apply negb_true_iff in Hn, Hinj.
  pose proof (keyup_not_keydown _ Hup) as Hdown.
  unfold callback, is_injected, is_keyup, is_keydown in *.
  rewrite Hn, Hinj, Hdown, Hup, Hvk, Hsw. reflexivity.
Qed.

(** Until that key-up comes, the marker of [vk] stays. *)
Lemma callback_keeps_marker lookup (sw : gmap Z bool) (ev : event) (vk : Z) :
  is_swallowed sw vk = true -> genuine_keyup vk ev = false ->
  is_swallowed (fst (callback lookup sw ev)) vk = true.
Proof.
  intros Hsw Hno. unfold callback.
  destruct (int32 (nCode ev) <? 0) eqn:Hn; [exact Hsw|].
  destruct (negb (Z.land (flags (k ev)) LLKHF_INJECTED =? 0)) eqn:Hinj; [exact Hsw|].
  set (ku := if _ && is_swallowed _ _ then _ else _).
  assert (is_swallowed (fst ku) vk = true) as Hku.
  { subst ku.
    destruct ((uint32 (wParam ev) =? WM_KEYUP) || (uint32 (wParam ev) =? WM_SYSKEYUP))
      eqn:Hup; [|exact Hsw].
    destruct (is_swallowed sw (vkCode (k ev))); [|exact Hsw]. simpl.
    unfold genuine_keyup, is_injected, is_keyup in Hno.
    rewrite Hn, Hinj, Hup in Hno. simpl in Hno. apply Z.eqb_neq in Hno.
    unfold is_swallowed in *. now rewrite lookup_delete_ne. }
  clearbody ku.
  destruct ((uint32 (wParam ev) =? WM_KEYDOWN) || (uint32 (wParam ev) =? WM_SYSKEYDOWN));
    [|exact Hku].
  destruct (lookup !! vkCode (k ev)); [|exact Hku].
  destruct (first_match _ _); [|exact Hku].
  simpl. unfold is_swallowed in *.
  destruct (Z.eq_dec (vkCode (k ev)) vk) as [->|Hne].
  - now rewrite lookup_insert_eq.
  - now rewrite lookup_insert_ne.
Qed.

Lemma run_hook_app lookup (evs1 evs2 : list event) : forall sw : gmap Z bool,
  run_hook lookup sw (evs1 ++ evs2) =
  (fst (run_hook lookup (fst (run_hook lookup sw evs1)) evs2),
   (snd (run_hook lookup sw evs1)
      ++ snd (run_hook lookup (fst (run_hook lookup sw evs1)) evs2))%list).
Proof.
  induction evs1 as [|e r IH]; intros sw; simpl.
  - now destruct (run_hook lookup sw evs2).
  - destruct (callback lookup sw e) as [sw1 v]. rewrite IH.
    destruct (run_hook lookup sw1 r) as [sw2 vs]. reflexivity.
Qed.

Lemma run_hook_keeps_marker lookup (evs : list event) (vk : Z) :
  forall sw : gmap Z bool,
  is_swallowed sw vk = true ->
  Forall (fun e => genuine_keyup vk e = false) evs ->
  is_swallowed (fst (run_hook lookup sw evs)) vk = true.
Proof.
  induction evs as [|e r IH]; intros sw Hsw Hall; [exact Hsw|].
  inversion Hall as [|? ? He Hr]; subst. simpl.
  pose proof (callback_keeps_marker lookup sw e vk Hsw He) as H1.
  destruct (callback lookup sw e) as [sw1 v]. simpl in H1.
  specialize (IH sw1 H1 Hr).
  destruct (run_hook lookup sw1 r) as [sw2 vs]. exact IH.
Qed.

(** Injected events are forwarded at every position of a run. *)
Lemma run_hook_injected lookup (evs : list event) :
  forall (sw : gmap Z bool) (i : nat) (ev : event),
  evs !! i = Some ev -> is_injected ev = true ->
  snd (run_hook lookup sw evs) !! i = Some Forward.
Proof.
  induction evs as [|e r IH]; intros sw i ev Hi Hinj; [discriminate|].
  simpl. destruct (callback lookup sw e) as [sw1 v] eqn:Hcb.
  specialize (IH sw1).
  destruct (run_hook lookup sw1 r) as [sw2 vs]. simpl in *.
  destruct i as [|i].
  - injection Hi as ->. rewrite callback_injected in Hcb by exact Hinj.
    injection Hcb as _ <-. reflexivity.
  - simpl. eapply IH; eassumption.
Qed.

(** C7, as stated, fails: with Ctrl+V registered, the key-down of [V] is
    swallowed and dispatched, and the next key-up of [V], which carries the
    injected flag, is forwarded; the marker of [V] stays set. *)
Lemma injected_keyup_after_swallow_forwarded :
  install "ctrl+v" "ctrl+p" "esc" = Some sample_lookup /\
  is_keyup key_v_up_injected = true /\
  vkCode (k key_v_up_injected) = vkCode (k key_v_down) /\
  snd (run_hook sample_lookup ∅ [key_v_down; key_v_up_injected])
    = [Swallow (Some 1); Forward] /\
  is_swallowed (fst (run_hook sample_lookup ∅ [key_v_down; key_v_up_injected])) 0x56
    = true.
Proof. repeat split; vm_compute; reflexivity. Qed.

(** C7 (amended). In every sequence of events the callback handles, an event
    with the injected flag is forwarded and leaves the swallowed set as it
    was; and when a key-down of [vk] is swallowed and dispatched, the next
    key-up of [vk] that is not injected (and comes with a non-negative hook
    code) is consumed and clears the marker of [vk]. *)
Theorem swallowed_keydown_keyup_pairing
    (lookup : gmap Z (list candidate)) (sw0 : gmap Z bool)
    (pre mid : list event) (e1 e2 : event) (id : Z) :
  snd (callback lookup (fst (run_hook lookup sw0 pre)) e1) = Swallow (Some id) ->
  Forall (fun e => genuine_keyup (vkCode (k e1)) e = false) mid ->
  genuine_keyup (vkCode (k e1)) e2 = true ->
  (forall sw ev, is_injected ev = true -> callback lookup sw ev = (sw, Forward)) /\
  (forall i ev, (pre ++ e1 :: mid ++ [e2])%list !! i = Some ev ->
     is_injected ev = true ->
     snd (run_hook lookup sw0 (pre ++ e1 :: mid ++ [e2])) !! i = Some Forward) /\
  snd (run_hook lookup sw0 (pre ++ e1 :: mid ++ [e2])) =
    (snd (run_hook lookup sw0 (pre ++ e1 :: mid)) ++ [Swallow None])%list /\
  fst (run_hook lookup sw0 (pre ++ e1 :: mid ++ [e2])) !! vkCode (k e1) = None.
Proof.
  intros Hdown Hmid Hup.
  split; [intros sw ev; apply callback_injected|].
  split; [intros i ev; apply run_hook_injected|].
  set (vk := vkCode (k e1)) in *.
  assert (is_swallowed (fst (run_hook lookup sw0 (pre ++ e1 :: mid))) vk = true)
    as Hmark.
  { rewrite run_hook_app. cbn [fst]. cbn [run_hook].
    destruct (callback lookup (fst (run_hook lookup sw0 pre)) e1) as [sw1 v] eqn:Hcb.
    simpl in Hdown. subst v.
    apply callback_dispatch in Hcb as (-> & _).
    pose proof (run_hook_keeps_marker lookup mid vk
                  (<[vk := true]> (fst (run_hook lookup sw0 pre)))) as Hk.
    destruct (run_hook lookup _ mid) as [sw2 vs]. simpl in Hk |- *.
    apply Hk; [|exact Hmid]. unfold is_swallowed. now rewrite lookup_insert_eq. }
  replace (pre ++ e1 :: mid ++ [e2])%list with ((pre ++ e1 :: mid) ++ [e2])%list
    by (now rewrite <- List.app_assoc).
  rewrite run_hook_app. cbn [fst snd run_hook].
  rewrite (callback_genuine_keyup lookup _ e2 vk Hmark Hup). cbn [fst snd].
  split; [reflexivity | apply lookup_delete_eq].
Qed.

(** An instance: after the injected key-up is let through, the key-up of
    the keyboard is consumed and clears the marker. *)
Lemma swallowed_keydown_keyup_pairing_witness :
  snd (run_hook sample_lookup ∅ [key_v_down; key_v_up_injected; key_v_up])
    = [Swallow (Some 1); Forward; Swallow None] /\
  fst (run_hook sample_lookup ∅ [key_v_down; key_v_up_injected; key_v_up]) !! 0x56
    = None.
Proof.
  destruct (swallowed_keydown_keyup_pairing sample_lookup ∅ []
              [key_v_up_injected] key_v_down key_v_up 1) as (_ & _ & Hv & Hs).
  - vm_compute. reflexivity.
  - repeat constructor.
  - vm_compute. reflexivity.
  - split; [|exact Hs]. vm_compute. reflexivity.
Defined.

End HookFacts.

(* ===================================================================== *)
(** * Facts about JSON path extraction *)
(* ===================================================================== *)

Module JsonpathFacts.
Import GoStrings Jsonpath.

Lemma IndexByte_range (c : ascii) (s : string) :
  IndexByte c s = -1 \/ 0 <= IndexByte c s < len s.
Proof.
  unfold len. induction s as [|d r IH]; simpl; [now left|].
  destruct (Ascii.eqb d c); [right; lia|].
  destruct (IndexByte c r <? 0) eqn:Hneg; [now left|].
  right. lia.
Qed.

Lemma IndexByte_after_head (c d : ascii) (r : string) :
  Ascii.eqb d c = false ->
  IndexByte c (String d r) = -1 \/ 1 <= IndexByte c (String d r).
Proof.
  intros Hd. simpl. rewrite Hd.
  destruct (IndexByte_range c r) as [-> | Hr]; [now left|].
  destruct (IndexByte c r <? 0) eqn:Hneg; [now left | right; lia].
Qed.

Lemma length_drop_bytes (n : nat) : forall s,
  String.length (drop_bytes n s) = (String.length s - n)%nat.
Proof.
  induction n as [|n IH]; intros s; simpl; [lia|].
  destruct s as [|c r]; simpl; [reflexivity | apply IH].
Qed.

Lemma HasPrefix_bracket (rest : string) :
  HasPrefix rest "[" = true -> exists r, rest = String "[" r.
Proof.
  unfold HasPrefix. destruct rest as [|c r]; simpl; [discriminate|].
  destruct (Ascii.eqb_spec "[" c) as [<-|]; [eauto|].
  destruct c as [[] [] [] [] [] [] [] []]; try discriminate; congruence.
Qed.

(** The loop of [ParseKeyAndIndexes] ends within [len(rest)] rounds and its
    slices are in range. *)
Lemma parse_indexes_returns (fuel : nat) : forall rest idxs,
  (String.length rest <= fuel)%nat ->
  exists r, parse_indexes fuel rest idxs = Returned r.
Proof.
  induction fuel as [|fuel IH]; intros rest idxs Hfuel.
  - destruct rest; simpl in *; [eauto | lia].
  - cbn [parse_indexes]. destruct (0 <? len rest) eqn:Hlen; [|eauto].
    destruct (HasPrefix rest "[") eqn:Hpre; cbn [negb]; [|eauto].
    apply HasPrefix_bracket in Hpre as [r ->].
    destruct (IndexByte_after_head "]" "[" r eq_refl) as [Hno | Hpos].
    { rewrite Hno. simpl. eauto. }
    destruct (IndexByte_range "]" (String "[" r)) as [Hno | Hrange]; [lia|].
    set (closePos := IndexByte "]" (String "[" r)) in *.
    replace (closePos =? -1) with false by lia.
    unfold slice_checked.
    replace ((0 <=? 1) && (1 <=? closePos) && (closePos <=? len (String "[" r)))
      with true by lia.
    cbn [bind].
    destruct (String.eqb _ ""); [eauto|].
    destruct (Atoi _); [|eauto].
    unfold slice_from_checked.
    replace ((0 <=? closePos + 1) && (closePos + 1 <=? len (String "[" r)))
      with true by lia.
    cbn [bind]. apply IH.
    unfold slice_from. rewrite length_drop_bytes.
    unfold len in Hrange. simpl in Hfuel, Hrange |- *. lia.
Qed.

Lemma ParseKeyAndIndexes_returns (token : string) :
  exists r, ParseKeyAndIndexes token = Returned r.
Proof.
  unfold ParseKeyAndIndexes.
  destruct (String.eqb token ""); [eauto|].
  destruct (IndexByte_range "[" token) as [-> | Hrange]; [simpl; eauto|].
  set (br := IndexByte "[" token) in *.
  replace (br =? -1) with false by lia.
  unfold slice_checked, slice_from_checked.
  replace ((0 <=? 0) && (0 <=? br) && (br <=? len token)) with true by lia.
  replace ((0 <=? br) && (br <=? len token)) with true by lia.
  cbn [bind].
  destruct (parse_indexes_returns (String.length (slice_from token br))
              (slice_from token br) []) as [r ->]; [lia|].
  cbn [bind]. eauto.
Qed.

Section Values.
Context {float64 : Type}.
Variable format_number : float64 -> string.
Variable Unmarshal : string -> option (value float64).
Variable range_order : gmap string (value float64) -> list (string * value float64).

#[local] Abbreviation value := (value float64).

Lemma walk_indexes_returns (idxs : list Z) : forall cur : value,
  exists r, walk_indexes float64 cur idxs = Returned r.
Proof.
  induction idxs as [|idx rest IH]; intros cur; simpl; [eauto|].
  destruct cur; eauto.
  destruct ((idx <? 0) || (Z.of_nat (List.length items) <=? idx)) eqn:Hout; [eauto|].
  apply orb_false_elim in Hout as [Hlo Hhi].
  unfold index_checked.
  replace ((0 <=? idx) && (idx <? Z.of_nat (List.length items))) with true by lia.
  destruct (nth_error items (Z.to_nat idx)) as [v|] eqn:Hnth.
  - cbn [bind]. apply IH.
  - apply nth_error_None in Hnth. lia.
Qed.

Lemma walk_part_returns (cur : value) (part : string) :
  exists r, walk_part float64 cur part = Returned r.
Proof.
  unfold walk_part.
  destruct (ParseKeyAndIndexes_returns part) as [[[key idxs]|] ->]; cbn [bind];
    [|eauto].
  destruct (walk_key float64 cur key); [apply walk_indexes_returns | eauto].
Qed.

Lemma walk_returns (parts : list string) : forall cur : value,
  exists r, walk float64 cur parts = Returned r.
Proof.
  induction parts as [|part rest IH]; intros cur; simpl; [eauto|].
  destruct (walk_part_returns cur part) as [[next|] ->]; cbn [bind]; eauto.
Qed.

Lemma leaf_text_shape (cur : value) :
  snd (leaf_text float64 format_number cur) = is_primitive float64 cur /\
  (is_primitive float64 cur = false ->
   leaf_text float64 format_number cur = ("", false)).
Proof. destruct cur; simpl; split; congruence. Qed.

(** A failing step anywhere along the path makes the whole walk fail. *)
Lemma walk_app (pre post : list string) : forall cur : value,
  walk float64 cur (pre ++ post) =
  let* r := walk float64 cur pre in
  match r with
  | None => Returned None
  | Some next => walk float64 next post
  end.
Proof.
  induction pre as [|p r IH]; intros cur; simpl; [reflexivity|].
  destruct (walk_part float64 cur p) as [[next|] | |]; cbn [bind]; auto.
Qed.

Lemma walk_malformed (parts : list string) (part : string) :
  In part parts -> ParseKeyAndIndexes part = Returned None ->
  forall cur : value, walk float64 cur parts = Returned None.
Proof.
  intros Hin Hbad.
  induction parts as [|p rest IH]; intros cur; [contradiction|].
  simpl. destruct Hin as [-> | Hin].
  - unfold walk_part. rewrite Hbad. reflexivity.
  - destruct (walk_part_returns cur p) as [[next|] ->]; cbn [bind]; auto.
Qed.

Lemma walk_indexes_app (idxs1 idxs2 : list Z) : forall cur : value,
  walk_indexes float64 cur (idxs1 ++ idxs2) =
  let* r := walk_indexes float64 cur idxs1 in
  match r with
  | None => Returned None
  | Some next => walk_indexes float64 next idxs2
  end.
Proof.
  induction idxs1 as [|i r IH]; intros cur; simpl; [reflexivity|].
  destruct cur; try reflexivity.
  destruct (_ || _); [reflexivity|].
  destruct (index_checked float64 items i); cbn [bind]; auto.
Qed.

Lemma ExtractByPath_returns (root : value) (path : string) :
  exists v ok,
    ExtractByPath float64 format_number root path = Returned (v, ok) /\
    (ok = false -> v = "").
Proof.
  unfold ExtractByPath. destruct (String.eqb path ""); [eauto|].
  destruct (walk_returns (Split "." path) root) as [[leaf|] ->]; cbn [bind];
    [|eauto].
  destruct leaf; simpl; eauto; eexists _, _; split; eauto; discriminate.
Qed.

Lemma ExtractByPath_walk_fails (root : value) (path : string) :
  walk float64 root (Split "." path) = Returned None ->
  ExtractByPath float64 format_number root path = Returned ("", false).
Proof.
  intros H. unfold ExtractByPath. rewrite H.
  destruct (String.eqb path ""); reflexivity.
Qed.

(** C10. JSON text extraction always returns (no index or slice goes out of
    range, the index loop ends), and [ExtractByPath] returns [("", false)]
    for the empty path, for a malformed path segment, for an absent key, for
    an index that is negative or out of range, for a key applied to a
    non-object or an index applied to a non-array, and for a leaf that is no
    string, number or boolean; [ExtractTextFromResponse] returns [""] for a
    body that [json.Unmarshal] rejects. *)
Theorem extraction_total :
  (forall (root : value) path, exists v ok,
     ExtractByPath float64 format_number root path = Returned (v, ok) /\
     (ok = false -> v = "")) /\
  (forall root : value,
     ExtractByPath float64 format_number root "" = Returned ("", false)) /\
  (forall (root : value) path part,
     In part (Split "." path) -> ParseKeyAndIndexes part = Returned None ->
     ExtractByPath float64 format_number root path = Returned ("", false)) /\
  (forall (root cur : value) path pre part post,
     Split "." path = (pre ++ part :: post)%list ->
     walk float64 root pre = Returned (Some cur) ->
     walk_part float64 cur part = Returned None ->
     ExtractByPath float64 format_number root path = Returned ("", false)) /\
  (forall (cur : value) part key idxs,
     ParseKeyAndIndexes part = Returned (Some (key, idxs)) ->
     (key <> "" -> is_object float64 cur = false ->
      walk_part float64 cur part = Returned None) /\
     (key <> "" -> forall m, cur = JObject m -> m !! key = None ->
      walk_part float64 cur part = Returned None) /\
     (forall (next at_ : value) idxs1 idx idxs2,
        walk_key float64 cur key = Some next ->
        idxs = (idxs1 ++ idx :: idxs2)%list ->
        walk_indexes float64 next idxs1 = Returned (Some at_) ->
        is_array float64 at_ = false \/
        (exists arr, at_ = JArray arr /\
                     (idx < 0 \/ Z.of_nat (List.length arr) <= idx)) ->
        walk_part float64 cur part = Returned None)) /\
  (forall (root leaf : value) path,
     walk float64 root (Split "." path) = Returned (Some leaf) ->
     is_primitive float64 leaf = false ->
     ExtractByPath float64 format_number root path = Returned ("", false)) /\
  (forall body textPath,
     (exists text, ExtractTextFromResponse float64 format_number Unmarshal
                     range_order body textPath = Returned text) /\
     (Unmarshal body = None ->
      ExtractTextFromResponse float64 format_number Unmarshal range_order
        body textPath = Returned "")).
Proof.
  split; [apply ExtractByPath_returns|].
  split; [reflexivity|].
  split.
  { intros root path part Hin Hbad.
    apply ExtractByPath_walk_fails. now apply (walk_malformed _ part). }
  split.
  { intros root cur path pre part post Hsplit Hpre Hpart.
    apply ExtractByPath_walk_fails.
    rewrite Hsplit, walk_app, Hpre. cbn [bind walk]. rewrite Hpart. reflexivity. }
  split.
  { intros cur part key idxs Hparse. unfold walk_part. rewrite Hparse. cbn [bind].
    split; [|split].
    - intros Hkey Hobj. unfold walk_key.
      apply String.eqb_neq in Hkey. rewrite Hkey.
      destruct cur; try reflexivity; discriminate.
    - intros Hkey m -> Hm. unfold walk_key.
      apply String.eqb_neq in Hkey. rewrite Hkey. cbn [negb]. now rewrite Hm.
    - intros next at_ idxs1 idx idxs2 -> -> Hwalk Hwhy.
      rewrite walk_indexes_app, Hwalk. cbn [bind walk_indexes].
      destruct Hwhy as [Harr | (arr & -> & Hidx)].
      + destruct at_; try reflexivity; discriminate.
      + replace ((idx <? 0) || (Z.of_nat (List.length arr) <=? idx)) with true by lia.
        reflexivity. }
  split.
  { intros root leaf path Hwalk Hleaf. unfold ExtractByPath. rewrite Hwalk.
    destruct (String.eqb path ""); [reflexivity|]. cbn [bind].
    now rewrite (proj2 (leaf_text_shape leaf) Hleaf). }
  intros body textPath. split.
  - unfold ExtractTextFromResponse.
    destruct (Unmarshal body) as [root|]; [|eauto].
    assert (exists r, (if negb (String.eqb textPath "")
                       then ExtractByPath float64 format_number root textPath
                       else Returned ("", false)) = Returned r) as [[v ok] ->].
    { destruct (negb _); [|eauto].
      destruct (ExtractByPath_returns root textPath) as (v & ok & -> & _). eauto. }
    cbn [bind]. destruct ok; [eauto|].
    destruct root; eauto.
    destruct (text_field _ _ _); [eauto|].
    destruct (first_string _ _); eauto.
  - intros Herr. unfold ExtractTextFromResponse. now rewrite Herr.
Qed.

End Values.

(** The cases of [TestExtractByPath] and [TestParseKeyAndIndexes]. *)
Example TestExtractByPath :
  ExtractByPath unit (fun _ => "") test_root "data.items[1].value"
    = Returned ("b", true) /\
  ExtractByPath unit (fun _ => "") test_root "results[0].alternatives[0].transcript"
    = Returned ("ok", true) /\
  ExtractByPath unit (fun _ => "") test_root "data.items[99].value"
    = Returned ("", false) /\
  ExtractByPath unit (fun _ => "") test_root "data.items[-1].value"
    = Returned ("", false) /\
  ExtractByPath unit (fun _ => "") test_root "data.items[1"
    = Returned ("", false) /\
  ExtractByPath unit (fun _ => "") test_root "data.items"
    = Returned ("", false).
Proof. repeat split; vm_compute; reflexivity. Qed.

Example TestParseKeyAndIndexes :
  ParseKeyAndIndexes "foo[0][1]" = Returned (Some ("foo", [0; 1])).
Proof. vm_compute. reflexivity. Qed.

End JsonpathFacts.

(* ===================================================================== *)
(** * Facts about the Recorder *)
(* ===================================================================== *)

Module RecordFacts.
Import Record RecordInv.

Lemma State_eqb_eq (a b : State) : State_eqb a b = true <-> a = b.
Proof. destruct a, b; simpl; split; congruence. Qed.

Lemma State_eqb_neq (a b : State) : State_eqb a b = false <-> a <> b.
Proof. destruct a, b; simpl; split; congruence. Qed.

Lemma running_spec (st : State) :
  running st = true <-> st = StateRecording \/ st = StatePaused.
Proof. destruct st; simpl; split; intros; try tauto; try discriminate;
  destruct H; discriminate. Qed.

(** ** The steps, case by case *)

Lemma recordLoop_step_move (i : nat) (ok : bool) (s : sys) :
  worker_move i ok s (recordLoop_step i ok s).
Proof.
  unfold recordLoop_step.
  destruct (workers s !! i) as [w|] eqn:Hw; [|apply Move_none].
  destruct (w_pc w) as [| | | | | | | | | | |res|res|res|[d|] res|res|res] eqn:Hpc;
    try (apply Move_local; [exact Hw | unfold working; now rewrite Hpc]).
  - replace (recordLoop_local ok s w) with (at_pc (AtSend res) w)
      by (unfold recordLoop_local; now rewrite Hpc).
    now apply Move_finish.
  - replace (recordLoop_local ok s w) with (at_pc (Sending (done (rec s)) res) w)
      by (unfold recordLoop_local; now rewrite Hpc).
    now apply Move_read.
  - destruct (chans s !! d) as [[r|]|] eqn:Hc; try apply Move_none.
    replace (recordLoop_local ok s w) with (at_pc (AtReturn res) w)
      by (unfold recordLoop_local; now rewrite Hpc).
    now apply Move_send with (d := d).
  - apply Move_none.
  - replace (recordLoop_local ok s w) with (returned w res)
      by (unfold recordLoop_local; now rewrite Hpc).
    now apply Move_return.
  - replace (set_worker i (recordLoop_local ok s w) s) with s; [apply Move_none|].
    unfold recordLoop_local, set_worker. rewrite Hpc.
    rewrite list_insert_id by exact Hw. now destruct s.
Qed.

Lemma working_active (w : worker) : working w = true -> active w = true.
Proof. unfold working, active. destruct (w_pc w); congruence. Qed.

(** A step inside [recordLoop] keeps the worker active and its path. *)
Lemma recordLoop_local_active (ok : bool) (s : sys) (w : worker) :
  working w = true ->
  active (recordLoop_local ok s w) = true /\
  w_wavPath (recordLoop_local ok s w) = w_wavPath w.
Proof.
  unfold working, active, recordLoop_local.
  destruct (w_pc w); try discriminate; intros _;
    repeat match goal with |- context [if ?b then _ else _] => destruct b end;
    split; reflexivity.
Qed.

Lemma active_not_sending (w : worker) (od : option nat) (res : Result) :
  active w = true -> w_pc w <> Sending od res.
Proof. unfold active. intros H E. rewrite E in H. discriminate. Qed.

Lemma caller_step_move (j : nat) (s : sys) : caller_move j s (caller_step j s).
Proof.
  unfold caller_step.
  destruct (callers s !! j) as [c|] eqn:Hc; [|apply CMove_none].
  destruct (c_pc c) eqn:Hpc.
  - now apply CMove_cancel.
  - destruct (c_done c) as [d|] eqn:Hd; [|apply CMove_none].
    destruct (chans s !! d) as [[res|]|] eqn:Hch; try apply CMove_none.
    pose proof (CMove_receive j s c d res Hc Hpc Hd Hch) as H.
    now rewrite Hd in H.
  - apply CMove_none.
Qed.

(** ** Well-formed states *)

Lemma wf_init (tempDir : string) : wf (init tempDir).
Proof.
  constructor; simpl; try reflexivity.
  - intros i w H. discriminate H.
  - split; [intros _ i w H; discriminate H | reflexivity].
  - intros i w od res H. discriminate H.
Qed.

Lemma same_activity (ws : list worker) (i : nat) (w w' : worker) :
  ws !! i = Some w -> active w' = active w ->
  ((forall i' x, <[i := w']> ws !! i' = Some x -> active x = false) <->
   (forall i' x, ws !! i' = Some x -> active x = false)).
Proof.
  intros Hw Hact. split; intros H i' x Hx.
  - destruct (decide (i' = i)) as [->|Hne].
    + rewrite Hw in Hx. injection Hx as <-. rewrite <- Hact.
      apply (H i). apply list_lookup_insert_eq. now apply lookup_lt_Some in Hw.
    + apply (H i'). now rewrite list_lookup_insert_ne.
  - apply list_lookup_insert_Some in Hx as [(<- & <- & _) | (Hne & Hx)].
    + rewrite Hact. now apply (H i).
    + now apply (H i').
Qed.

Lemma wf_set_worker_same (s : sys) (i : nat) (w w' : worker) :
  wf s -> workers s !! i = Some w -> active w' = active w ->
  (forall od res, w_pc w' = Sending od res ->
     exists d, od = Some d /\ (i <= d < List.length (workers s))%nat) ->
  wf (set_worker i w' s).
Proof.
  intros [H1 H2 H3 H4 H5 H6 H7 H8] Hw Hact Hsend.
  constructor; simpl; rewrite ?length_insert; try assumption.
  - intros i' x Hx Hax.
    apply list_lookup_insert_Some in Hx as [(<- & <- & _) | (Hne & Hx)].
    + apply (H6 i w); congruence.
    + now apply (H6 i' x).
  - rewrite H7. symmetry. now apply same_activity with (w := w).
  - intros i' x od res Hx Hpc.
    apply list_lookup_insert_Some in Hx as [(<- & <- & _) | (Hne & Hx)].
    + now apply (Hsend od res).
    + now apply (H8 i' x od res).
Qed.

Lemma wf_set_chan (s : sys) (d : nat) (slot : option Result) :
  wf s -> wf (set_chan d slot s).
Proof.
  intros [H1 H2 H3 H4 H5 H6 H7 H8].
  constructor; simpl; rewrite ?length_insert; assumption.
Qed.

Lemma wf_cancel_ctx (s : sys) (c : nat) : wf s -> wf (cancel_ctx c s).
Proof.
  intros [H1 H2 H3 H4 H5 H6 H7 H8].
  constructor; simpl; rewrite ?length_insert; assumption.
Qed.

Lemma wf_set_caller (s : sys) (j : nat) (c : caller) : wf s -> wf (set_caller j c s).
Proof. intros [H1 H2 H3 H4 H5 H6 H7 H8]. constructor; simpl; assumption. Qed.

Lemma wf_add_caller (s : sys) (c : caller) : wf s -> wf (add_caller c s).
Proof. intros [H1 H2 H3 H4 H5 H6 H7 H8]. constructor; simpl; assumption. Qed.

(** A change between states that are not [StateIdle]. *)
Lemma wf_set_state (s : sys) (st : State) :
  wf s -> state (rec s) <> StateIdle -> st <> StateIdle -> wf (set_state st s).
Proof.
  intros [H1 H2 H3 H4 H5 H6 H7 H8] Hs Hst.
  constructor; simpl; try assumption.
  rewrite <- H7. split; congruence.
Qed.

Lemma wf_Start (s : sys) (id cwd : string) : wf s -> wf (fst (Start id cwd s)).
Proof.
  intros Hwf. unfold Start.
  destruct (State_eqb (state (rec s)) StateIdle) eqn:Hidle; [|exact Hwf].
  apply State_eqb_eq in Hidle.
  destruct Hwf as [H1 H2 H3 H4 H5 H6 H7 H8].
  pose proof (proj1 H7 Hidle) as Hnone.
  constructor; simpl; rewrite ?List.length_app; simpl.
  - lia.
  - lia.
  - rewrite H2. now replace (List.length (workers s) + 1)%nat
      with (S (List.length (workers s))) by lia.
  - rewrite H1. now replace (List.length (workers s) + 1)%nat
      with (S (List.length (workers s))) by lia.
  - rewrite H1. now replace (List.length (workers s) + 1)%nat
      with (S (List.length (workers s))) by lia.
  - intros i w Hw Hact.
    apply lookup_app_Some in Hw as [Hw | [Hlen Hw]].
    + rewrite (Hnone i w Hw) in Hact. discriminate.
    + apply list_lookup_singleton_Some in Hw as [Hi _]. lia.
  - split; [discriminate|]. intros Hall. exfalso.
    specialize (Hall (List.length (workers s)) (spawn (generateTempWav (rec s) id cwd))).
    rewrite lookup_app_r, Nat.sub_diag in Hall by lia.
    specialize (Hall eq_refl). discriminate.
  - intros i w od res Hw Hpc.
    apply lookup_app_Some in Hw as [Hw | [Hlen Hw]].
    + destruct (H8 i w od res Hw Hpc) as (d & -> & Hd). exists d. split; [reflexivity | lia].
    + apply list_lookup_singleton_Some in Hw as [_ <-]. discriminate Hpc.
Qed.

Lemma wf_request (o : op) (s : sys) : wf s -> wf (fst (request o s)).
Proof.
  intros Hwf. unfold request.
  destruct (running (state (rec s))) eqn:Hrun; [|exact Hwf].
  apply running_spec in Hrun. simpl.
  apply wf_add_caller, wf_set_state; [exact Hwf | | destruct o; discriminate].
  destruct Hrun as [-> | ->]; discriminate.
Qed.

Lemma wf_TogglePause (s : sys) : wf s -> wf (fst (TogglePause s)).
Proof.
  intros Hwf. unfold TogglePause.
  destruct (running (state (rec s))) eqn:Hrun; [|exact Hwf].
  apply running_spec in Hrun.
  assert (state (rec s) <> StateIdle) by (destruct Hrun as [-> | ->]; discriminate).
  destruct (State_eqb _ StatePaused); simpl; apply wf_set_state;
    auto; discriminate.
Qed.

Lemma last_id_lt (n d : nat) : last_id n = Some d -> (d < n)%nat.
Proof. destruct n; simpl; intros H; [discriminate | injection H as <-; lia]. Qed.

Lemma last_id_some (n i : nat) : (i < n)%nat -> last_id n = Some (pred n) /\ (i <= pred n < n)%nat.
Proof. destruct n; simpl; intros H; [lia | split; [reflexivity | lia]]. Qed.

Lemma wf_worker_move (i : nat) (ok : bool) (s s' : sys) :
  wf s -> worker_move i ok s s' -> wf s'.
Proof.
  intros Hwf Hmove.
  destruct Hmove as [|w res Hw Hpc|w res Hw Hpc|w res d Hw Hpc Hc|w res Hw Hpc|w Hw Hwork].
  - exact Hwf.
  - assert (active w = true) as Hact by (unfold active; now rewrite Hpc).
    destruct Hwf as [H1 H2 H3 H4 H5 H6 H7 H8].
    constructor; simpl; rewrite ?length_insert; try assumption.
    + intros i' x Hx Hax.
      apply list_lookup_insert_Some in Hx as [(<- & <- & _) | (Hne & Hx)];
        [discriminate | now apply (H6 i' x)].
    + split; [|reflexivity]. intros _ i' x Hx.
      apply list_lookup_insert_Some in Hx as [(<- & <- & _) | (Hne & Hx)];
        [reflexivity|].
      destruct (active x) eqn:Hax; [|reflexivity].
      pose proof (H6 i' x Hx Hax). pose proof (H6 i w Hw Hact). lia.
    + intros i' x od res' Hx Hpc'.
      apply list_lookup_insert_Some in Hx as [(<- & <- & _) | (Hne & Hx)];
        [discriminate Hpc' | now apply (H8 i' x od res')].
  - apply wf_set_worker_same with (w := w);
      [exact Hwf | exact Hw | unfold active; simpl; now rewrite Hpc |].
    intros od res' Hpc'. simpl in Hpc'. injection Hpc' as <- _.
    rewrite (wf_done s Hwf).
    destruct (last_id_some (List.length (workers s)) i) as [-> Hb];
      [now apply lookup_lt_Some in Hw | eauto].
  - apply wf_set_worker_same with (w := w);
      [now apply wf_set_chan | exact Hw | unfold active; simpl; now rewrite Hpc
      | intros od res' Hpc'; discriminate Hpc'].
  - apply wf_set_worker_same with (w := w);
      [exact Hwf | exact Hw | unfold active; simpl; now rewrite Hpc
      | intros od res' Hpc'; discriminate Hpc'].
  - pose proof (working_active w Hwork) as Hact.
    destruct (recordLoop_local_active ok s w Hwork) as [Hact' _].
    apply wf_set_worker_same with (w := w); [exact Hwf | exact Hw | congruence |].
    intros od res Hpc. now apply active_not_sending in Hpc.
Qed.

Lemma wf_caller_move (j : nat) (s s' : sys) :
  wf s -> caller_move j s s' -> wf s'.
Proof.
  intros Hwf Hmove. destruct Hmove as [|c Hc Hpc|c d res Hc Hpc Hd Hch].
  - exact Hwf.
  - apply wf_set_caller. destruct (c_cancel c); [now apply wf_cancel_ctx | exact Hwf].
  - now apply wf_set_caller, wf_set_chan.
Qed.

Lemma wf_step (l : label) (s : sys) : wf s -> wf (step l s).
Proof.
  intros Hwf. destruct l; simpl.
  - now apply wf_Start.
  - now apply wf_request.
  - now apply wf_request.
  - now apply wf_TogglePause.
  - eapply wf_caller_move; [exact Hwf | apply caller_step_move].
  - eapply wf_worker_move; [exact Hwf | apply recordLoop_step_move].
Qed.

Lemma run_snoc (tr : list label) (l : label) (s : sys) :
  run (tr ++ [l]) s = step l (run tr s).
Proof. unfold run. now rewrite fold_left_app. Qed.

Lemma run_app (tr1 tr2 : list label) (s : sys) :
  run (tr1 ++ tr2) s = run tr2 (run tr1 s).
Proof. unfold run. now rewrite fold_left_app. Qed.

Lemma wf_run (tr : list label) : forall s, wf s -> wf (run tr s).
Proof.
  induction tr as [|l tr IH]; intros s Hwf; [exact Hwf|].
  simpl. apply IH. now apply wf_step.
Qed.

(** At most the newest worker is active. *)
Lemma filter_active_last (ws : list worker) :
  (forall i w, ws !! i = Some w -> active w = true -> S i = List.length ws) ->
  List.filter active ws =
  match List.last (map Some ws) None with
  | Some w => if active w then [w] else []
  | None => []
  end.
Proof.
  induction ws as [|w ws IH] using rev_ind; intros H; [reflexivity|].
  rewrite List.filter_app, List.map_app. simpl. rewrite last_last.
  replace (List.filter active ws) with (@nil worker).
  - simpl. destruct (active w); reflexivity.
  - symmetry. rewrite IH.
    + destruct (List.last (map Some ws) None) as [x|] eqn:Hlast; [|reflexivity].
      destruct (active x) eqn:Hx; [|reflexivity]. exfalso.
      assert (exists i, ws !! i = Some x) as [i Hi].
      { destruct ws as [|y ys] using rev_ind; [discriminate|].
        rewrite List.map_app in Hlast. simpl in Hlast. rewrite last_last in Hlast.
        injection Hlast as ->. exists (List.length ys).
        rewrite lookup_app_r, Nat.sub_diag by lia. reflexivity. }
      pose proof (lookup_lt_Some _ _ _ Hi) as Hlt.
      specialize (H i x). rewrite lookup_app_l in H by exact Hlt.
      specialize (H Hi Hx). rewrite List.length_app in H. simpl in H. lia.
    + intros i x Hi Hx. pose proof (lookup_lt_Some _ _ _ Hi) as Hlt.
      specialize (H i x). rewrite lookup_app_l in H by exact Hlt.
      specialize (H Hi Hx). rewrite List.length_app in H. simpl in H. lia.
Qed.

Lemma wf_active_workers (s : sys) :
  wf s ->
  (active_workers s <= 1)%nat /\
  (active_workers s = 0%nat <-> state (rec s) = StateIdle).
Proof.
  intros Hwf. unfold active_workers.
  pose proof (filter_active_last (workers s) (wf_last s Hwf)) as Hf.
  split.
  - rewrite Hf. destruct (List.last _ _) as [w|]; [destruct (active w)|]; simpl; lia.
  - rewrite (wf_idle s Hwf). split.
    + intros H0 i w Hw. destruct (active w) eqn:Ha; [|reflexivity]. exfalso.
      assert (In w (List.filter active (workers s))) as Hin.
      { apply List.filter_In. split; [|exact Ha].
        apply list_elem_of_In, list_elem_of_lookup. eauto. }
      destruct (List.filter active (workers s)); [contradiction | discriminate].
    + intros Hall.
      destruct (List.filter active (workers s)) as [|w r] eqn:Hfl; [reflexivity|].
      assert (In w (List.filter active (workers s))) as Hin by (rewrite Hfl; now left).
      apply List.filter_In in Hin as [Hin Ha].
      apply list_elem_of_In, list_elem_of_lookup in Hin as [i Hi].
      rewrite (Hall i w Hi) in Ha. discriminate.
Qed.

(** ** The precondition of [Start] *)

Lemma Start_idle (s : sys) (id cwd : string) :
  state (rec s) = StateIdle ->
  snd (Start id cwd s) = None /\
  state (rec (fst (Start id cwd s))) = StateRecording /\
  workers (fst (Start id cwd s))
    = (workers s ++ [spawn (generateTempWav (rec s) id cwd)])%list /\
  callers (fst (Start id cwd s)) = callers s.
Proof. unfold Start. intros ->. simpl. auto. Qed.

Lemma Start_busy (s : sys) (id cwd : string) :
  state (rec s) <> StateIdle -> Start id cwd s = (s, Some "recorder not idle").
Proof.
  intros H. unfold Start. apply State_eqb_neq in H. now rewrite H.
Qed.

(** C1. In every state an interleaving of calls, callers and workers can
    reach, at most one worker is active, and one is active exactly when the
    state is not [StateIdle]; [Start] succeeds only in [StateIdle], where it
    sets [StateRecording] and spawns the one worker; in every other state
    (Recording, Paused, Stopping, Canceled) it returns an error and changes
    nothing: no worker is spawned, no caller is left pending. *)
Theorem at_most_one_active_worker (tempDir : string) (tr : list label)
    (id cwd : string) :
  let s := run tr (init tempDir) in
  (active_workers s <= 1)%nat /\
  (active_workers s = 0%nat <-> state (rec s) = StateIdle) /\
  (state (rec s) = StateIdle ->
   snd (Start id cwd s) = None /\
   state (rec (fst (Start id cwd s))) = StateRecording /\
   workers (fst (Start id cwd s))
     = (workers s ++ [spawn (generateTempWav (rec s) id cwd)])%list /\
   active_workers (fst (Start id cwd s)) = 1%nat) /\
  (state (rec s) <> StateIdle ->
   Start id cwd s = (s, Some "recorder not idle") /\
   active_workers (step (L_Start id cwd) s) = 1%nat).
Proof.
  intros s.
  assert (wf s) as Hwf by apply wf_run, wf_init.
  destruct (wf_active_workers s Hwf) as [Hle Hzero].
  split; [exact Hle|]. split; [exact Hzero|]. split.
  - intros Hidle.
    destruct (Start_idle s id cwd Hidle) as (Herr & Hst & Hws & _).
    repeat split; try assumption.
    pose proof (wf_Start s id cwd Hwf) as Hwf'.
    destruct (wf_active_workers _ Hwf') as [Hle' Hzero'].
    destruct (active_workers (fst (Start id cwd s))) as [|[|n]] eqn:Hn;
      [|reflexivity|lia].
    rewrite (proj1 Hzero' eq_refl) in Hst. discriminate.
  - intros Hbusy. split; [now apply Start_busy|].
    simpl. rewrite Start_busy by exact Hbusy. simpl.
    assert (active_workers s <> 0%nat) by (intros H0; now apply Hzero in H0).
    lia.
Qed.

(** C2. A transition requested outside its precondition returns an error and
    leaves the whole system as it was: [Start] when the state is not
    [StateIdle]; [Stop], [Cancel] and [TogglePause] when it is neither
    [StateRecording] nor [StatePaused].  No field of the recorder changes, no
    worker is added, no context is cancelled, no caller is left waiting. *)
Theorem rejected_requests_change_nothing (s : sys) (id cwd : string) :
  (state (rec s) <> StateIdle ->
   Start id cwd s = (s, Some "recorder not idle") /\
   step (L_Start id cwd) s = s) /\
  (state (rec s) <> StateRecording /\ state (rec s) <> StatePaused ->
   Stop s = (s, Some (zero_Result, Some "recorder not running")) /\
   Cancel s = (s, Some (zero_Result, Some "recorder not running")) /\
   TogglePause s = (s, Some "recorder not running") /\
   step L_Stop s = s /\ step L_Cancel s = s /\ step L_TogglePause s = s).
Proof.
  split.
  - intros H. simpl. rewrite Start_busy by exact H. auto.
  - intros [Hr Hp].
    assert (running (state (rec s)) = false) as Hrun.
    { destruct (running (state (rec s))) eqn:E; [|reflexivity].
      apply running_spec in E. tauto. }
    unfold step, Stop, Cancel, request, TogglePause. rewrite Hrun. simpl.
    repeat split; reflexivity.
Qed.

(** ** What a step does to a worker *)

Lemma step_worker_change (l : label) (s : sys) (i : nat) (w' : worker) :
  workers (step l s) !! i = Some w' -> worker_change l s i w'.
Proof.
  destruct l as [id cwd| | | |j|k ok]; simpl.
  - unfold Start.
    destruct (State_eqb (state (rec s)) StateIdle) eqn:Hidle; simpl;
      [|now apply Change_none].
    apply State_eqb_eq in Hidle. intros H.
    apply lookup_app_Some in H as [H | [Hlen H]]; [now apply Change_none|].
    apply list_lookup_singleton_Some in H as [Hi <-].
    apply Change_spawn with (id := id) (cwd := cwd); auto. lia.
  - unfold Stop, request. destruct (running _); simpl; now apply Change_none.
  - unfold Cancel, request. destruct (running _); simpl; now apply Change_none.
  - unfold TogglePause. destruct (running _); simpl; [|now apply Change_none].
    destruct (State_eqb _ _); simpl; now apply Change_none.
  - destruct (caller_step_move j s) as [|c Hc Hpc|c d res Hc Hpc Hd Hch]; simpl;
      try (now apply Change_none).
    destruct (c_cancel c); simpl; now apply Change_none.
  - pose proof (recordLoop_step_move k ok s) as Hmove.
    remember (recordLoop_step k ok s) as s' eqn:Hs'.
    destruct Hmove as [|w res Hw Hpc|w res Hw Hpc|w res d Hw Hpc Hc|w res Hw Hpc
                       |w Hw Hwork]; simpl.
    + now apply Change_none.
    + intros H.
      apply list_lookup_insert_Some in H as [(<- & <- & _) | (Hne & H)];
        [|now apply Change_none].
      apply Change_finish with (ok := ok) (w := w) (res := res); auto.
      simpl. now rewrite <- Hs'.
    + intros H.
      apply list_lookup_insert_Some in H as [(<- & <- & _) | (Hne & H)];
        [|now apply Change_none].
      now apply Change_read with (ok := ok) (w := w) (res := res).
    + intros H.
      apply list_lookup_insert_Some in H as [(<- & <- & _) | (Hne & H)];
        [|now apply Change_none].
      now apply Change_send with (ok := ok) (w := w) (res := res) (d := d).
    + intros H.
      apply list_lookup_insert_Some in H as [(<- & <- & _) | (Hne & H)];
        [|now apply Change_none].
      now apply Change_return with (ok := ok) (w := w) (res := res).
    + intros H.
      apply list_lookup_insert_Some in H as [(<- & <- & _) | (Hne & H)];
        [|now apply Change_none].
      apply Change_local with (ok := ok) (w := w); auto.
      simpl. now rewrite <- Hs'.
Qed.

(** ** Every exit goes through [finish] *)







(** ** What a worker holds, point by point *)

Lemma generateTempWav_nonempty (r : Recorder) (id cwd : string) :
  generateTempWav r id cwd <> "".
Proof.
  unfold generateTempWav, filepath_Join.
  destruct (String.eqb _ ""); [discriminate|].
  destruct (if String.eqb (tempDir r) "" then cwd else tempDir r) eqn:E;
    discriminate.
Qed.

Lemma holds_spawn (r : Recorder) (id cwd : string) :
  holds (spawn (generateTempWav r id cwd)).
Proof.
  split; [apply generateTempWav_nonempty | simpl; auto 6].
Qed.

Lemma holds_local (ok : bool) (s : sys) (w : worker) :
  holds w -> holds (recordLoop_local ok s w).
Proof.
  unfold holds, recordLoop_local. intros [Hp H].
  destruct (w_pc w) eqn:Hpc;
    repeat match goal with
           | |- context [if State_eqb ?a ?b then _ else _] => destruct (State_eqb a b)
           | |- context [if stop_requested ?x then _ else _] => destruct (stop_requested x)
           | |- context [if ok then _ else _] => destruct ok
           end;
    cbn [w_pc at_pc close_stream close_file remove_wav w_wavPath w_pa w_stream w_file
         w_onDisk w_removeFailed negb];
    rewrite ?Hpc; (split; [exact Hp|]); try exact H;
    unfold outcome, failed, completed, cancelled_result in *;
    cbn [w_pc at_pc close_stream close_file remove_wav w_wavPath w_pa w_stream w_file
         w_onDisk w_removeFailed negb];
    try (destruct H as (? & ? & ? & ? & ?); repeat split; auto;
         first [ left; split; [reflexivity | congruence]
               | right; left; split; [eexists; reflexivity | congruence]
               | right; right; repeat split; congruence
               | left; reflexivity
               | right; eexists; reflexivity ]; fail).
  - destruct H as (? & ? & ? & Hd & ? & Hres). repeat split; auto.
    rewrite Hd.
    destruct Hres as [-> | [msg ->]];
      [left; split; [reflexivity | destruct ok; reflexivity]
      | right; left; split; [eexists; reflexivity | destruct ok; reflexivity]].
  - destruct H as (? & ? & H). repeat split; auto.
Qed.

Lemma holds_at_pc_tail (w : worker) (res : Result) (p : pc) :
  holds w ->
  (w_pc w = AtFinish res \/ w_pc w = AtSend res \/ (exists d, w_pc w = Sending d res)) ->
  (p = AtSend res \/ (exists d, p = Sending d res) \/ p = AtReturn res) ->
  holds (at_pc p w).
Proof.
  unfold holds. intros [Hp H] Hpc Hp'. split; [exact Hp|].
  assert (w_stream w = false /\ w_file w = false /\ outcome w res) as H'.
  { destruct Hpc as [E|[E|[d E]]]; rewrite E in H; exact H. }
  destruct Hp' as [->|[[d ->]| ->]]; exact H'.
Qed.

Lemma holds_returned (w : worker) (res : Result) :
  holds w -> w_pc w = AtReturn res -> holds (returned w res).
Proof.
  unfold holds. intros [Hp H] Hpc. rewrite Hpc in H. split; [exact Hp|].
  simpl. destruct H as (? & ? & ?). auto.
Qed.

Lemma holds_run (tempDir : string) (tr : list label) :
  forall i w, workers (run tr (init tempDir)) !! i = Some w -> holds w.
Proof.
  induction tr as [|l tr IH] using rev_ind; intros i w Hw; [discriminate Hw|].
  rewrite run_snoc in Hw.
  destruct (step_worker_change _ _ _ _ Hw)
    as [Hsame | id cwd _ _ _ -> | ok w0 res0 _ Hw0 Hpc0 -> _
        | ok w0 res0 _ Hw0 Hpc0 -> | ok w0 res0 d _ Hw0 Hpc0 -> _
        | ok w0 res0 _ Hw0 Hpc0 -> | ok w0 _ Hw0 _ -> _].
  - now apply (IH i).
  - apply holds_spawn.
  - apply (holds_at_pc_tail w0 res0); [now apply (IH i) | auto | auto].
  - apply (holds_at_pc_tail w0 res0); [now apply (IH i) | auto | eauto].
  - apply (holds_at_pc_tail w0 res0); [now apply (IH i) | eauto | auto].
  - apply holds_returned; [now apply (IH i) | exact Hpc0].
  - apply holds_local. now apply (IH i).
Qed.

(** ** Failures in the middle of the stream *)

(** C4, as stated, fails for a failed buffer read: the worker logs it and
    goes back to the top of its loop; the stream and the file stay open, the
    file stays on disk, the state stays [StateRecording] and no result is
    produced. *)
Lemma read_failure_keeps_session_running :
  option_map w_pc (workers (run to_first_read (init "tmp")) !! 0%nat)
    = Some AtRead /\
  option_map (fun w => (w_pc w, w_stream w, w_file w, w_onDisk w, settled w))
    (workers (step (L_Worker 0 false) (run to_first_read (init "tmp"))) !! 0%nat)
    = Some (AtLoopCanceled, true, true, true, None) /\
  state (rec (step (L_Worker 0 false) (run to_first_read (init "tmp"))))
    = StateRecording /\
  chans (step (L_Worker 0 false) (run to_first_read (init "tmp"))) = [None].
Proof. repeat split; vm_compute; reflexivity. Qed.

Lemma step_local (s : sys) (i : nat) (ok : bool) (w : worker) :
  workers s !! i = Some w -> working w = true ->
  step (L_Worker i ok) s = set_worker i (recordLoop_local ok s w) s.
Proof.
  intros Hw Hwork. simpl. unfold recordLoop_step. rewrite Hw.
  unfold working in Hwork. destruct (w_pc w); try reflexivity; discriminate.
Qed.

Lemma step_finish (s : sys) (i : nat) (ok : bool) (w : worker) (res : Result) :
  workers s !! i = Some w -> w_pc w = AtFinish res ->
  step (L_Worker i ok) s = set_worker i (at_pc (AtSend res) w) (set_state StateIdle s).
Proof.
  intros Hw Hpc. simpl. unfold recordLoop_step, recordLoop_local.
  now rewrite Hw, Hpc.
Qed.

Lemma step_read (s : sys) (i : nat) (ok : bool) (w : worker) (res : Result) :
  workers s !! i = Some w -> w_pc w = AtSend res ->
  step (L_Worker i ok) s = set_worker i (at_pc (Sending (done (rec s)) res) w) s.
Proof.
  intros Hw Hpc. simpl. unfold recordLoop_step, recordLoop_local.
  now rewrite Hw, Hpc.
Qed.

Lemma step_send (s : sys) (i d : nat) (ok : bool) (w : worker) (res : Result) :
  workers s !! i = Some w -> w_pc w = Sending (Some d) res ->
  chans s !! d = Some None ->
  step (L_Worker i ok) s = set_worker i (at_pc (AtReturn res) w) (set_chan d (Some res) s).
Proof.
  intros Hw Hpc Hc. simpl. unfold recordLoop_step, recordLoop_local.
  now rewrite Hw, Hpc, Hc.
Qed.

Lemma step_return (s : sys) (i : nat) (ok : bool) (w : worker) (res : Result) :
  workers s !! i = Some w -> w_pc w = AtReturn res ->
  step (L_Worker i ok) s = set_worker i (returned w res) s.
Proof.
  intros Hw Hpc. simpl. unfold recordLoop_step, recordLoop_local.
  now rewrite Hw, Hpc.
Qed.

Lemma lookup_set_worker (s : sys) (i : nat) (w w' : worker) :
  workers s !! i = Some w -> workers (set_worker i w' s) !! i = Some w'.
Proof.
  intros Hw. simpl. apply list_lookup_insert_eq. now apply lookup_lt_Some in Hw.
Qed.

(** A worker that has settled on a result keeps it, whatever happens next:
    it writes no further buffer and does not go back into its loop. *)
Lemma settled_step (l : label) (s : sys) (i : nat) (w : worker) (res : Result) :
  workers s !! i = Some w -> settled w = Some res ->
  exists w', workers (step l s) !! i = Some w' /\ settled w' = Some res /\
             w_buffers w' = w_buffers w /\ w_wavPath w' = w_wavPath w.
Proof.
  intros Hw Hset.
  assert (Hkeep : forall s', workers s' = workers s ->
            exists w', workers s' !! i = Some w' /\ settled w' = Some res /\
                       w_buffers w' = w_buffers w /\ w_wavPath w' = w_wavPath w).
  { intros s' E. exists w. rewrite E. auto. }
  destruct l as [id cwd| | | |j|k ok]; simpl.
  - unfold Start. destruct (State_eqb _ _); simpl; [|now apply Hkeep].
    exists w. split; [|auto]. apply lookup_app_l_Some. exact Hw.
  - unfold Stop, request. destruct (running _); now apply Hkeep.
  - unfold Cancel, request. destruct (running _); now apply Hkeep.
  - unfold TogglePause. destruct (running _); [|now apply Hkeep].
    destruct (State_eqb _ _); now apply Hkeep.
  - destruct (caller_step_move j s) as [|c Hc Hpc|c d r Hc Hpc Hd Hch];
      try now apply Hkeep.
    apply Hkeep. destruct (c_cancel c); reflexivity.
  - destruct (decide (k = i)) as [->|Hne].
    + unfold recordLoop_step. rewrite Hw. unfold settled in Hset.
      destruct (w_pc w) as [| | | | | | | | | | |r|r|r|[d|] r|r|r] eqn:Hpc;
        try discriminate Hset; injection Hset as ->.
      * eexists. split; [apply (lookup_set_worker _ _ _ _ Hw)|].
        unfold recordLoop_local. rewrite Hpc. auto.
      * eexists. split; [apply (lookup_set_worker _ _ w); exact Hw|].
        unfold recordLoop_local. rewrite Hpc. auto.
      * eexists. split; [apply (lookup_set_worker _ _ _ _ Hw)|].
        unfold recordLoop_local. rewrite Hpc. auto.
      * destruct (chans s !! d) as [[x|]|];
          try (exists w; unfold settled; rewrite Hpc; auto; fail).
        eexists. split; [apply (lookup_set_worker _ _ w); exact Hw|].
        unfold recordLoop_local. rewrite Hpc. auto.
      * exists w. unfold settled. rewrite Hpc. auto.
      * eexists. split; [apply (lookup_set_worker _ _ _ _ Hw)|].
        unfold recordLoop_local. rewrite Hpc. auto.
      * eexists. split; [apply (lookup_set_worker _ _ _ _ Hw)|].
        unfold recordLoop_local. rewrite Hpc. unfold settled. rewrite Hpc. auto.
    + exists w. split; [|auto].
      destruct (recordLoop_step_move k ok s)
        as [|x r Hx Hpc|x r Hx Hpc|x r d Hx Hpc Hc|x r Hx Hpc|x Hx Hwork];
        simpl; rewrite ?list_lookup_insert_ne by exact Hne; exact Hw.
Qed.

Lemma settled_run (tr : list label) : forall (s : sys) (i : nat) (w : worker) (res : Result),
  workers s !! i = Some w -> settled w = Some res ->
  exists w', workers (run tr s) !! i = Some w' /\ settled w' = Some res /\
             w_buffers w' = w_buffers w /\ w_wavPath w' = w_wavPath w.
Proof.
  induction tr as [|l tr IH]; intros s i w res Hw Hset.
  - exists w. auto.
  - destruct (settled_step l s i w res Hw Hset) as (w1 & Hw1 & Hset1 & Hb1 & Hp1).
    destruct (IH (step l s) i w1 res Hw1 Hset1) as (w2 & Hw2 & Hset2 & Hb2 & Hp2).
    exists w2. simpl. repeat split; try assumption; congruence.
Qed.

(** ** Steps that change the state of the system *)

Lemma step_move (l : label) (s : sys) : step l s = s \/ move s (step l s).
Proof.
  destruct l as [id cwd| | | |j|i ok]; simpl.
  - destruct (State_eqb (state (rec s)) StateIdle) eqn:Hidle.
    + right. apply M_start. now apply State_eqb_eq.
    + left. unfold Start. now rewrite Hidle.
  - unfold Stop, request. destruct (running (state (rec s))) eqn:Hrun; simpl;
      [right; now apply (M_request s OpStop) | now left].
  - unfold Cancel, request. destruct (running (state (rec s))) eqn:Hrun; simpl;
      [right; now apply (M_request s OpCancel) | now left].
  - unfold TogglePause. destruct (running (state (rec s))) eqn:Hrun; simpl;
      [|now left].
    right. destruct (State_eqb _ StatePaused); simpl; now apply M_toggle.
  - destruct (caller_step_move j s) as [|c Hc Hpc|c d res Hc Hpc Hd Hch];
      [now left | right; now apply M_cancel | right; now apply M_receive].
  - destruct (recordLoop_step_move i ok s)
      as [|w res Hw Hpc|w res Hw Hpc|w res d Hw Hpc Hc|w res Hw Hpc|w Hw Hwork];
      [now left | right; now apply M_finish | right; now apply M_read
      | right; now apply M_send with (d := d) | right; now apply M_return
      | right; now apply M_local].
Qed.

(** ** What pending callers hold *)

Lemma callers_ok_move (s s' : sys) :
  wf s -> callers_ok s -> move s s' -> callers_ok s'.
Proof.
  intros Hwf Hok Hmove.
  destruct Hmove as [id cwd Hidle|o Hrun|st Hrun Hst|j c Hc Hpc|j c d res Hc Hpc Hd Hch
                     |i w res Hw Hpc|i w res Hw Hpc|i w res d Hw Hpc Hc
                     |i w res Hw Hpc|i ok w Hw Hwork];
    intros j' c' Hc'.
  - unfold Start in Hc' |- *. rewrite Hidle in Hc' |- *. simpl in Hc' |- *.
    destruct (Hok j' c' Hc') as [H1 H2]. split; [exact H1|].
    intros d Hd. specialize (H2 d Hd). rewrite List.length_app. lia.
  - simpl in Hc' |- *.
    apply lookup_app_Some in Hc' as [Hc' | [_ Hc']]; [now apply (Hok j')|].
    apply list_lookup_singleton_Some in Hc' as [_ <-]. simpl.
    rewrite (wf_stopCancel s Hwf), (wf_done s Hwf). split; [reflexivity|].
    intros d. apply last_id_lt.
  - simpl in Hc' |- *. now apply (Hok j').
  - assert (workers (match c_cancel c with Some x => cancel_ctx x s | None => s end)
            = workers s) as Hws by (destruct (c_cancel c); reflexivity).
    simpl in Hc' |- *. rewrite Hws.
    assert (callers (match c_cancel c with Some x => cancel_ctx x s | None => s end)
            = callers s) as Hcs by (destruct (c_cancel c); reflexivity).
    rewrite Hcs in Hc'.
    apply list_lookup_insert_Some in Hc' as [(<- & <- & _) | (_ & Hc')];
      [now apply (Hok j c) | now apply (Hok j')].
  - simpl in Hc' |- *.
    apply list_lookup_insert_Some in Hc' as [(<- & <- & _) | (_ & Hc')];
      [now apply (Hok j c) | now apply (Hok j')].
  - simpl in Hc' |- *. rewrite length_insert. now apply (Hok j').
  - simpl in Hc' |- *. rewrite length_insert. now apply (Hok j').
  - simpl in Hc' |- *. rewrite length_insert. now apply (Hok j').
  - simpl in Hc' |- *. rewrite length_insert. now apply (Hok j').
  - simpl in Hc' |- *. rewrite length_insert. now apply (Hok j').
Qed.

Lemma callers_ok_run (tempDir : string) (tr : list label) :
  callers_ok (run tr (init tempDir)).
Proof.
  induction tr as [|l tr IH] using rev_ind; [intros j c H; discriminate H|].
  rewrite run_snoc.
  destruct (step_move l (run tr (init tempDir))) as [-> | Hmove]; [exact IH|].
  eapply callers_ok_move; [apply wf_run, wf_init | exact IH | exact Hmove].
Qed.

(** ** One session, from its [Start] to the delivery of its result *)

Lemma active_is_last (s : sys) (k : nat) (wk : worker) :
  wf s -> workers s !! k = Some wk -> active wk = true ->
  List.length (workers s) = S k /\ done (rec s) = Some k /\
  stopCtx (rec s) = Some k /\ stopCancel (rec s) = Some k.
Proof.
  intros Hwf Hk Hact. pose proof (wf_last s Hwf k wk Hk Hact) as Hlen.
  rewrite (wf_done s Hwf), (wf_stopCtx s Hwf), (wf_stopCancel s Hwf), <- Hlen.
  auto.
Qed.

Lemma busy_has_active (s : sys) :
  wf s -> state (rec s) <> StateIdle ->
  exists i w, workers s !! i = Some w /\ active w = true.
Proof.
  intros Hwf Hbusy.
  destruct (List.filter active (workers s)) as [|w r] eqn:Hf.
  - exfalso. apply Hbusy, (wf_idle s Hwf). intros i w Hw.
    destruct (active w) eqn:Ha; [|reflexivity].
    assert (In w (List.filter active (workers s))) as Hin.
    { apply List.filter_In. split; [|exact Ha].
      apply list_elem_of_In, list_elem_of_lookup. eauto. }
    rewrite Hf in Hin. contradiction.
  - assert (In w (List.filter active (workers s))) as Hin by (rewrite Hf; now left).
    apply List.filter_In in Hin as [Hin Ha].
    apply list_elem_of_In, list_elem_of_lookup in Hin as [i Hi]. eauto.
Qed.

Lemma running_not_idle (st : State) : running st = true -> st <> StateIdle.
Proof. destruct st; simpl; intros H; try discriminate H; discriminate. Qed.

Lemma running_not_target (st : State) (o : op) : running st = true -> st <> target o.
Proof. destruct st, o; simpl; intros H; try discriminate H; discriminate. Qed.

(** How a step inside the loop settles on a result, reaches [done:], and
    reaches [enc.Close]. *)
Lemma local_settles (ok : bool) (s : sys) (w : worker) (res : Result) :
  settled w = None -> settled (recordLoop_local ok s w) = Some res ->
  (exists msg, res = failed w msg) \/
  (w_pc w = AtDone /\ state (rec s) = StateCanceled /\ res = cancelled_result) \/
  (w_pc w = AtEncClose /\ res = completed w).
Proof.
  unfold settled, recordLoop_local.
  destruct (w_pc w) eqn:Hpc; try discriminate; intros _;
    repeat match goal with
           | |- context [if State_eqb ?a ?b then _ else _] =>
               destruct (State_eqb a b) eqn:?
           | |- context [if ?b then _ else _] => destruct b
           end;
    simpl; rewrite ?Hpc; intros H; try discriminate H; injection H as <-;
    eauto.
  all: try (right; left; repeat split; now apply State_eqb_eq).
  all: try (right; right; split; reflexivity).
Qed.

Lemma local_keeps_settled (ok : bool) (s : sys) (w : worker) (res : Result) :
  working w = true -> settled w = Some res ->
  settled (recordLoop_local ok s w) = Some res.
Proof.
  unfold working, settled, recordLoop_local.
  destruct (w_pc w); try discriminate; intros _ H; exact H.
Qed.

Lemma local_to_done (ok : bool) (s : sys) (w : worker) :
  w_pc (recordLoop_local ok s w) = AtDone ->
  (w_pc w = AtLoopCanceled /\ state (rec s) = StateCanceled) \/
  (w_pc w = AtLoopCtx /\ stop_requested s = true).
Proof.
  unfold recordLoop_local.
  destruct (w_pc w) eqn:Hpc;
    repeat match goal with
           | |- context [if State_eqb ?a ?b then _ else _] =>
               destruct (State_eqb a b) eqn:?
           | |- context [if stop_requested ?x then _ else _] =>
               destruct (stop_requested x) eqn:?
           | |- context [if ?b then _ else _] => destruct b
           end;
    simpl; rewrite ?Hpc; intros H; try discriminate H.
  all: try (left; split; [reflexivity | now apply State_eqb_eq]).
  all: try (right; split; reflexivity).
Qed.

Lemma local_to_encclose (ok : bool) (s : sys) (w : worker) :
  w_pc (recordLoop_local ok s w) = AtEncClose ->
  w_pc w = AtDone /\ state (rec s) <> StateCanceled.
Proof.
  unfold recordLoop_local.
  destruct (w_pc w) eqn:Hpc;
    repeat match goal with
           | |- context [if State_eqb ?a ?b then _ else _] =>
               destruct (State_eqb a b) eqn:?
           | |- context [if ?b then _ else _] => destruct b
           end;
    simpl; rewrite ?Hpc; intros H; try discriminate H.
  split; [reflexivity | now apply State_eqb_neq].
Qed.

Lemma delivered_inactive (w : worker) (res : Result) :
  delivered w res -> active w = false /\ settled w = Some res.
Proof. unfold active, settled. intros [E|E]; rewrite E; auto. Qed.

(** *** The session across the steps of the callers *)

Lemma session_start (k : nat) (s : sys) (wk : worker) (id cwd : string) :
  wf s -> session k s wk -> state (rec s) = StateIdle ->
  session k (fst (Start id cwd s)) wk.
Proof.
  intros Hwf [Hw Hold Hst Hres Hret Hch Hctx Hdone Henc Hfin] Hidle.
  pose proof (proj1 (wf_idle s Hwf) Hidle k wk Hw) as Hina.
  pose proof (lookup_lt_Some _ _ _ Hw) as Hlt.
  unfold Start. rewrite Hidle. simpl.
  constructor; simpl.
  - now rewrite lookup_app_l.
  - intros i w Hi Hiw. rewrite lookup_app_l in Hiw by lia. now apply (Hold i).
  - intros j c _ _ Ha. congruence.
  - exact Hres.
  - exact Hret.
  - intros res. rewrite lookup_app_l by (rewrite (wf_chans s Hwf); exact Hlt).
    apply Hch.
  - intros _ Ha. congruence.
  - intros Hpc. unfold active in Hina. rewrite Hpc in Hina. discriminate.
  - intros Hpc. unfold active in Hina. rewrite Hpc in Hina. discriminate.
  - intros res Ha. congruence.
Qed.

Lemma session_request (k : nat) (s : sys) (wk : worker) (o : op) :
  wf s -> session k s wk -> running (state (rec s)) = true ->
  session k (add_caller (pending o s) (set_state (target o) s)) wk.
Proof.
  intros Hwf [Hw Hold Hst Hres Hret Hch Hctx Hdone Henc Hfin] Hrun.
  pose proof (running_not_idle _ Hrun) as Hbusy.
  assert (forall o', state (rec s) <> target o') as Hnt
    by (intros o'; now apply running_not_target).
  assert (state (rec s) <> StateStopping) as HnS by apply (Hnt OpStop).
  assert (state (rec s) <> StateCanceled) as HnC by apply (Hnt OpCancel).
  (* a caller that captures channel [k] now finds worker [k] active *)
  assert (done (rec s) = Some k -> active wk = true) as Hnew.
  { intros Hd. destruct (busy_has_active s Hwf Hbusy) as (i & w & Hi & Ha).
    pose proof (wf_last s Hwf i w Hi Ha) as Hlen.
    rewrite (wf_done s Hwf), <- Hlen in Hd. simpl in Hd. injection Hd as ->.
    congruence. }
  constructor; simpl.
  - exact Hw.
  - exact Hold.
  - intros j c Hc Hd Ha.
    apply lookup_app_Some in Hc as [Hc | [_ Hc]].
    + exfalso. apply (Hnt (c_op c)). now apply (Hst j c).
    + apply list_lookup_singleton_Some in Hc as [_ <-]. reflexivity.
  - intros j c res Hc Hd Hset.
    apply lookup_app_Some in Hc as [Hc | [_ Hc]]; [now apply (Hres j c)|].
    apply list_lookup_singleton_Some in Hc as [_ <-]. simpl in Hd |- *.
    specialize (Hnew Hd).
    destruct (Hfin res Hnew Hset) as [H1 H2].
    destruct (Canceled res) eqn:Hcan; [exfalso; now apply HnC, H1|].
    destruct (Err res) eqn:Herr; [|exfalso; now apply HnS, H2].
    destruct o; simpl; [exact Hcan | right; rewrite Herr; discriminate].
  - intros j c res Hc Hd Hpc.
    apply lookup_app_Some in Hc as [Hc | [_ Hc]]; [now apply (Hret j c)|].
    apply list_lookup_singleton_Some in Hc as [_ <-]. discriminate Hpc.
  - exact Hch.
  - intros _ _. destruct o; auto.
  - intros _. destruct o; auto.
  - intros Hpc. exfalso. now apply HnS, Henc.
  - intros res Ha Hset. destruct (Hfin res Ha Hset) as [H1 H2]. split.
    + intros Hcan. exfalso. now apply HnC, H1.
    + intros Hcan Herr. exfalso. now apply HnS, H2.
Qed.

Lemma session_toggle (k : nat) (s : sys) (wk : worker) (st : State) :
  session k s wk -> running (state (rec s)) = true ->
  session k (set_state st s) wk.
Proof.
  intros [Hw Hold Hst Hres Hret Hch Hctx Hdone Henc Hfin] Hrun.
  assert (forall o', state (rec s) <> target o') as Hnt
    by (intros o'; now apply running_not_target).
  assert (state (rec s) <> StateStopping) as HnS by apply (Hnt OpStop).
  assert (state (rec s) <> StateCanceled) as HnC by apply (Hnt OpCancel).
  constructor; simpl; try assumption.
  - intros j c Hc Hd Ha. exfalso. apply (Hnt (c_op c)). now apply (Hst j c).
  - intros Hx Ha. exfalso. destruct (Hctx Hx Ha); contradiction.
  - intros Hpc. exfalso. destruct (Hdone Hpc); contradiction.
  - intros Hpc. exfalso. now apply HnS, Henc.
  - intros res Ha Hset. destruct (Hfin res Ha Hset) as [H1 H2]. split.
    + intros Hcan. exfalso. now apply HnC, H1.
    + intros Hcan Herr. exfalso. now apply HnS, H2.
Qed.

Lemma session_cancel (k : nat) (s : sys) (wk : worker) (j : nat) (c : caller) :
  callers_ok s -> session k s wk ->
  callers s !! j = Some c -> c_pc c = CancelPending ->
  session k
    (set_caller j (moved c Waiting)
       (match c_cancel c with Some x => cancel_ctx x s | None => s end)) wk.
Proof.
  intros Hok [Hw Hold Hst Hres Hret Hch Hctx Hdone Henc Hfin] Hc Hpc.
  set (s1 := match c_cancel c with Some x => cancel_ctx x s | None => s end).
  assert (rec s1 = rec s /\ workers s1 = workers s /\ chans s1 = chans s /\
          callers s1 = callers s) as (Hr & Hws & Hcs & Hcl)
    by (subst s1; destruct (c_cancel c); auto).
  assert (ctxs s1 !! k = Some true ->
          ctxs s !! k = Some true \/ c_cancel c = Some k) as Hcx.
  { subst s1. destruct (c_cancel c) as [x|]; simpl; [|auto].
    intros H. apply list_lookup_insert_Some in H as [(<- & _ & _) | (_ & H)]; auto. }
  assert (forall j' c', <[j := moved c Waiting]> (callers s) !! j' = Some c' ->
            exists c0, callers s !! j' = Some c0 /\ c_op c' = c_op c0 /\
                       c_done c' = c_done c0 /\
                       (forall r, c_pc c' = CallerReturned r -> c_pc c0 = CallerReturned r))
    as Hcal.
  { intros j' c' H.
    apply list_lookup_insert_Some in H as [(<- & <- & _) | (_ & H)].
    - exists c. repeat split; auto. discriminate.
    - exists c'. auto. }
  constructor; simpl; rewrite ?Hr, ?Hws, ?Hcs, ?Hcl; try assumption.
  - intros j' c' H Hd Ha. destruct (Hcal j' c' H) as (c0 & H0 & -> & Hd0 & _).
    rewrite Hd0 in Hd. now apply (Hst j' c0).
  - intros j' c' res H Hd Hset. destruct (Hcal j' c' H) as (c0 & H0 & -> & Hd0 & _).
    rewrite Hd0 in Hd. now apply (Hres j' c0).
  - intros j' c' res H Hd Hp. destruct (Hcal j' c' H) as (c0 & H0 & _ & Hd0 & Hp0).
    rewrite Hd0 in Hd. apply (Hret j' c0); auto.
  - intros Hx Ha. destruct (Hcx Hx) as [Hx' | Hx']; [now apply Hctx|].
    destruct (Hok j c Hc) as [Heq _]. rewrite Heq in Hx'.
    rewrite (Hst j c Hc Hx' Ha). destruct (c_op c); auto.
Qed.

Lemma session_receive (k : nat) (s : sys) (wk : worker) (j d : nat) (c : caller)
    (res : Result) :
  session k s wk ->
  callers s !! j = Some c -> c_pc c = Waiting -> c_done c = Some d ->
  chans s !! d = Some (Some res) ->
  session k (set_caller j (moved c (CallerReturned res)) (set_chan d None s)) wk.
Proof.
  intros [Hw Hold Hst Hres Hret Hch Hctx Hdone Henc Hfin] Hc Hpc Hd Hcd.
  constructor; simpl; try assumption.
  - intros j' c' H Hd' Ha.
    apply list_lookup_insert_Some in H as [(<- & <- & _) | (_ & H)];
      [now apply (Hst j c) | now apply (Hst j' c')].
  - intros j' c' r H Hd' Hset.
    apply list_lookup_insert_Some in H as [(<- & <- & _) | (_ & H)];
      [now apply (Hres j c) | now apply (Hres j' c')].
  - intros j' c' r H Hd' Hp.
    apply list_lookup_insert_Some in H as [(<- & <- & _) | (_ & H)];
      [|now apply (Hret j' c')].
    simpl in Hd', Hp. injection Hp as <-. apply Hch. congruence.
  - intros r H.
    apply list_lookup_insert_Some in H as [(<- & H & _) | (_ & H)];
      [discriminate H | now apply Hch].
Qed.

(** *** The session across the steps of the workers *)

(** A step of another worker: it is not an earlier one (they have
    returned), so worker [k] is not the newest and is not active. *)
Lemma session_other_worker (k : nat) (s s1 : sys) (wk : worker) (i : nat)
    (w w' : worker) :
  wf s -> session k s wk ->
  workers s !! i = Some w -> i <> k -> (forall r, w_pc w <> Exited r) ->
  callers s1 = callers s -> ctxs s1 = ctxs s -> workers s1 = workers s ->
  (forall r, chans s1 !! k = Some (Some r) -> chans s !! k = Some (Some r)) ->
  (active wk = true -> state (rec s1) = state (rec s)) ->
  session k (set_worker i w' s1) wk.
Proof.
  intros Hwf [Hw Hold Hst Hres Hret Hch Hctx Hdone Henc Hfin] Hi Hne Hlive
    Hcl Hcx Hws Hcs Hstate.
  assert (k < i)%nat as Hki.
  { destruct (Nat.lt_trichotomy i k) as [Hlt | [-> | Hgt]]; [|congruence|exact Hgt].
    destruct (Hold i w Hlt Hi) as [r Hr]. now apply Hlive in Hr. }
  constructor; simpl; rewrite ?Hcl, ?Hcx, ?Hws.
  - now rewrite list_lookup_insert_ne.
  - intros i' x Hlt Hx. rewrite list_lookup_insert_ne in Hx by lia.
    now apply (Hold i').
  - intros j c Hc Hd Ha. rewrite (Hstate Ha). now apply (Hst j c).
  - exact Hres.
  - exact Hret.
  - intros r Hr. now apply Hch, Hcs.
  - intros Hx Ha. rewrite (Hstate Ha). now apply Hctx.
  - intros Hpc. assert (active wk = true) as Ha
      by (unfold active; now rewrite Hpc).
    rewrite (Hstate Ha). now apply Hdone.
  - intros Hpc. assert (active wk = true) as Ha
      by (unfold active; now rewrite Hpc).
    rewrite (Hstate Ha). now apply Henc.
  - intros r Ha Hset. rewrite (Hstate Ha). now apply Hfin.
Qed.

(** A step of worker [k] that leaves it inactive and on the same result,
    and changes nothing else but, possibly, a channel that is not its own
    or is filled with its result. *)
Lemma session_own_tail (k : nat) (s s1 : sys) (wk wk' : worker) (res : Result) :
  session k s wk ->
  settled wk = Some res -> settled wk' = Some res -> active wk' = false ->
  (forall r, delivered wk r -> delivered wk' r) ->
  callers s1 = callers s -> ctxs s1 = ctxs s -> workers s1 = workers s ->
  (forall r, chans s1 !! k = Some (Some r) ->
     chans s !! k = Some (Some r) \/ delivered wk' r) ->
  session k (set_worker k wk' s1) wk'.
Proof.
  intros [Hw Hold Hst Hres Hret Hch Hctx Hdone Henc Hfin] Hset Hset' Hina Hdel
    Hcl Hcx Hws Hcs.
  constructor; simpl; rewrite ?Hcl, ?Hcx, ?Hws.
  - apply list_lookup_insert_eq. now apply lookup_lt_Some in Hw.
  - intros i' x Hlt Hx. rewrite list_lookup_insert_ne in Hx by lia.
    now apply (Hold i').
  - intros j c _ _ Ha. congruence.
  - intros j c r Hc Hd Hr. apply (Hres j c r Hc Hd). congruence.
  - intros j c r Hc Hd Hp. apply Hdel. now apply (Hret j c r Hc Hd).
  - intros r Hr. destruct (Hcs r Hr) as [H|H]; [apply Hdel, Hch, H | exact H].
  - intros _ Ha. congruence.
  - intros Hpc. unfold active in Hina. rewrite Hpc in Hina. discriminate.
  - intros Hpc. unfold active in Hina. rewrite Hpc in Hina. discriminate.
  - intros r Ha. congruence.
Qed.

Lemma session_finish (k : nat) (s : sys) (wk : worker) (i : nat) (w : worker)
    (res : Result) :
  wf s -> session k s wk ->
  workers s !! i = Some w -> w_pc w = AtFinish res ->
  exists wk', session k (set_worker i (at_pc (AtSend res) w) (set_state StateIdle s)) wk'.
Proof.
  intros Hwf Hss Hi Hpc.
  assert (active w = true) as Hact by (unfold active; now rewrite Hpc).
  destruct (decide (i = k)) as [->|Hne].
  - assert (w = wk) as -> by (pose proof (ss_worker _ _ _ Hss); congruence).
    exists (at_pc (AtSend res) wk).
    apply session_own_tail with (s := s) (wk := wk) (res := res); auto;
      first [ unfold settled; now rewrite Hpc
            | intros r [E|E]; rewrite Hpc in E; discriminate E
            | intros r Hr; left; exact Hr ].
  - exists wk.
    assert (forall r, w_pc w <> Exited r) as Hlive
      by (intros r; rewrite Hpc; discriminate).
    assert (active wk = true -> state (rec (set_state StateIdle s)) = state (rec s))
      as Hstate.
    { intros Ha. exfalso. apply Hne.
      pose proof (wf_last s Hwf i w Hi Hact).
      pose proof (wf_last s Hwf k wk (ss_worker _ _ _ Hss) Ha). lia. }
    apply session_other_worker with (s := s) (w := w); auto.
Qed.

Lemma session_read (k : nat) (s : sys) (wk : worker) (i : nat) (w : worker)
    (res : Result) :
  wf s -> session k s wk ->
  workers s !! i = Some w -> w_pc w = AtSend res ->
  exists wk', session k (set_worker i (at_pc (Sending (done (rec s)) res) w) s) wk'.
Proof.
  intros Hwf Hss Hi Hpc.
  destruct (decide (i = k)) as [->|Hne].
  - assert (w = wk) as -> by (pose proof (ss_worker _ _ _ Hss); congruence).
    exists (at_pc (Sending (done (rec s)) res) wk).
    apply session_own_tail with (s := s) (wk := wk) (res := res); auto;
      first [ unfold settled; now rewrite Hpc
            | intros r [E|E]; rewrite Hpc in E; discriminate E ].
  - exists wk.
    assert (forall r, w_pc w <> Exited r) as Hlive
      by (intros r; rewrite Hpc; discriminate).
    apply session_other_worker with (s := s) (w := w); auto.
Qed.

Lemma session_send (k : nat) (s : sys) (wk : worker) (i d : nat) (w : worker)
    (res : Result) :
  wf s -> session k s wk ->
  workers s !! i = Some w -> w_pc w = Sending (Some d) res ->
  chans s !! d = Some None ->
  exists wk', session k (set_worker i (at_pc (AtReturn res) w) (set_chan d (Some res) s)) wk'.
Proof.
  intros Hwf Hss Hi Hpc Hcd.
  destruct (decide (i = k)) as [->|Hne].
  - assert (w = wk) as -> by (pose proof (ss_worker _ _ _ Hss); congruence).
    exists (at_pc (AtReturn res) wk).
    apply session_own_tail with (s := s) (wk := wk) (res := res); auto;
      first [ unfold settled; now rewrite Hpc
            | intros r [E|E]; rewrite Hpc in E; discriminate E
            | idtac ].
    intros r Hr. simpl in Hr.
    apply list_lookup_insert_Some in Hr as [(<- & Hr & _) | (_ & Hr)];
      [right; left; simpl; congruence | left; exact Hr].
  - exists wk.
    assert (forall r, w_pc w <> Exited r) as Hlive
      by (intros r; rewrite Hpc; discriminate).
    assert (forall r, chans (set_chan d (Some res) s) !! k = Some (Some r) ->
                      chans s !! k = Some (Some r)) as Hcs.
    { intros r Hr. simpl in Hr.
      apply list_lookup_insert_Some in Hr as [(<- & _ & _) | (_ & Hr)];
        [|exact Hr].
      (* a worker sends on its own channel or a newer one: worker [i] would
         be an earlier one *)
      exfalso. destruct (wf_sending s Hwf i w _ _ Hi Hpc) as (d' & Hd' & Hle & _).
      injection Hd' as <-.
      assert (i < d)%nat as Hid by lia.
      destruct (ss_old _ _ _ Hss i w Hid Hi) as [r' Hr']. congruence. }
    apply session_other_worker with (s := s) (w := w); auto.
Qed.

Lemma session_return (k : nat) (s : sys) (wk : worker) (i : nat) (w : worker)
    (res : Result) :
  wf s -> session k s wk ->
  workers s !! i = Some w -> w_pc w = AtReturn res ->
  exists wk', session k (set_worker i (returned w res) s) wk'.
Proof.
  intros Hwf Hss Hi Hpc.
  destruct (decide (i = k)) as [->|Hne].
  - assert (w = wk) as -> by (pose proof (ss_worker _ _ _ Hss); congruence).
    exists (returned wk res).
    apply session_own_tail with (s := s) (wk := wk) (res := res); auto;
      first [ unfold settled; now rewrite Hpc | idtac ].
    intros r [E|E]; rewrite Hpc in E; [|discriminate E].
    injection E as <-. right. reflexivity.
  - exists wk.
    assert (forall r, w_pc w <> Exited r) as Hlive
      by (intros r; rewrite Hpc; discriminate).
    apply session_other_worker with (s := s) (w := w); auto.
Qed.

Lemma session_local (k : nat) (s : sys) (wk : worker) (i : nat) (ok : bool)
    (w : worker) :
  wf s -> session k s wk ->
  workers s !! i = Some w -> working w = true ->
  exists wk', session k (set_worker i (recordLoop_local ok s w) s) wk'.
Proof.
  intros Hwf Hss Hi Hwork.
  pose proof (working_active w Hwork) as Hact.
  destruct (decide (i = k)) as [->|Hne].
  - destruct Hss as [Hw Hold Hst Hres Hret Hch Hctx Hdone Henc Hfin].
    assert (w = wk) as -> by congruence.
    destruct (recordLoop_local_active ok s wk Hwork) as [Hact' _].
    destruct (active_is_last s k wk Hwf Hw Hact) as (_ & _ & HstopCtx & _).
    (* the result the step settles on, if it does *)
    assert (Hnew : forall r, settled (recordLoop_local ok s wk) = Some r ->
              settled wk = Some r \/
              (settled wk = None /\
               ((exists msg, r = failed wk msg) \/
                (w_pc wk = AtDone /\ state (rec s) = StateCanceled /\
                 r = cancelled_result) \/
                (w_pc wk = AtEncClose /\ r = completed wk)))).
    { intros r Hr. destruct (settled wk) as [r0|] eqn:Hs0.
      - left. rewrite (local_keeps_settled ok s wk r0 Hwork Hs0) in Hr. exact Hr.
      - right. split; [reflexivity|]. exact (local_settles ok s wk r Hs0 Hr). }
    exists (recordLoop_local ok s wk).
    constructor; simpl.
    + apply list_lookup_insert_eq. now apply lookup_lt_Some in Hw.
    + intros i' x Hlt Hx. rewrite list_lookup_insert_ne in Hx by lia.
      now apply (Hold i').
    + intros j c Hc Hd _. now apply (Hst j c).
    + intros j c r Hc Hd Hset'.
      pose proof (Hst j c Hc Hd Hact) as Hstate.
      destruct (Hnew r Hset') as [Hs0 | (_ & [[msg ->] | [(Hpc & Hcan & ->) | (Hpc & ->)]])].
      * now apply (Hres j c).
      * destruct (c_op c); simpl; [reflexivity | right; discriminate].
      * rewrite Hcan in Hstate. destruct (c_op c); simpl in *;
          [discriminate | now left].
      * rewrite (Henc Hpc) in Hstate. destruct (c_op c); simpl in *;
          [reflexivity | discriminate].
    + intros j c r Hc Hd Hp. pose proof (Hret j c r Hc Hd Hp) as Hex.
      apply delivered_inactive in Hex as [Hex _]. congruence.
    + intros r Hr. pose proof (Hch r Hr) as Hex.
      apply delivered_inactive in Hex as [Hex _]. congruence.
    + intros Hx _. now apply Hctx.
    + intros Hpc'.
      destruct (local_to_done ok s wk Hpc') as [[_ Hcan] | [_ Hreq]]; [auto|].
      apply Hctx; [|exact Hact].
      unfold stop_requested in Hreq. rewrite HstopCtx in Hreq.
      destruct (ctxs s !! k) as [[|]|]; simpl in Hreq; congruence.
    + intros Hpc'.
      destruct (local_to_encclose ok s wk Hpc') as [Hd HnC].
      destruct (Hdone Hd); [assumption | contradiction].
    + intros r _ Hset'.
      destruct (Hnew r Hset') as [Hs0 | (_ & [[msg ->] | [(Hpc & Hcan & ->) | (Hpc & ->)]])];
        simpl.
      * now apply Hfin.
      * split; [discriminate | intros _ H; discriminate H].
      * split; [auto | discriminate].
      * split; [discriminate | intros _ _; now apply Henc].
  - exists wk.
    assert (forall r, w_pc w <> Exited r) as Hlive.
    { intros r Hr. unfold active in Hact. rewrite Hr in Hact. discriminate. }
    apply session_other_worker with (s := s) (w := w); auto.
Qed.

Lemma session_move (k : nat) (s s' : sys) (wk : worker) :
  wf s -> callers_ok s -> session k s wk -> move s s' ->
  exists wk', session k s' wk'.
Proof.
  intros Hwf Hok Hss Hmove.
  destruct Hmove as [id cwd Hidle|o Hrun|st Hrun Hst|j c Hc Hpc|j c d res Hc Hpc Hd Hch
                     |i w res Hw Hpc|i w res Hw Hpc|i w res d Hw Hpc Hc
                     |i w res Hw Hpc|i ok w Hw Hwork].
  - exists wk. now apply session_start.
  - exists wk. now apply session_request.
  - exists wk. now apply session_toggle.
  - exists wk. now apply session_cancel.
  - exists wk. now apply session_receive.
  - now apply session_finish with (wk := wk).
  - now apply session_read with (wk := wk).
  - now apply session_send with (wk := wk).
  - now apply session_return with (wk := wk).
  - now apply session_local with (wk := wk).
Qed.

(** *** The result a caller receives *)

Lemma quiescent_idle (s : sys) :
  wf s -> (forall i w, workers s !! i = Some w -> exists r, w_pc w = Exited r) ->
  state (rec s) = StateIdle.
Proof.
  intros Hwf Hq. apply (wf_idle s Hwf). intros i w Hw.
  destruct (Hq i w Hw) as [r Hr]. unfold active. now rewrite Hr.
Qed.

Lemma session_begins (s : sys) (id cwd : string) :
  wf s -> callers_ok s ->
  (forall i w, workers s !! i = Some w -> exists r, w_pc w = Exited r) ->
  session (List.length (workers s)) (step (L_Start id cwd) s)
    (spawn (generateTempWav (rec s) id cwd)).
Proof.
  intros Hwf Hok Hq. pose proof (quiescent_idle s Hwf Hq) as Hidle.
  simpl. unfold Start. rewrite Hidle. simpl.
  assert (forall j c, callers s !! j = Some c ->
            c_done c <> Some (List.length (workers s))) as Hnone.
  { intros j c Hc Hd. destruct (Hok j c Hc) as [_ Hlt].
    specialize (Hlt _ Hd). lia. }
  constructor; simpl.
  - rewrite lookup_app_r, Nat.sub_diag by lia. reflexivity.
  - intros i w Hlt Hw. rewrite lookup_app_l in Hw by exact Hlt. now apply (Hq i).
  - intros j c Hc Hd. now apply Hnone in Hc.
  - intros j c res Hc Hd. now apply Hnone in Hc.
  - intros j c res Hc Hd. now apply Hnone in Hc.
  - intros res. rewrite <- (wf_chans s Hwf).
    rewrite lookup_app_r, Nat.sub_diag by lia. discriminate.
  - rewrite <- (wf_ctxs s Hwf).
    rewrite lookup_app_r, Nat.sub_diag by lia. discriminate.
  - discriminate.
  - discriminate.
  - discriminate.
Qed.

Lemma session_run (tempDir : string) (tr0 tr : list label) (id cwd : string) :
  (forall i w, workers (run tr0 (init tempDir)) !! i = Some w ->
     exists r, w_pc w = Exited r) ->
  exists wk,
    session (List.length (workers (run tr0 (init tempDir))))
      (run (tr0 ++ L_Start id cwd :: tr) (init tempDir)) wk.
Proof.
  intros Hq. induction tr as [|l tr IH] using rev_ind.
  - eexists. rewrite run_snoc.
    apply session_begins; [apply wf_run, wf_init | apply callers_ok_run | exact Hq].
  - destruct IH as [wk Hss].
    replace (tr0 ++ L_Start id cwd :: tr ++ [l])%list
      with ((tr0 ++ L_Start id cwd :: tr) ++ [l])%list
      by (now rewrite <- List.app_assoc).
    rewrite run_snoc.
    destruct (step_move l (run (tr0 ++ L_Start id cwd :: tr) (init tempDir)))
      as [-> | Hmove]; [eauto|].
    eapply session_move; [apply wf_run, wf_init | apply callers_ok_run
                         | exact Hss | exact Hmove].
Qed.

(** A [Stop] or [Cancel] accepted while worker [k] is active captures the
    context and the channel of its session: it is a caller with
    [c_done = Some k]. *)
Lemma request_captures_session (s : sys) (k : nat) (wk : worker) (o : op) :
  wf s -> workers s !! k = Some wk -> active wk = true ->
  running (state (rec s)) = true ->
  request o s =
  (add_caller {| c_op := o; c_cancel := Some k; c_done := Some k;
                 c_pc := CancelPending |} (set_state (target o) s), None).
Proof.
  intros Hwf Hw Hact Hrun.
  destruct (active_is_last s k wk Hwf Hw Hact) as (_ & Hd & _ & Hc).
  unfold request. rewrite Hrun, Hd, Hc. destruct o; reflexivity.
Qed.

(** While the worker of a session is active, [r.done] is the channel of the
    session and it is empty. *)
Lemma session_channel_empty (k : nat) (s : sys) (wk : worker) :
  wf s -> session k s wk -> active wk = true ->
  done (rec s) = Some k /\ chans s !! k = Some None.
Proof.
  intros Hwf Hss Hact. pose proof (ss_worker _ _ _ Hss) as Hw.
  destruct (active_is_last s k wk Hwf Hw Hact) as (Hlen & Hd & _).
  split; [exact Hd|].
  destruct (chans s !! k) as [[r|]|] eqn:Hc.
  - apply (ss_chan _ _ _ Hss), delivered_inactive in Hc as [Hc _]. congruence.
  - reflexivity.
  - apply lookup_ge_None in Hc. rewrite (wf_chans s Hwf), Hlen in Hc. lia.
Qed.

(** C4 (amended). When [enc.Write] fails, the worker closes the encoder, the
    file and the stream and is left with [os.Remove] and [finish]: in every
    interleaving from there it keeps the result that carries the error, so
    it never reads or writes another buffer.  Taking its next steps with the
    channel [r.done] empty, it calls [os.Remove] (the file is gone unless the
    system refuses), sets [StateIdle], puts the result in the channel,
    terminates PortAudio and returns.  When [stream.Read] fails, the worker
    goes back to the top of its loop and the session goes on.  In every
    reachable state, a worker that has settled on a result with an error has
    closed its stream and its file, and once it is in [finish] its temporary
    file is on disk exactly when [os.Remove] failed; and in a session started
    when every earlier worker had returned, [r.done] is the channel of the
    session and is empty as long as its worker has not called [finish]. *)
Theorem write_failure_ends_session (s : sys) (i : nat) (w : worker) :
  workers s !! i = Some w ->
  (w_pc w = AtWrite ->
   let res := failed w "wav write failed" in
   step (L_Worker i false) s
     = set_worker i (at_pc (AtRemove res) (close_stream (close_file w))) s /\
   (forall tr, exists w',
      workers (run (L_Worker i false :: tr) s) !! i = Some w' /\
      settled w' = Some res /\ w_buffers w' = w_buffers w) /\
   (forall rm d, done (rec s) = Some d -> chans s !! d = Some None ->
      let s' := run (map (L_Worker i) [false; rm; true; true; true; true]) s in
      state (rec s') = StateIdle /\
      chans s' !! d = Some (Some res) /\
      option_map (fun x => (w_pc x, w_pa x, w_stream x, w_file x, w_onDisk x))
        (workers s' !! i)
        = Some (Exited res, false, false, false, if rm then false else w_onDisk w))) /\
  (w_pc w = AtRead ->
   step (L_Worker i false) s = set_worker i (at_pc AtLoopCanceled w) s) /\
  (forall tempDir tr k x res,
     workers (run tr (init tempDir)) !! k = Some x ->
     settled x = Some res -> Err res <> None ->
     w_stream x = false /\ w_file x = false /\
     Canceled res = false /\ WavPath res = w_wavPath x /\
     (working x = false -> w_onDisk x = w_removeFailed x)) /\
  (forall tempDir tr0 tr id cwd wk,
     (forall k x, workers (run tr0 (init tempDir)) !! k = Some x ->
        exists r, w_pc x = Exited r) ->
     workers (run (tr0 ++ L_Start id cwd :: tr) (init tempDir))
       !! List.length (workers (run tr0 (init tempDir))) = Some wk ->
     working wk = true ->
     done (rec (run (tr0 ++ L_Start id cwd :: tr) (init tempDir)))
       = Some (List.length (workers (run tr0 (init tempDir)))) /\
     chans (run (tr0 ++ L_Start id cwd :: tr) (init tempDir))
       !! List.length (workers (run tr0 (init tempDir))) = Some None).
Proof.
  intros Hw. split; [|split; [|split]].
  - intros Hpc res.
    set (w1 := at_pc (AtRemove res) (close_stream (close_file w))).
    assert (step (L_Worker i false) s = set_worker i w1 s) as Hs1.
    { rewrite (step_local s i false w Hw) by (unfold working; now rewrite Hpc).
      unfold recordLoop_local. now rewrite Hpc. }
    split; [exact Hs1|]. split.
    + intros tr. cbn [run fold_left]. fold (run tr (step (L_Worker i false) s)).
      rewrite Hs1.
      destruct (settled_run tr (set_worker i w1 s) i w1 res
                  (lookup_set_worker _ _ _ _ Hw) eq_refl) as (w' & Hw' & Hset & Hb & _).
      exists w'. auto.
    + intros rm d Hd Hc s'. subst s'.
      cbn [map run fold_left]. rewrite Hs1.
      set (s1 := set_worker i w1 s).
      assert (Hw1 : workers s1 !! i = Some w1) by apply (lookup_set_worker _ _ _ _ Hw).
      rewrite (step_local s1 i rm w1 Hw1 eq_refl).
      set (w2 := recordLoop_local rm s1 w1).
      set (s2 := set_worker i w2 s1).
      assert (Hw2 : workers s2 !! i = Some w2) by apply (lookup_set_worker _ _ _ _ Hw1).
      rewrite (step_finish s2 i true w2 res Hw2 eq_refl).
      set (s3 := set_worker i (at_pc (AtSend res) w2) (set_state StateIdle s2)).
      assert (Hw3 : workers s3 !! i = Some (at_pc (AtSend res) w2))
        by apply (lookup_set_worker (set_state StateIdle s2) _ _ _ Hw2).
      rewrite (step_read s3 i true _ res Hw3 eq_refl).
      change (done (rec s3)) with (done (rec s)). rewrite Hd.
      set (w4 := at_pc (Sending (Some d) res) (at_pc (AtSend res) w2)).
      set (s4 := set_worker i w4 s3).
      assert (Hw4 : workers s4 !! i = Some w4) by apply (lookup_set_worker _ _ _ _ Hw3).
      assert (Hc4 : chans s4 !! d = Some None) by exact Hc.
      rewrite (step_send s4 i d true w4 res Hw4 eq_refl Hc4).
      set (w5 := at_pc (AtReturn res) w4).
      set (s5 := set_worker i w5 (set_chan d (Some res) s4)).
      assert (Hw5 : workers s5 !! i = Some w5)
        by apply (lookup_set_worker (set_chan d (Some res) s4) _ _ _ Hw4).
      rewrite (step_return s5 i true w5 res Hw5 eq_refl).
      split; [reflexivity|]. split.
      * cbn [chans set_worker]. unfold s5. cbn [chans set_worker set_chan].
        apply list_lookup_insert_eq. now apply lookup_lt_Some in Hc4.
      * rewrite (lookup_set_worker _ _ _ _ Hw5). destruct rm; reflexivity.
  - intros Hpc.
    rewrite (step_local s i false w Hw) by (unfold working; now rewrite Hpc).
    unfold recordLoop_local. now rewrite Hpc.
  - intros tempDir tr k x res Hx Hset Herr.
    destruct (holds_run tempDir tr k x Hx) as [_ H].
    unfold settled in Hset. unfold working.
    assert (Hout : outcome x res -> Canceled res = false /\ WavPath res = w_wavPath x /\
                                    w_onDisk x = w_removeFailed x).
    { intros [[-> ?] | [[[msg ->] ?] | [-> ?]]]; simpl in *; try congruence; auto. }
    destruct (w_pc x); try discriminate Hset; injection Hset as ->.
    + destruct H as (_ & Hs & Hf & _ & _ & [-> | [msg ->]]); simpl in *;
        [congruence|]. repeat split; auto. discriminate.
    + destruct H as (Hs & Hf & Ho). destruct (Hout Ho) as (? & ? & ?). auto 6.
    + destruct H as (Hs & Hf & Ho). destruct (Hout Ho) as (? & ? & ?). auto 6.
    + destruct H as (Hs & Hf & Ho). destruct (Hout Ho) as (? & ? & ?). auto 6.
    + destruct H as (Hs & Hf & Ho). destruct (Hout Ho) as (? & ? & ?). auto 6.
    + destruct H as (_ & Hs & Hf & Ho). destruct (Hout Ho) as (? & ? & ?). auto 6.
  - intros tempDir tr0 tr id cwd wk Hq Hwk Hwork.
    destruct (session_run tempDir tr0 tr id cwd Hq) as [wk' Hss].
    assert (wk' = wk) as -> by (pose proof (ss_worker _ _ _ Hss); congruence).
    apply (session_channel_empty _ _ _ (wf_run _ _ (wf_init tempDir)) Hss).
    apply working_active, Hwork.
Qed.

(** An instance: the first [enc.Write] of a session fails, and the worker
    goes on to its return. *)
Lemma write_failure_ends_session_witness :
  option_map w_pc (workers (run to_first_write (init "tmp")) !! 0%nat)
    = Some AtWrite /\
  state (rec (run (map (L_Worker 0) [false; true; true; true; true; true])
                (run to_first_write (init "tmp")))) = StateIdle /\
  chans (run (map (L_Worker 0) [false; true; true; true; true; true])
           (run to_first_write (init "tmp"))) !! 0%nat
    = Some (Some {| WavPath := generateTempWav (New "tmp") sample_id "";
                    Canceled := false; Err := Some "wav write failed" |}) /\
  option_map (fun x => (w_pc x, w_pa x, w_stream x, w_file x, w_onDisk x))
    (workers (run (map (L_Worker 0) [false; true; true; true; true; true])
                (run to_first_write (init "tmp"))) !! 0%nat)
    = Some (Exited {| WavPath := generateTempWav (New "tmp") sample_id "";
                      Canceled := false; Err := Some "wav write failed" |},
            false, false, false, false).
Proof.
  split; [vm_compute; reflexivity|].
  destruct (workers (run to_first_write (init "tmp")) !! 0%nat) as [w|] eqn:Hw;
    [|vm_compute in Hw; discriminate Hw].
  assert (w_pc w = AtWrite /\ w_wavPath w = generateTempWav (New "tmp") sample_id "")
    as [Hpc Hpath]
    by (vm_compute in Hw; injection Hw as <-; split; reflexivity).
  assert (Hd : done (rec (run to_first_write (init "tmp"))) = Some 0%nat)
    by (vm_compute; reflexivity).
  assert (Hc : chans (run to_first_write (init "tmp")) !! 0%nat = Some None)
    by (vm_compute; reflexivity).
  destruct (write_failure_ends_session (run to_first_write (init "tmp")) 0 w Hw)
    as (Hwrite & _).
  destruct (Hwrite Hpc) as (_ & _ & Hrun).
  destruct (Hrun true 0%nat Hd Hc) as (H1 & H2 & H3).
  unfold failed in H2, H3. rewrite Hpath in H2, H3.
  split; [exact H1|]. split; [exact H2 | exact H3].
Defined.

(** C3, as stated, fails for [Cancel]: a [Cancel] accepted while the worker
    is about to encode a buffer returns, when that [enc.Write] fails, a result
    with [Canceled == false], the path of the temporary file and the error;
    the same happens when [Cancel] meets a failing [portaudio.Initialize]. *)
Lemma cancel_returns_failure :
  option_map (fun c => (c_op c, c_pc c))
    (callers (run cancel_while_write_fails (init "tmp")) !! 0%nat)
  = Some (OpCancel,
          CallerReturned
            {| WavPath := generateTempWav (New "tmp") sample_id "";
               Canceled := false; Err := Some "wav write failed" |}) /\
  option_map (fun c => (c_op c, c_pc c))
    (callers (run cancel_while_init_fails (init "tmp")) !! 0%nat)
  = Some (OpCancel,
          CallerReturned
            {| WavPath := generateTempWav (New "tmp") sample_id "";
               Canceled := false; Err := Some "portaudio init failed" |}) /\
  generateTempWav (New "tmp") sample_id "" <> "".
Proof.
  split; [vm_compute; reflexivity|].
  split; [vm_compute; reflexivity | apply generateTempWav_nonempty].
Qed.

(** The path of a worker is the one drawn at its [Start]. *)
Lemma path_step (l : label) (s : sys) (i : nat) (w : worker) :
  workers s !! i = Some w ->
  exists w', workers (step l s) !! i = Some w' /\ w_wavPath w' = w_wavPath w.
Proof.
  intros Hw.
  assert (Hlt : (i < List.length (workers s))%nat) by (eapply lookup_lt_Some, Hw).
  destruct (workers (step l s) !! i) as [w'|] eqn:Hw'.
  - exists w'. split; [reflexivity|].
    destruct (step_worker_change _ _ _ _ Hw')
      as [Hsame | id cwd _ _ -> _ | ok w0 res0 _ Hw0 _ -> _
          | ok w0 res0 _ Hw0 _ -> | ok w0 res0 d _ Hw0 _ -> _
          | ok w0 res0 _ Hw0 _ -> | ok w0 _ Hw0 Hwork -> _];
      try (rewrite Hw in Hw0; injection Hw0 as <-; reflexivity).
    + congruence.
    + lia.
    + rewrite Hw in Hw0. injection Hw0 as <-.
      apply (recordLoop_local_active ok s w Hwork).
  - exfalso. apply lookup_ge_None in Hw'.
    assert (List.length (workers s) <= List.length (workers (step l s)))%nat; [|lia].
    clear. destruct l as [id cwd| | | |j|k ok]; simpl.
    + unfold Start. destruct (State_eqb _ _); simpl; rewrite ?List.length_app; lia.
    + unfold Stop, request. destruct (running _); simpl; lia.
    + unfold Cancel, request. destruct (running _); simpl; lia.
    + unfold TogglePause. destruct (running _); [|simpl; lia].
      destruct (State_eqb _ _); simpl; lia.
    + destruct (caller_step_move j s) as [|c Hc Hpc|c d r Hc Hpc Hd Hch]; simpl;
        try lia. destruct (c_cancel c); simpl; lia.
    + destruct (recordLoop_step_move k ok s)
        as [|x r Hx Hpc|x r Hx Hpc|x r d Hx Hpc Hc|x r Hx Hpc|x Hx Hwork];
        simpl; rewrite ?length_insert; lia.
Qed.

Lemma path_run (tr : list label) : forall (s : sys) (i : nat) (w : worker),
  workers s !! i = Some w ->
  exists w', workers (run tr s) !! i = Some w' /\ w_wavPath w' = w_wavPath w.
Proof.
  induction tr as [|l tr IH]; intros s i w Hw; [exists w; auto|].
  destruct (path_step l s i w Hw) as (w1 & Hw1 & Hp1).
  destruct (IH (step l s) i w1 Hw1) as (w2 & Hw2 & Hp2).
  exists w2. simpl. split; [exact Hw2 | congruence].
Qed.

(** C3 (amended). Take a session started when every earlier worker has
    returned, and a [Stop] or [Cancel] accepted during it (a caller holding
    the channel of that session) that has returned [res].  Then [res] is the
    result the worker of the session has put in the channel, and the path of
    that worker is the one drawn at [Start].  For [Stop]: [WavPath] is not
    empty and [Canceled] is false.  For [Cancel]: the temporary file is on
    disk exactly when [os.Remove] failed; [Canceled] is true and [WavPath]
    empty unless the worker met a device, encoder or file failure, in which
    case [Err] is set, [Canceled] is false and [WavPath] is the temporary
    path. *)
Theorem result_per_outcome (tempDir : string) (tr0 tr : list label)
    (id cwd : string) (j : nat) (c : caller) (res : Result) :
  (forall i w, workers (run tr0 (init tempDir)) !! i = Some w ->
     exists r, w_pc w = Exited r) ->
  callers (run (tr0 ++ L_Start id cwd :: tr) (init tempDir)) !! j = Some c ->
  c_done c = Some (List.length (workers (run tr0 (init tempDir)))) ->
  c_pc c = CallerReturned res ->
  exists wk,
    workers (run (tr0 ++ L_Start id cwd :: tr) (init tempDir))
      !! List.length (workers (run tr0 (init tempDir))) = Some wk /\
    (w_pc wk = AtReturn res \/ w_pc wk = Exited res) /\
    w_wavPath wk = generateTempWav (rec (run tr0 (init tempDir))) id cwd /\
    match c_op c with
    | OpStop => WavPath res <> "" /\ Canceled res = false
    | OpCancel =>
        w_onDisk wk = w_removeFailed wk /\
        (Err res = None -> Canceled res = true /\ WavPath res = "") /\
        (Err res <> None ->
         Canceled res = false /\ WavPath res = w_wavPath wk /\ WavPath res <> "")
    end.
Proof.
  intros Hq Hc Hd Hpc.
  destruct (session_run tempDir tr0 tr id cwd Hq) as [wk Hss].
  exists wk. pose proof (ss_worker _ _ _ Hss) as Hw.
  pose proof (ss_returned _ _ _ Hss j c res Hc Hd Hpc) as Hex.
  destruct (delivered_inactive _ _ Hex) as [_ Hset].
  pose proof (ss_result _ _ _ Hss j c res Hc Hd Hset) as Hag.
  destruct (holds_run tempDir _ _ wk Hw) as [Hpath Hh].
  assert (Hshape : outcome wk res).
  { destruct Hex as [E|E]; rewrite E in Hh; [apply Hh | apply Hh]. }
  assert (Hp : w_wavPath wk = generateTempWav (rec (run tr0 (init tempDir))) id cwd).
  { assert (Hidle : state (rec (run tr0 (init tempDir))) = StateIdle).
    { apply quiescent_idle; [apply wf_run, wf_init | exact Hq]. }
    assert (H0 : workers (step (L_Start id cwd) (run tr0 (init tempDir)))
                   !! List.length (workers (run tr0 (init tempDir)))
                 = Some (spawn (generateTempWav (rec (run tr0 (init tempDir))) id cwd))).
    { simpl. destruct (Start_idle _ id cwd Hidle) as (_ & _ & -> & _).
      rewrite lookup_app_r, Nat.sub_diag by lia. reflexivity. }
    destruct (path_run tr _ _ _ H0) as (w' & Hw' & Hp').
    replace (run tr (step (L_Start id cwd) (run tr0 (init tempDir))))
      with (run (tr0 ++ L_Start id cwd :: tr) (init tempDir)) in Hw'
      by (rewrite run_app; reflexivity).
    rewrite Hw in Hw'. injection Hw' as <-. exact Hp'. }
  split; [exact Hw|]. split; [exact Hex|]. split; [exact Hp|].
  destruct (c_op c); simpl in Hag.
  - destruct Hshape as [[-> ?] | [[[msg ->] ?] | [-> ?]]]; simpl in *;
      [discriminate | auto | auto].
  - destruct Hshape as [[-> Hdisk] | [[[msg ->] Hdisk] | [-> [Hdisk ?]]]]; simpl in *.
    + split; [exact Hdisk|]. split; [auto|]. intros Hx. now elim Hx.
    + split; [exact Hdisk|]. split; [discriminate|]. intros _. auto.
    + destruct Hag as [Hx | Hx]; [discriminate | now elim Hx].
Qed.

(** Three instances: Start, three buffers, Stop; Start, Cancel; and Start,
    Cancel with the removal of the file refused. *)
Lemma result_per_outcome_witness :
  (exists res,
     option_map c_pc (callers (run stop_after_three_buffers (init "tmp")) !! 0%nat)
       = Some (CallerReturned res) /\
     WavPath res <> "" /\ Canceled res = false) /\
  (exists res wk,
     option_map c_pc (callers (run cancel_at_once (init "tmp")) !! 0%nat)
       = Some (CallerReturned res) /\
     workers (run cancel_at_once (init "tmp")) !! 0%nat = Some wk /\
     w_onDisk wk = w_removeFailed wk /\
     (Err res = None -> Canceled res = true /\ WavPath res = "")) /\
  (exists res wk,
     option_map c_pc (callers (run cancel_remove_refused (init "tmp")) !! 0%nat)
       = Some (CallerReturned res) /\
     workers (run cancel_remove_refused (init "tmp")) !! 0%nat = Some wk /\
     w_removeFailed wk = true /\
     w_onDisk wk = w_removeFailed wk /\
     (Err res = None -> Canceled res = true /\ WavPath res = "")).
Proof.
  split; [|split].
  - destruct (callers (run stop_after_three_buffers (init "tmp")) !! 0%nat)
      as [c|] eqn:Hc; [|vm_compute in Hc; discriminate Hc].
    assert (c_op c = OpStop /\ c_done c = Some 0%nat /\
            c_pc c = CallerReturned (completed (spawn (generateTempWav (New "tmp") sample_id ""))))
      as (Hop & Hd & Hpc)
      by (vm_compute in Hc; injection Hc as <-; repeat split; reflexivity).
    destruct (result_per_outcome "tmp" [] (List.tl stop_after_three_buffers)
                sample_id "" 0 c _ ltac:(intros i w H; discriminate H) Hc Hd Hpc)
      as (wk & _ & _ & _ & Hres).
    rewrite Hop in Hres. eexists. split; [simpl; now rewrite Hpc | exact Hres].
  - destruct (callers (run cancel_at_once (init "tmp")) !! 0%nat)
      as [c|] eqn:Hc; [|vm_compute in Hc; discriminate Hc].
    assert (c_op c = OpCancel /\ c_done c = Some 0%nat /\
            c_pc c = CallerReturned cancelled_result)
      as (Hop & Hd & Hpc)
      by (vm_compute in Hc; injection Hc as <-; repeat split; reflexivity).
    destruct (result_per_outcome "tmp" [] (List.tl cancel_at_once)
                sample_id "" 0 c _ ltac:(intros i w H; discriminate H) Hc Hd Hpc)
      as (wk & Hw & _ & _ & Hres).
    rewrite Hop in Hres. destruct Hres as (Hdisk & Hok & _).
    exists cancelled_result, wk.
    split; [simpl; now rewrite Hpc|]. split; [exact Hw|]. split; assumption.
  - destruct (callers (run cancel_remove_refused (init "tmp")) !! 0%nat)
      as [c|] eqn:Hc; [|vm_compute in Hc; discriminate Hc].
    assert (c_op c = OpCancel /\ c_done c = Some 0%nat /\
            c_pc c = CallerReturned cancelled_result)
      as (Hop & Hd & Hpc)
      by (vm_compute in Hc; injection Hc as <-; repeat split; reflexivity).
    destruct (result_per_outcome "tmp" [] (List.tl cancel_remove_refused)
                sample_id "" 0 c _ ltac:(intros i w H; discriminate H) Hc Hd Hpc)
      as (wk & Hw & _ & _ & Hres).
    rewrite Hop in Hres. destruct Hres as (Hdisk & Hok & _).
    assert (Hrf : w_removeFailed wk = true).
    { pose proof Hw as Hw'. vm_compute in Hw'. injection Hw' as <-. reflexivity. }
    exists cancelled_result, wk.
    split; [simpl; now rewrite Hpc|]. split; [exact Hw|]. split; [exact Hrf|].
    split; assumption.
Defined.

End RecordFacts.

(* ===================================================================== *)
(** * More facts about [parseHotkey] *)
(* ===================================================================== *)

Module HotkeyMore.
Import GoStrings Hotkey HotkeyFacts.

Lemma byte_of_range (c : ascii) : 0 <= byte_of c < 256.
Proof.
  unfold byte_of. pose proof (N_ascii_bounded c). lia.
Qed.

Lemma modifier_bit_cases (p : string) :
  modifier_bit p = 0 \/ modifier_bit p = 1 \/ modifier_bit p = 2 \/
  modifier_bit p = 4 \/ modifier_bit p = 8.
Proof.
  unfold modifier_bit, MOD_ALT, MOD_CONTROL, MOD_SHIFT, MOD_WIN.
  repeat destruct (one_of _ _); auto.
Qed.

Lemma lor_modifier_range (m : Z) (p : string) :
  0 <= m < 16 -> 0 <= Z.lor m (modifier_bit p) < 16.
Proof.
  intros Hm.
  assert (Hc : m = 0 \/ m = 1 \/ m = 2 \/ m = 3 \/ m = 4 \/ m = 5 \/ m = 6 \/ m = 7 \/
               m = 8 \/ m = 9 \/ m = 10 \/ m = 11 \/ m = 12 \/ m = 13 \/ m = 14 \/
               m = 15) by lia.
  destruct (modifier_bit_cases p) as [E|[E|[E|[E|E]]]]; rewrite E;
    repeat (destruct Hc as [-> | Hc]; [vm_compute; split; congruence|]);
    subst m; vm_compute; split; congruence.
Qed.

Lemma modifier_loop_range (ps : list string) : 0 <= modifier_loop ps < 16.
Proof.
  unfold modifier_loop.
  assert (H : forall m, 0 <= m < 16 ->
            0 <= fold_left (fun m p => Z.lor m (modifier_bit p)) ps m < 16).
  { induction ps as [|p ps IH]; intros m Hm; simpl; [exact Hm|].
    apply IH, lor_modifier_range, Hm. }
  apply H. lia.
Qed.

Lemma key_code_range (tok : string) (vk : Z) :
  key_code tok = Some vk -> 0 <= vk < 256.
Proof.
  unfold key_code.
  destruct (alnum_key tok) as [v|] eqn:E1.
  { intros [= <-]. unfold alnum_key in E1.
    destruct tok as [|ch [|? ?]]; try discriminate.
    destruct ((97 <=? byte_of ch) && (byte_of ch <=? 122)) eqn:Ha.
    - injection E1 as <-. lia.
    - destruct ((48 <=? byte_of ch) && (byte_of ch <=? 57)) eqn:Hb; [|discriminate].
      injection E1 as <-. lia. }
  destruct (basic_key tok) as [v|] eqn:E2.
  { intros [= <-]. unfold basic_key in E2.
    repeat destruct (one_of _ _); injection E2 as <- || discriminate; lia. }
  destruct (function_key tok) as [v|] eqn:E3.
  { intros [= <-]. unfold function_key in E3.
    destruct (HasPrefix tok "f"); [|discriminate].
    destruct (Atoi _) as [n|]; [|discriminate].
    destruct ((1 <=? n) && (n <=? 24)) eqn:Hn; [|discriminate].
    injection E3 as <-. lia. }
  destruct (numpad_key tok) as [v|] eqn:E4.
  { intros [= <-]. unfold numpad_key in E4.
    repeat destruct (one_of _ _); try discriminate; injection E4 as <-; vm_compute;
      split; congruence. }
  destruct (named_lookup named tok) as [v|] eqn:E5.
  { intros [= <-]. unfold named in E5. simpl in E5.
    repeat destruct (String.eqb _ _); try discriminate; injection E5 as <-; lia. }
  unfold single_byte_key.
  destruct (ToUpper tok) as [|ch ?]; [discriminate|].
  destruct tok as [|? [|? ?]]; try discriminate.
  intros [= <-]. apply byte_of_range.
Qed.

(** X1.  The two numbers [parseHotkey] returns: on success a mask made of
    the four modifier bits and a virtual-key code of one byte, so that both
    fit the [uint32] results without wrapping; on failure both are zero. *)
Theorem parseHotkey_range (s : string) :
  match parseHotkey s with
  | (m, vk, None) => 0 <= m < 16 /\ 0 <= vk < 256
  | (m, vk, Some _) => m = 0 /\ vk = 0
  end.
Proof.
  unfold parseHotkey.
  destruct (String.eqb s ""); [split; reflexivity|].
  rewrite parts_mod_key.
  destruct (key_code _) as [vk|] eqn:E.
  - split; [apply modifier_loop_range | eapply key_code_range, E].
  - split; reflexivity.
Qed.

Lemma lower_upper_byte (c : ascii) : lower_byte (upper_byte c) = lower_byte c.
Proof. destruct c as [[] [] [] [] [] [] [] []]; reflexivity. Qed.

Lemma upper_byte_plus (c : ascii) :
  Ascii.eqb (upper_byte c) "+" = Ascii.eqb c "+".
Proof. destruct c as [[] [] [] [] [] [] [] []]; reflexivity. Qed.

Lemma ToLower_ToUpper (s : string) : ToLower (ToUpper s) = ToLower s.
Proof.
  unfold ToLower, ToUpper.
  induction s as [|c r IH]; simpl; [reflexivity|].
  rewrite lower_upper_byte, IH. reflexivity.
Qed.

Lemma Split_ToUpper (s : string) :
  Split "+" (ToUpper s) = map ToUpper (Split "+" s).
Proof.
  unfold ToUpper.
  induction s as [|c r IH]; simpl; [reflexivity|].
  rewrite upper_byte_plus. destruct (Ascii.eqb c "+").
  - rewrite IH. reflexivity.
  - rewrite IH. destruct (Split "+" r); reflexivity.
Qed.

Lemma normalise_ToUpper (p : string) : normalise (ToUpper p) = normalise p.
Proof. unfold normalise. rewrite ToLower_ToUpper. reflexivity. Qed.

Lemma lower_byte_idem (c : ascii) : lower_byte (lower_byte c) = lower_byte c.
Proof. destruct c as [[] [] [] [] [] [] [] []]; reflexivity. Qed.

Lemma ToLower_idem (s : string) : ToLower (ToLower s) = ToLower s.
Proof.
  unfold ToLower. induction s as [|c r IH]; simpl; [reflexivity|].
  rewrite lower_byte_idem, IH. reflexivity.
Qed.

Lemma Split_ToLower (s : string) :
  Split "+" (ToLower s) = map ToLower (Split "+" s).
Proof.
  unfold ToLower.
  induction s as [|c r IH]; simpl; [reflexivity|].
  rewrite lower_byte_plus. destruct (Ascii.eqb c "+").
  - rewrite IH. reflexivity.
  - rewrite IH. destruct (Split "+" r); reflexivity.
Qed.

Lemma normalise_ToLower (p : string) : normalise (ToLower p) = normalise p.
Proof. unfold normalise. rewrite ToLower_idem. reflexivity. Qed.

(** Lower-casing a spec, or upper-casing it, does not change what it
    parses to. *)
Lemma parseHotkey_ToLower (s : string) :
  hotkey_value (parseHotkey (ToLower s)) = hotkey_value (parseHotkey s).
Proof.
  unfold parseHotkey.
  assert (He : String.eqb (ToLower s) "" = String.eqb s "") by (destruct s; reflexivity).
  rewrite He. destruct (String.eqb s ""); [reflexivity|].
  rewrite Split_ToLower, map_map.
  rewrite (map_ext (fun x => normalise (ToLower x)) normalise normalise_ToLower).
  rewrite parts_mod_key.
  destruct (key_code _); reflexivity.
Qed.

Lemma parseHotkey_ToUpper (s : string) :
  hotkey_value (parseHotkey (ToUpper s)) = hotkey_value (parseHotkey s).
Proof.
  unfold parseHotkey.
  assert (He : String.eqb (ToUpper s) "" = String.eqb s "") by (destruct s; reflexivity).
  rewrite He. destruct (String.eqb s ""); [reflexivity|].
  rewrite Split_ToUpper, map_map.
  rewrite (map_ext (fun x => normalise (ToUpper x)) normalise normalise_ToUpper).
  rewrite parts_mod_key.
  destruct (key_code _); reflexivity.
Qed.

(** X2.  Hotkey specifications are matched without regard to letter case:
    two specs that differ only in the case of their letters give the same
    mask and key code, and one fails when the other does; so do a spec and
    its upper-cased form. *)
Theorem parseHotkey_case_insensitive (s1 s2 : string) :
  is_ascii s1 = true -> is_ascii s2 = true -> ToLower s1 = ToLower s2 ->
  hotkey_value (parseHotkey s1) = hotkey_value (parseHotkey s2) /\
  hotkey_value (parseHotkey (ToUpper s1)) = hotkey_value (parseHotkey s1).
Proof.
  intros _ _ E. split; [|apply parseHotkey_ToUpper].
  rewrite <- (parseHotkey_ToLower s1), <- (parseHotkey_ToLower s2), E. reflexivity.
Qed.

Lemma parseHotkey_case_insensitive_witness :
  is_ascii "Ctrl+SHIFT+f1" = true /\ is_ascii "ctrl+Shift+F1" = true /\
  hotkey_value (parseHotkey "Ctrl+SHIFT+f1") = hotkey_value (parseHotkey "ctrl+Shift+F1") /\
  hotkey_value (parseHotkey "CTRL+SHIFT+F1") = hotkey_value (parseHotkey "Ctrl+SHIFT+f1").
Proof.
  split; [reflexivity|]. split; [reflexivity|].
  exact (parseHotkey_case_insensitive "Ctrl+SHIFT+f1" "ctrl+Shift+F1"
           eq_refl eq_refl eq_refl).
Defined.

Lemma fold_lor_testbit (ps : list string) (n : Z) : forall m,
  Z.testbit (fold_left (fun m p => Z.lor m (modifier_bit p)) ps m) n =
  Z.testbit m n || existsb (fun p => Z.testbit (modifier_bit p) n) ps.
Proof.
  induction ps as [|p ps IH]; intros m; simpl.
  - rewrite orb_false_r. reflexivity.
  - rewrite IH, Z.lor_spec, orb_assoc. reflexivity.
Qed.

Lemma modifier_loop_same_elements (ms1 ms2 : list string) :
  (forall m, In m ms1 <-> In m ms2) -> modifier_loop ms1 = modifier_loop ms2.
Proof.
  intros Hs. apply Z.bits_inj'. intros n _. unfold modifier_loop.
  rewrite !fold_lor_testbit. f_equal.
  apply eq_true_iff_eq. rewrite !existsb_exists.
  split; intros (p & Hin & Hb); exists p; split; try exact Hb; apply Hs, Hin.
Qed.

(** X3.  The modifier mask depends on which modifiers a spec names, not on
    their order or on repetitions: two specs with the same key token whose
    modifier tokens are the same set parse alike. *)
Theorem modifier_order_irrelevant (ms1 ms2 : list string) (key : string) :
  Forall (fun t => free_of "+" t = true) (ms1 ++ [key]) ->
  Forall (fun t => free_of "+" t = true) ms2 ->
  (forall m, In m (map normalise ms1) <-> In m (map normalise ms2)) ->
  hotkey_value (parseHotkey (Join "+" (ms1 ++ [key]))) =
  hotkey_value (parseHotkey (Join "+" (ms2 ++ [key]))).
Proof.
  intros H1 H2 Hs.
  assert (Hk : free_of "+" key = true).
  { apply List.Forall_app in H1 as [_ Hk]. inversion Hk; assumption. }
  rewrite !parseHotkey_fields; [|apply List.Forall_app; split; [exact H2|]; repeat constructor; exact Hk | exact H1].
  rewrite (modifier_loop_same_elements (map normalise ms1) (map normalise ms2) Hs).
  reflexivity.
Qed.

Lemma modifier_order_irrelevant_witness :
  hotkey_value (parseHotkey "ctrl+shift+a") = hotkey_value (parseHotkey "Shift+ctrl+shift+a") /\
  hotkey_value (parseHotkey "ctrl+shift+a") = Some (6, 65).
Proof.
  split; [|reflexivity].
  apply (modifier_order_irrelevant ["ctrl"; "shift"] ["Shift"; "ctrl"; "shift"] "a").
  - repeat constructor.
  - repeat constructor.
  - intros m. change (map normalise ["ctrl"; "shift"]) with ["ctrl"; "shift"].
    change (map normalise ["Shift"; "ctrl"; "shift"]) with ["shift"; "ctrl"; "shift"].
    simpl. tauto.
Defined.

End HotkeyMore.

(* ===================================================================== *)
(** * More facts about the hook *)
(* ===================================================================== *)

Module HookMore.
Import GoStrings Hotkey Hook HookTable HotkeyFacts HookFacts.

Lemma land_subset_bit (r1 r2 b : Z) :
  Z.land r1 r2 = r1 -> (Z.land r2 b =? 0) = true -> (Z.land r1 b =? 0) = true.
Proof.
  intros Hs Hz. apply Z.eqb_eq in Hz. apply Z.eqb_eq.
  rewrite <- Hs, <- Z.land_assoc, Hz. apply Z.land_0_r.
Qed.

Lemma modsSatisfied_spec (ks : Z -> Z) (required : Z) :
  modsSatisfied ks required = true <->
  ((Z.land required 0x0002 =? 0) = false -> key_down ks VK_CONTROL = true) /\
  ((Z.land required 0x0001 =? 0) = false -> key_down ks VK_MENU = true) /\
  ((Z.land required 0x0004 =? 0) = false -> key_down ks VK_SHIFT = true) /\
  ((Z.land required 0x0008 =? 0) = false ->
   key_down ks VK_LWIN = true \/ key_down ks VK_RWIN = true).
Proof.
  unfold modsSatisfied, key_down.
  destruct (required =? 0) eqn:E0.
  { apply Z.eqb_eq in E0. subst required. simpl.
    split; [intros _; repeat split; discriminate | reflexivity]. }
  destruct (Z.land required 2 =? 0), (Z.land required 1 =? 0),
    (Z.land required 4 =? 0), (Z.land required 8 =? 0),
    (Z.land (ks VK_CONTROL) 32768 =? 0), (Z.land (ks VK_MENU) 32768 =? 0),
    (Z.land (ks VK_SHIFT) 32768 =? 0), (Z.land (ks VK_LWIN) 32768 =? 0),
    (Z.land (ks VK_RWIN) 32768 =? 0); simpl;
    (split; [ intros H; try discriminate H; repeat split; intros; auto; discriminate
            | intros (H1 & H2 & H3 & H4); try reflexivity;
              try (specialize (H1 eq_refl); discriminate H1);
              try (specialize (H2 eq_refl); discriminate H2);
              try (specialize (H3 eq_refl); discriminate H3);
              try (destruct (H4 eq_refl) as [H|H]; discriminate H) ]).
Qed.

(** X4.  Holding more keys never unmatches a hotkey: if every modifier key
    that is down in [ks] is down in [ks'], a mask satisfied under [ks] is
    satisfied under [ks'].  The hook therefore fires a hotkey also while
    modifiers it does not name are held. *)
Theorem modsSatisfied_more_keys (ks ks' : Z -> Z) (required : Z) :
  (forall vk, key_down ks vk = true -> key_down ks' vk = true) ->
  modsSatisfied ks required = true -> modsSatisfied ks' required = true.
Proof.
  intros Hk. rewrite !modsSatisfied_spec.
  intros (H1 & H2 & H3 & H4). repeat split; intros E; auto.
  destruct (H4 E) as [H|H]; [left|right]; apply Hk, H.
Qed.

Lemma modsSatisfied_more_keys_witness :
  modsSatisfied ctrl_held MOD_CONTROL = true /\
  modsSatisfied all_held MOD_CONTROL = true.
Proof.
  split; [reflexivity|].
  apply (modsSatisfied_more_keys ctrl_held all_held MOD_CONTROL).
  - intros vk _. reflexivity.
  - reflexivity.
Defined.

Lemma modsSatisfied_fewer_bits (ks : Z -> Z) (r1 r2 : Z) :
  Z.land r1 r2 = r1 ->
  modsSatisfied ks r2 = true -> modsSatisfied ks r1 = true.
Proof.
  intros Hs. rewrite !modsSatisfied_spec.
  assert (Hb : forall b, (Z.land r1 b =? 0) = false -> (Z.land r2 b =? 0) = false).
  { intros b H. destruct (Z.land r2 b =? 0) eqn:E; [|reflexivity].
    rewrite (land_subset_bit r1 r2 b Hs E) in H. discriminate. }
  intros (H1 & H2 & H3 & H4). repeat split; intros E; auto.
Qed.


(** The callback reads the table only through the candidates of the key. *)
Lemma callback_swallow_some lookup (sw : gmap Z bool) (ev : event) (id : Z) :
  snd (callback lookup sw ev) = Swallow (Some id) <->
  (int32 (nCode ev) <? 0) = false /\ is_injected ev = false /\
  is_keydown ev = true /\
  exists c, first_match (GetAsyncKeyState ev) (default [] (lookup !! vkCode (k ev)))
            = Some c /\ cand_id c = id.
Proof.
  unfold callback, is_injected, is_keydown.
  destruct (int32 (nCode ev) <? 0).
  { simpl. split; [discriminate | intros (H & _); discriminate]. }
  destruct (negb (Z.land (flags (k ev)) LLKHF_INJECTED =? 0)).
  { simpl. split; [discriminate | intros (_ & H & _); discriminate]. }
  set (ku := if _ && is_swallowed sw (vkCode (k ev)) then _ else _).
  assert (Hku : snd ku <> Swallow (Some id)).
  { unfold ku. destruct (_ && _); simpl; discriminate. }
  clearbody ku.
  destruct ((uint32 (wParam ev) =? WM_KEYDOWN) || (uint32 (wParam ev) =? WM_SYSKEYDOWN)).
  2:{ split; [intros H; contradiction | intros (_ & _ & H & _); discriminate]. }
  destruct (lookup !! vkCode (k ev)) as [cands|]; simpl.
  - destruct (first_match _ cands) as [c|]; simpl.
    + split.
      * intros [= <-]. repeat split. exists c. split; reflexivity.
      * intros (_ & _ & _ & c' & [= <-] & <-). reflexivity.
    + split; [intros H; contradiction | intros (_ & _ & _ & c' & H & _); discriminate].
  - split; [intros H; contradiction | intros (_ & _ & _ & c' & H & _); discriminate].
Qed.

Lemma candidates_for_app (vk : Z) (l1 l2 : list (Z * string)) :
  candidates_for vk (l1 ++ l2) = (candidates_for vk l1 ++ candidates_for vk l2)%list.
Proof. unfold candidates_for. apply List.flat_map_app. Qed.

Lemma In_candidates_for (vk : Z) (specs : list (Z * string)) (c : candidate) :
  In c (candidates_for vk specs) <->
  exists spec, In (cand_id c, spec) specs /\
               parseHotkey spec = (cand_mod c, vk, None).
Proof.
  unfold candidates_for. rewrite List.in_flat_map. split.
  - intros ([id spec] & Hin & Hc).
    destruct (parseHotkey spec) as [[m v] [e|]] eqn:Hp; [contradiction|].
    destruct (v =? vk) eqn:Hv; [|contradiction].
    apply Z.eqb_eq in Hv. subst v. destruct Hc as [<-|[]]. simpl.
    exists spec. split; [exact Hin | exact Hp].
  - intros (spec & Hin & Hp). exists (cand_id c, spec). split; [exact Hin|].
    rewrite Hp, Z.eqb_refl. left. destruct c; reflexivity.
Qed.

Lemma build_lookup_entries (specs : list (Z * string)) :
  forall l0 l, build_lookup specs l0 = Some l ->
  (forall vk, default [] (l !! vk)
              = (default [] (l0 !! vk) ++ candidates_for vk specs)%list) /\
  Forall (fun p => succeeds (parseHotkey (snd p)) = true) specs.
Proof.
  induction specs as [|[id spec] rest IH]; intros l0 l H; simpl in H.
  - injection H as <-. split; [|constructor].
    intros vk. simpl. rewrite List.app_nil_r. reflexivity.
  - destruct (parseHotkey spec) as [[m v] [e|]] eqn:Hp; [discriminate|].
    apply IH in H as [He Hs]. split.
    + intros vk. rewrite He. simpl. rewrite Hp.
      destruct (v =? vk) eqn:Hv.
      * apply Z.eqb_eq in Hv. subst v. rewrite lookup_insert_eq. simpl.
        rewrite <- List.app_assoc. reflexivity.
      * apply Z.eqb_neq in Hv. rewrite lookup_insert_ne by exact Hv.
        reflexivity.
    + constructor; [simpl; rewrite Hp; reflexivity | exact Hs].
Qed.

Lemma build_lookup_empty (specs : list (Z * string)) (l : gmap Z (list candidate)) :
  build_lookup specs ∅ = Some l ->
  forall vk, default [] (l !! vk) = candidates_for vk specs.
Proof.
  intros H vk. apply build_lookup_entries in H as [He _].
  rewrite He, lookup_empty. reflexivity.
Qed.

Lemma build_lookup_parses (specs : list (Z * string)) : forall l0,
  Forall (fun p => succeeds (parseHotkey (snd p)) = true) specs ->
  exists l, build_lookup specs l0 = Some l.
Proof.
  induction specs as [|[id spec] rest IH]; intros l0 H; simpl.
  - eexists; reflexivity.
  - inversion H as [|? ? Hp Hr]; subst. simpl in Hp.
    destruct (parseHotkey spec) as [[m v] [e|]]; [discriminate|].
    apply IH, Hr.
Qed.

Lemma find_some_first {A} (f : A -> bool) (l : list A) (x : A) :
  In x l -> f x = true -> exists y, List.find f l = Some y.
Proof.
  induction l as [|a l IH]; intros Hin Hf; [destruct Hin|]. simpl.
  destruct (f a) eqn:Ha; [eexists; reflexivity|].
  destruct Hin as [->|Hin]; [congruence|]. apply IH; assumption.
Qed.

(** X5.  The hook is installed exactly when the three specs parse: the
    table is built if and only if [parseHotkey] accepts the start, pause and
    cancel keys, and it then holds, for every key, the candidates of the
    specs on that key in the order start, pause, cancel. *)
Theorem install_table (startKey pauseKey cancelKey : string) :
  (is_Some (install startKey pauseKey cancelKey) <->
   succeeds (parseHotkey startKey) = true /\
   succeeds (parseHotkey pauseKey) = true /\
   succeeds (parseHotkey cancelKey) = true) /\
  forall lookup, install startKey pauseKey cancelKey = Some lookup ->
    forall vk, default [] (lookup !! vk)
               = candidates_for vk [(1, startKey); (2, pauseKey); (3, cancelKey)].
Proof.
  unfold install. split.
  - split.
    + intros [l Hl]. apply build_lookup_entries in Hl as [_ Hs].
      inversion Hs as [|? ? H1 Hs1]; subst. inversion Hs1 as [|? ? H2 Hs2]; subst.
      inversion Hs2 as [|? ? H3 _]; subst. auto.
    + intros (H1 & H2 & H3).
      destruct (build_lookup_parses [(1, startKey); (2, pauseKey); (3, cancelKey)] ∅)
        as [l Hl]; [repeat constructor; assumption|].
      rewrite Hl. eexists; reflexivity.
  - intros lookup Hl. apply (build_lookup_empty _ _ Hl).
Qed.

(** X6.  What the hook dispatches.  With the table built from the three
    specs, the callback asks for [handler(id)] only on a key-down that is
    not injected, for the key of hotkey [id], while the modifiers of that
    hotkey are down; and every such key-down of a hotkey's key with its
    modifiers down is consumed and dispatched to some hotkey. *)
Theorem hook_dispatch (startKey pauseKey cancelKey : string)
    (lookup : gmap Z (list candidate)) (sw : gmap Z bool) (ev : event) :
  install startKey pauseKey cancelKey = Some lookup ->
  (forall id, snd (callback lookup sw ev) = Swallow (Some id) ->
     is_keydown ev = true /\ is_injected ev = false /\
     exists spec m,
       In (id, spec) [(1, startKey); (2, pauseKey); (3, cancelKey)] /\
       parseHotkey spec = (m, vkCode (k ev), None) /\
       modsSatisfied (GetAsyncKeyState ev) m = true) /\
  (forall id spec m,
     In (id, spec) [(1, startKey); (2, pauseKey); (3, cancelKey)] ->
     parseHotkey spec = (m, vkCode (k ev), None) ->
     modsSatisfied (GetAsyncKeyState ev) m = true ->
     (int32 (nCode ev) <? 0) = false -> is_injected ev = false ->
     is_keydown ev = true ->
     exists id', snd (callback lookup sw ev) = Swallow (Some id')).
Proof.
  unfold install. intros Hb.
  pose proof (build_lookup_empty _ _ Hb) as He.
  split.
  - intros id H. apply callback_swallow_some in H as (_ & Hi & Hd & c & Hf & <-).
    split; [exact Hd|]. split; [exact Hi|].
    rewrite He in Hf. unfold first_match in Hf.
    apply List.find_some in Hf as [Hin Hm].
    apply In_candidates_for in Hin as (spec & Hin & Hp).
    exists spec, (cand_mod c). repeat split; assumption.
  - intros id spec m Hin Hp Hm Hn Hi Hd.
    assert (Hc : In {| cand_id := id; cand_mod := m |}
                    (candidates_for (vkCode (k ev))
                       [(1, startKey); (2, pauseKey); (3, cancelKey)])).
    { apply In_candidates_for. exists spec. split; [exact Hin | exact Hp]. }
    destruct (find_some_first (fun c => modsSatisfied (GetAsyncKeyState ev) (cand_mod c))
                _ _ Hc Hm) as [y Hy].
    exists (cand_id y). apply callback_swallow_some.
    repeat split; try assumption. exists y. split; [|reflexivity].
    rewrite He. exact Hy.
Qed.

Lemma hook_dispatch_witness :
  install "ctrl+v" "ctrl+p" "esc" = Some sample_lookup /\
  snd (callback sample_lookup ∅ key_v_down) = Swallow (Some 1) /\
  exists spec m,
    In (1, spec) [(1, "ctrl+v"); (2, "ctrl+p"); (3, "esc")] /\
    parseHotkey spec = (m, vkCode (k key_v_down), None) /\
    modsSatisfied (GetAsyncKeyState key_v_down) m = true.
Proof.
  split; [reflexivity|]. split; [reflexivity|].
  exact (proj2 (proj2 (proj1 (hook_dispatch "ctrl+v" "ctrl+p" "esc" sample_lookup ∅
                         key_v_down eq_refl) 1 eq_refl))).
Defined.


Lemma find_app_first {A} (f : A -> bool) (pre post : list A) (x : A) :
  f x = true ->
  exists y, List.find f (pre ++ x :: post) = Some y /\ In y (pre ++ [x]).
Proof.
  intros Hx. induction pre as [|a pre IH]; simpl.
  - rewrite Hx. exists x. split; [reflexivity | left; reflexivity].
  - destruct (f a).
    + exists a. split; [reflexivity | left; reflexivity].
    + destruct IH as (y & Hy & Hin). exists y. split; [exact Hy | right; exact Hin].
Qed.

Lemma NoDup_fst_inj {A B} (l : list (A * B)) (a : A) (b1 b2 : B) :
  List.NoDup (map fst l) -> In (a, b1) l -> In (a, b2) l -> b1 = b2.
Proof.
  induction l as [|[a' b'] l IH]; intros Hn H1 H2; [destruct H1|].
  simpl in Hn. inversion Hn as [|? ? Hnot Hn']; subst.
  destruct H1 as [E1|H1], H2 as [E2|H2].
  - congruence.
  - injection E1 as -> ->. exfalso. apply Hnot.
    apply List.in_map_iff. exists (a, b2). split; [reflexivity | exact H2].
  - injection E2 as -> ->. exfalso. apply Hnot.
    apply List.in_map_iff. exists (a, b1). split; [reflexivity | exact H1].
  - apply IH; assumption.
Qed.

(** In a table built from [pre ++ (i, si) :: post], a hotkey [j] of [post]
    on the same key whose modifiers include those of [i] never fires. *)
Lemma shadowed_candidate (pre post : list (Z * string)) (i j : Z) (si sj : string)
    (mi mj vk : Z) (lookup : gmap Z (list candidate)) :
  build_lookup (pre ++ (i, si) :: post) ∅ = Some lookup ->
  List.NoDup (map fst (pre ++ (i, si) :: post)) ->
  In (j, sj) post ->
  parseHotkey si = (mi, vk, None) -> parseHotkey sj = (mj, vk, None) ->
  Z.land mi mj = mi ->
  forall sw ev, snd (callback lookup sw ev) <> Swallow (Some j).
Proof.
  intros Hb Hn Hj Hpi Hpj Hsub sw ev Hd.
  apply callback_swallow_some in Hd as (_ & _ & _ & c & Hf & Hid).
  rewrite (build_lookup_empty _ _ Hb) in Hf. unfold first_match in Hf.
  pose proof (List.find_some _ _ Hf) as [Hin Hm].
  apply In_candidates_for in Hin as (spec & Hin & Hp). rewrite Hid in Hin.
  assert (spec = sj) as ->.
  { eapply NoDup_fst_inj; [exact Hn | exact Hin |].
    apply in_or_app. right. right. exact Hj. }
  rewrite Hpj in Hp. injection Hp as Hmod Hvk.
  assert (Hmi : modsSatisfied (GetAsyncKeyState ev) mi = true).
  { apply (modsSatisfied_fewer_bits _ mi mj Hsub). rewrite Hmod. exact Hm. }
  assert (Hc : candidates_for (vkCode (k ev)) ((i, si) :: post)
               = {| cand_id := i; cand_mod := mi |}
                 :: candidates_for (vkCode (k ev)) post).
  { unfold candidates_for. cbn [flat_map]. rewrite Hpi, Hvk, Z.eqb_refl.
    reflexivity. }
  rewrite candidates_for_app, Hc in Hf.
  destruct (find_app_first (fun c => modsSatisfied (GetAsyncKeyState ev) (cand_mod c))
              (candidates_for (vkCode (k ev)) pre)
              (candidates_for (vkCode (k ev)) post)
              {| cand_id := i; cand_mod := mi |} Hmi) as (y & Hy & Hiny).
  rewrite Hy in Hf. injection Hf as ->.
  assert (Hidc : In (cand_id c) (map fst (pre ++ [(i, si)]))).
  { apply in_app_or in Hiny as [Hy1|[<-|[]]].
    - apply In_candidates_for in Hy1 as (sp & Hsp & _).
      apply List.in_map_iff. exists (cand_id c, sp). split; [reflexivity|].
      apply in_or_app. left. exact Hsp.
    - apply List.in_map_iff. exists (i, si). split; [reflexivity|].
      apply in_or_app. right. left. reflexivity. }
  rewrite Hid in Hidc.
  replace (pre ++ (i, si) :: post)%list with ((pre ++ [(i, si)]) ++ post)%list in Hn
    by (rewrite <- List.app_assoc; reflexivity).
  rewrite List.map_app in Hn.
  apply NoDup_ListNoDup, NoDup_app in Hn as (_ & Hdis & _).
  apply (Hdis j); [apply list_elem_of_In, Hidc|].
  apply list_elem_of_In, List.in_map_iff. exists (j, sj).
  split; [reflexivity | exact Hj].
Qed.

(** X7.  Shadowing.  When two of the three hotkeys use the same key and the
    modifiers of the one listed first are among the modifiers of the other,
    the hook never dispatches the other: the candidates are tried in the
    order start, pause, cancel, and held modifiers a hotkey does not name do
    not keep it from matching. *)
Theorem earlier_hotkey_shadows (startKey pauseKey cancelKey : string)
    (lookup : gmap Z (list candidate)) (i j : Z) (si sj : string) (mi mj vk : Z) :
  install startKey pauseKey cancelKey = Some lookup ->
  In (i, si) [(1, startKey); (2, pauseKey); (3, cancelKey)] ->
  In (j, sj) [(1, startKey); (2, pauseKey); (3, cancelKey)] ->
  i < j ->
  parseHotkey si = (mi, vk, None) -> parseHotkey sj = (mj, vk, None) ->
  Z.land mi mj = mi ->
  forall sw ev, snd (callback lookup sw ev) <> Swallow (Some j).
Proof.
  unfold install. intros Hb Hi Hj Hlt Hpi Hpj Hsub.
  assert (Hn : List.NoDup (map fst [(1, startKey); (2, pauseKey); (3, cancelKey)])).
  { simpl. repeat constructor; simpl; intros H; lia. }
  simpl in Hi, Hj.
  destruct Hi as [Ei|[Ei|[Ei|[]]]]; injection Ei as <- <-;
    destruct Hj as [Ej|[Ej|[Ej|[]]]]; injection Ej as <- <-; try lia.
  - apply (shadowed_candidate [] [(2, pauseKey); (3, cancelKey)] 1 2 startKey pauseKey
             mi mj vk lookup Hb Hn); [left; reflexivity | assumption..].
  - apply (shadowed_candidate [] [(2, pauseKey); (3, cancelKey)] 1 3 startKey cancelKey
             mi mj vk lookup Hb Hn); [right; left; reflexivity | assumption..].
  - apply (shadowed_candidate [(1, startKey)] [(3, cancelKey)] 2 3 pauseKey cancelKey
             mi mj vk lookup Hb Hn); [left; reflexivity | assumption..].
Qed.


Lemma earlier_hotkey_shadows_witness :
  install "ctrl+v" "ctrl+shift+v" "esc" = Some shadow_lookup /\
  parseHotkey "ctrl+v" = (2, 0x56, None) /\
  parseHotkey "ctrl+shift+v" = (6, 0x56, None) /\
  modsSatisfied (GetAsyncKeyState key_v_down_ctrl_shift) 6 = true /\
  snd (callback shadow_lookup ∅ key_v_down_ctrl_shift) = Swallow (Some 1) /\
  snd (callback shadow_lookup ∅ key_v_down_ctrl_shift) <> Swallow (Some 2).
Proof.
  repeat (split; [reflexivity|]).
  apply (earlier_hotkey_shadows "ctrl+v" "ctrl+shift+v" "esc" shadow_lookup
           1 2 "ctrl+v" "ctrl+shift+v" 2 6 0x56).
  - reflexivity.
  - left; reflexivity.
  - right; left; reflexivity.
  - lia.
  - reflexivity.
  - reflexivity.
  - reflexivity.
Defined.

(** The verdict on the event at position [i] is the callback's, run on the
    markers the earlier events leave. *)
Lemma run_hook_length lookup (evs : list event) : forall sw : gmap Z bool,
  List.length (snd (run_hook lookup sw evs)) = List.length evs.
Proof.
  induction evs as [|e evs IH]; intros sw; simpl; [reflexivity|].
  destruct (callback lookup sw e) as [sw1 v].
  specialize (IH sw1). destruct (run_hook lookup sw1 evs) as [sw2 vs].
  simpl in *. rewrite IH. reflexivity.
Qed.

Lemma run_hook_at lookup (evs : list event) :
  forall (sw : gmap Z bool) (i : nat) (ev : event),
  evs !! i = Some ev ->
  snd (run_hook lookup sw evs) !! i
  = Some (snd (callback lookup (fst (run_hook lookup sw (take i evs))) ev)).
Proof.
  induction evs as [|e evs IH]; intros sw i ev Hi; [discriminate|].
  destruct i as [|i]; simpl in Hi |- *.
  - injection Hi as ->. destruct (callback lookup sw ev) as [sw1 v].
    destruct (run_hook lookup sw1 evs); reflexivity.
  - destruct (callback lookup sw e) as [sw1 v].
    specialize (IH sw1 i ev Hi).
    destruct (run_hook lookup sw1 evs) as [sw2 vs].
    destruct (run_hook lookup sw1 (take i evs)) as [sw3 vs3]. simpl in *.
    exact IH.
Qed.

Lemma run_hook_prefix lookup (evs : list event) (sw : gmap Z bool) (i j : nat) :
  (j < i)%nat -> (i <= List.length evs)%nat ->
  snd (run_hook lookup sw (take i evs)) !! j = snd (run_hook lookup sw evs) !! j.
Proof.
  intros Hj Hi. rewrite <- (take_drop i evs) at 2.
  rewrite run_hook_app. simpl. rewrite lookup_app_l; [reflexivity|].
  rewrite run_hook_length, length_take. lia.
Qed.

Lemma run_hook_snoc lookup (evs : list event) (ev : event) (sw : gmap Z bool) :
  run_hook lookup sw (evs ++ [ev]) =
  (fst (callback lookup (fst (run_hook lookup sw evs)) ev),
   (snd (run_hook lookup sw evs)
      ++ [snd (callback lookup (fst (run_hook lookup sw evs)) ev)])%list).
Proof.
  rewrite run_hook_app. simpl.
  destruct (callback lookup (fst (run_hook lookup sw evs)) ev); reflexivity.
Qed.

(** How a marker comes to be set, and when a key-up is consumed. *)
Lemma callback_marker lookup (sw : gmap Z bool) (ev : event) (vk : Z) :
  is_swallowed (fst (callback lookup sw ev)) vk = true ->
  is_swallowed sw vk = true \/
  (vkCode (k ev) = vk /\ lookup !! vk <> None /\
   exists id, snd (callback lookup sw ev) = Swallow (Some id)).
Proof.
  unfold callback.
  destruct (int32 (nCode ev) <? 0); [left; assumption|].
  destruct (negb (Z.land (flags (k ev)) LLKHF_INJECTED =? 0)); [left; assumption|].
  set (ku := if _ && is_swallowed sw (vkCode (k ev)) then _ else _).
  assert (Hku : is_swallowed (fst ku) vk = true -> is_swallowed sw vk = true).
  { unfold ku. destruct (_ && _); simpl; [|auto].
    unfold is_swallowed. destruct (decide (vkCode (k ev) = vk)) as [->|Hne].
    - rewrite lookup_delete_eq. discriminate.
    - rewrite lookup_delete_ne by exact Hne. auto. }
  clearbody ku.
  destruct ((uint32 (wParam ev) =? WM_KEYDOWN) || (uint32 (wParam ev) =? WM_SYSKEYDOWN));
    [|intros H; left; auto].
  destruct (lookup !! vkCode (k ev)) as [cands|] eqn:El; [|intros H; left; auto].
  destruct (first_match _ cands) as [c|]; [|intros H; left; auto].
  simpl. unfold is_swallowed. destruct (decide (vkCode (k ev) = vk)) as [<-|Hne].
  - intros _. right. split; [reflexivity|]. split; [congruence|].
    exists (cand_id c). reflexivity.
  - rewrite lookup_insert_ne by exact Hne. intros H. left. exact H.
Qed.

Lemma callback_swallow_none lookup (sw : gmap Z bool) (ev : event) :
  snd (callback lookup sw ev) = Swallow None ->
  is_keyup ev = true /\ is_swallowed sw (vkCode (k ev)) = true.
Proof.
  unfold callback, is_keyup.
  destruct (int32 (nCode ev) <? 0); [discriminate|].
  destruct (negb (Z.land (flags (k ev)) LLKHF_INJECTED =? 0)); [discriminate|].
  set (ku := if _ && is_swallowed sw (vkCode (k ev)) then _ else _).
  assert (Hku : snd ku = Swallow None ->
                (uint32 (wParam ev) =? WM_KEYUP) || (uint32 (wParam ev) =? WM_SYSKEYUP) = true
                /\ is_swallowed sw (vkCode (k ev)) = true).
  { unfold ku. destruct (_ || _); simpl; [|discriminate].
    destruct (is_swallowed sw (vkCode (k ev))); simpl; [auto | discriminate]. }
  clearbody ku.
  destruct ((uint32 (wParam ev) =? WM_KEYDOWN) || (uint32 (wParam ev) =? WM_SYSKEYDOWN));
    [|exact Hku].
  destruct (lookup !! vkCode (k ev)) as [cands|]; [|exact Hku].
  destruct (first_match _ cands); [discriminate | exact Hku].
Qed.

Lemma marker_origin lookup (evs : list event) (vk : Z) :
  is_swallowed (fst (run_hook lookup ∅ evs)) vk = true ->
  lookup !! vk <> None /\
  exists j ej id, evs !! j = Some ej /\ vkCode (k ej) = vk /\
                  snd (run_hook lookup ∅ evs) !! j = Some (Swallow (Some id)).
Proof.
  induction evs as [|ev evs IH] using rev_ind; [discriminate|].
  rewrite run_hook_snoc. simpl. intros H.
  apply callback_marker in H as [H|(Hvk & Hl & id & Hd)].
  - destruct (IH H) as (Hl & j & ej & id & Hj & Hvk & Hv).
    split; [exact Hl|]. exists j, ej, id.
    pose proof (lookup_lt_Some _ _ _ Hj) as Hlt.
    rewrite !lookup_app_l; [auto | rewrite run_hook_length; exact Hlt | exact Hlt].
  - split; [exact Hl|]. exists (List.length evs), ev, id.
    split; [apply list_lookup_middle; reflexivity|]. split; [exact Hvk|].
    rewrite lookup_app_r by (rewrite run_hook_length; lia).
    rewrite run_hook_length, Nat.sub_diag. simpl. rewrite Hd. reflexivity.
Qed.

(** X8.  Keys that are not hotkeys pass: from the empty marker map the
    hook is installed with, every event for a key without an entry in the
    table goes on to the next hook, key-down and key-up alike. *)
Theorem unregistered_key_forwarded (lookup : gmap Z (list candidate))
    (evs : list event) (i : nat) (ev : event) :
  evs !! i = Some ev -> lookup !! vkCode (k ev) = None ->
  snd (run_hook lookup ∅ evs) !! i = Some Forward.
Proof.
  intros Hi Hl. rewrite (run_hook_at _ _ _ _ _ Hi). f_equal.
  destruct (snd (callback lookup (fst (run_hook lookup ∅ (take i evs))) ev))
    as [|[id|]] eqn:Hv; [reflexivity | |].
  - apply callback_swallow_some in Hv as (_ & _ & _ & c & Hf & _).
    rewrite Hl in Hf. discriminate.
  - apply callback_swallow_none in Hv as [_ Hs].
    apply marker_origin in Hs as [Hne _]. contradiction.
Qed.

Lemma unregistered_key_forwarded_witness :
  sample_lookup !! vkCode (k key_a_up) = None /\
  snd (run_hook sample_lookup ∅ [key_v_down; key_a_up; key_v_up]) !! 1%nat
  = Some Forward.
Proof.
  split; [reflexivity|].
  exact (unregistered_key_forwarded sample_lookup
           [key_v_down; key_a_up; key_v_up] 1 key_a_up eq_refl eq_refl).
Defined.

(** X9.  A key-up is consumed only after a key-down of the same key was
    consumed and dispatched: when the hook, started with no marker, answers
    a key-up with [1], an earlier event for that key was a swallowed
    key-down. *)
Theorem swallowed_keyup_has_keydown (lookup : gmap Z (list candidate))
    (evs : list event) (i : nat) (ev : event) :
  evs !! i = Some ev ->
  snd (run_hook lookup ∅ evs) !! i = Some (Swallow None) ->
  is_keyup ev = true /\
  exists j ej id, (j < i)%nat /\ evs !! j = Some ej /\
    vkCode (k ej) = vkCode (k ev) /\ is_keydown ej = true /\
    snd (run_hook lookup ∅ evs) !! j = Some (Swallow (Some id)).
Proof.
  intros Hi Hv. rewrite (run_hook_at _ _ _ _ _ Hi) in Hv. injection Hv as Hv.
  apply callback_swallow_none in Hv as [Hu Hs]. split; [exact Hu|].
  apply marker_origin in Hs as (_ & j & ej & id & Hj & Hvk & Hd).
  pose proof (lookup_lt_Some _ _ _ Hi) as Hilt.
  pose proof (lookup_lt_Some _ _ _ Hj) as Hjlt. rewrite length_take in Hjlt.
  assert (Hji : (j < i)%nat) by lia.
  rewrite lookup_take_lt in Hj by exact Hji.
  rewrite run_hook_prefix in Hd by lia.
  exists j, ej, id. repeat split; try assumption.
  rewrite (run_hook_at _ _ _ _ _ Hj) in Hd. injection Hd as Hd.
  apply callback_swallow_some in Hd as (_ & _ & Hk & _). exact Hk.
Qed.

Lemma swallowed_keyup_has_keydown_witness :
  snd (run_hook sample_lookup ∅ [key_v_down; key_a_up; key_v_up]) !! 2%nat
    = Some (Swallow None) /\
  is_keyup key_v_up = true /\
  exists j ej id, (j < 2)%nat /\
    [key_v_down; key_a_up; key_v_up] !! j = Some ej /\
    vkCode (k ej) = vkCode (k key_v_up) /\ is_keydown ej = true /\
    snd (run_hook sample_lookup ∅ [key_v_down; key_a_up; key_v_up]) !! j
      = Some (Swallow (Some id)).
Proof.
  split; [reflexivity|].
  exact (swallowed_keyup_has_keydown sample_lookup [key_v_down; key_a_up; key_v_up]
           2 key_v_up eq_refl eq_refl).
Defined.

End HookMore.

(* ===================================================================== *)
(** * Facts about [registerHotkeys] *)
(* ===================================================================== *)

Module RegisterFacts.
Import GoStrings Hotkey Register.

Lemma delete_fresh_insert (t : hotkeys) (id : Z) (x : Z * Z) :
  t !! id = None -> delete id (<[id := x]> t) = t.
Proof.
  intros H. apply map_eq. intros i. destruct (decide (i = id)) as [->|Hne].
  - rewrite lookup_delete_eq, H. reflexivity.
  - rewrite lookup_delete_ne, lookup_insert_ne by congruence. reflexivity.
Qed.

Lemma delete_two_fresh (t : hotkeys) (i j : Z) (x y : Z * Z) :
  i <> j -> t !! i = None -> t !! j = None ->
  delete j (delete i (<[j := y]> (<[i := x]> t))) = t.
Proof.
  intros Hij Hi Hj. apply map_eq. intros n.
  destruct (decide (n = j)) as [->|Hnj]; [rewrite lookup_delete_eq, Hj; reflexivity|].
  rewrite lookup_delete_ne by congruence.
  destruct (decide (n = i)) as [->|Hni]; [rewrite lookup_delete_eq, Hi; reflexivity|].
  rewrite lookup_delete_ne, !lookup_insert_ne by congruence. reflexivity.
Qed.

Lemma register_goroutine_all_or_nothing (accepts : Z -> Z -> Z -> bool)
    (startKey pauseKey cancelKey : string) (t : hotkeys) :
  t !! 1 = None -> t !! 2 = None -> t !! 3 = None ->
  match register_goroutine accepts startKey pauseKey cancelKey t with
  | (t', None) => all_registered startKey pauseKey cancelKey t t'
  | (t', Some (InvalidHotkey spec _)) =>
      t' = t /\ succeeds (parseHotkey spec) = false /\
      In spec [startKey; pauseKey; cancelKey]
  | (t', Some (RegisterFailed spec id)) =>
      t' = t /\ In (id, spec) [(1, startKey); (2, pauseKey); (3, cancelKey)]
  | (t', Some TimeoutRegistering) => False
  end.
Proof.
  intros H1 H2 H3. unfold register_goroutine. simpl.
  destruct (parseHotkey startKey) as [[m1 v1] [e1|]] eqn:P1.
  { simpl. split; [reflexivity|]. split; [rewrite P1; reflexivity|].
    left; reflexivity. }
  destruct (parseHotkey pauseKey) as [[m2 v2] [e2|]] eqn:P2.
  { simpl. split; [reflexivity|]. split; [rewrite P2; reflexivity|].
    right; left; reflexivity. }
  destruct (parseHotkey cancelKey) as [[m3 v3] [e3|]] eqn:P3.
  { simpl. split; [reflexivity|]. split; [rewrite P3; reflexivity|].
    right; right; left; reflexivity. }
  simpl. unfold RegisterHotKey. simpl.
  destruct (accepts 1 m1 v1); simpl.
  2:{ split; [reflexivity | left; reflexivity]. }
  destruct (accepts 2 m2 v2); simpl.
  2:{ unfold UnregisterHotKey. split; [apply delete_fresh_insert, H1|].
      right; left; reflexivity. }
  destruct (accepts 3 m3 v3); simpl.
  2:{ unfold UnregisterHotKey. split; [apply delete_two_fresh; [lia|assumption..]|].
      right; right; left; reflexivity. }
  exists m1, v1, m2, v2, m3, v3. rewrite P1, P2, P3. repeat split.
Qed.

(** X10.  Registration is all or nothing, and the caller learns which
    unless it times out.  On a thread that holds none of the identifiers 1,
    2, 3, the goroutine of [registerHotkeys] either registers the three
    parsed hot keys, or leaves the hot keys of the thread as they were: a
    spec that does not parse stops it before the first call of
    RegisterHotKey, and a refused registration is followed by the
    unregistration of those made before it.  [registerHotkeys] returns nil
    only when the three are registered, and the error of the goroutine only
    when nothing is; when the answer does not come within two seconds it
    returns the timeout error, whichever of the two the goroutine does. *)
Theorem registerHotkeys_all_or_nothing (answered : bool)
    (accepts : Z -> Z -> Z -> bool)
    (startKey pauseKey cancelKey : string) (t : hotkeys) :
  t !! 1 = None -> t !! 2 = None -> t !! 3 = None ->
  let t' := fst (register_goroutine accepts startKey pauseKey cancelKey t) in
  match registerHotkeys answered accepts startKey pauseKey cancelKey t with
  | None => answered = true /\ all_registered startKey pauseKey cancelKey t t'
  | Some (InvalidHotkey spec _) =>
      answered = true /\ t' = t /\ succeeds (parseHotkey spec) = false /\
      In spec [startKey; pauseKey; cancelKey]
  | Some (RegisterFailed spec id) =>
      answered = true /\ t' = t /\
      In (id, spec) [(1, startKey); (2, pauseKey); (3, cancelKey)]
  | Some TimeoutRegistering =>
      answered = false /\
      (t' = t \/ all_registered startKey pauseKey cancelKey t t')
  end.
Proof.
  intros H1 H2 H3 t'. subst t'.
  pose proof (register_goroutine_all_or_nothing accepts startKey pauseKey cancelKey t
                H1 H2 H3) as H.
  unfold registerHotkeys.
  destruct (register_goroutine accepts startKey pauseKey cancelKey t)
    as [t' [[spec e|spec id|]|]]; cbn [fst snd]; destruct answered;
    try contradiction; try (split; [reflexivity|]); try exact H.
  - left. apply H.
  - left. apply H.
  - right. exact H.
Qed.

Lemma registerHotkeys_all_or_nothing_witness :
  registerHotkeys true refuse_third "alt+q" "alt+s" "esc" ∅
  = Some (RegisterFailed "esc" 3) /\
  fst (register_goroutine refuse_third "alt+q" "alt+s" "esc" ∅) = ∅.
Proof.
  pose proof (registerHotkeys_all_or_nothing true refuse_third "alt+q" "alt+s" "esc" ∅
                eq_refl eq_refl eq_refl) as H.
  cbv zeta in H.
  assert (E : registerHotkeys true refuse_third "alt+q" "alt+s" "esc" ∅
              = Some (RegisterFailed "esc" 3)) by (vm_compute; reflexivity).
  rewrite E in H. split; [exact E | apply H].
Defined.

End RegisterFacts.

(* ===================================================================== *)
(** * Facts about byte strings *)
(* ===================================================================== *)

Module StringFacts.
Import GoStrings Hotkey Jsonpath HotkeyFacts JsonpathFacts.

Lemma append_cons (c : ascii) (r s : string) : String c r ++ s = String c (r ++ s).
Proof. reflexivity. Qed.

Lemma append_nil_r (s : string) : s ++ "" = s.
Proof.
  induction s as [|c r IH]; [reflexivity | rewrite append_cons, IH; reflexivity].
Qed.

Lemma append_assoc (a b c : string) : (a ++ b) ++ c = a ++ (b ++ c).
Proof.
  induction a as [|x a IH]; [reflexivity | rewrite !append_cons, IH; reflexivity].
Qed.

Lemma take_bytes_app (a b : string) : take_bytes (String.length a) (a ++ b) = a.
Proof. induction a as [|c a IH]; simpl; [destruct b; reflexivity | rewrite IH; reflexivity]. Qed.

Lemma drop_bytes_app (a b : string) : drop_bytes (String.length a) (a ++ b) = b.
Proof. induction a as [|c a IH]; simpl; [reflexivity | exact IH]. Qed.

Lemma take_drop_bytes (n : nat) : forall s, take_bytes n s ++ drop_bytes n s = s.
Proof.
  induction n as [|n IH]; intros s; simpl.
  - destruct s; reflexivity.
  - destruct s as [|c r]; simpl; [reflexivity|].
    rewrite append_cons, IH. reflexivity.
Qed.

Lemma IndexByte_free (c : ascii) (s : string) :
  IndexByte c s = -1 <-> free_of c s = true.
Proof.
  induction s as [|d r IH]; simpl; [tauto|].
  destruct (Ascii.eqb d c); simpl; [split; [lia | discriminate]|].
  destruct (IndexByte_range c r) as [Hr | Hr].
  - rewrite Hr. simpl. rewrite <- IH. tauto.
  - replace (IndexByte c r <? 0) with false by lia.
    rewrite <- IH. split; lia.
Qed.

Lemma IndexByte_app (c : ascii) (a r : string) :
  free_of c a = true -> IndexByte c (a ++ String c r) = len a.
Proof.
  unfold len. induction a as [|d a IH]; simpl; intros H.
  - rewrite Ascii.eqb_refl. reflexivity.
  - apply andb_prop in H as [Hd Ha]. apply negb_true_iff in Hd. rewrite Hd.
    rewrite (IH Ha). replace (Z.of_nat (String.length a) <? 0) with false by lia.
    lia.
Qed.

(** The first occurrence of [c] cuts the string in two. *)
Lemma IndexByte_split (c : ascii) (s : string) (i : nat) :
  IndexByte c s = Z.of_nat i ->
  s = take_bytes i s ++ String c (drop_bytes (S i) s) /\
  free_of c (take_bytes i s) = true.
Proof.
  revert i. induction s as [|d r IH]; intros i; simpl; [lia|].
  destruct (Ascii.eqb_spec d c) as [->|Hne].
  - intros H. assert (i = 0%nat) as -> by lia. simpl. split; reflexivity.
  - destruct (IndexByte_range c r) as [Hr | Hr].
    + rewrite Hr. simpl. lia.
    + replace (IndexByte c r <? 0) with false by lia. intros H.
      destruct i as [|i]; [lia|].
      destruct (IH i) as [E F]; [lia|]. split.
      * change (String d r
                = String d (take_bytes i r ++ String c (drop_bytes (S i) r))).
        rewrite <- E. reflexivity.
      * simpl. rewrite F. apply Ascii.eqb_neq in Hne. rewrite Hne. reflexivity.
Qed.

Lemma all_digits_free (c : ascii) (s : string) :
  (byte_of c <? 48) || (57 <? byte_of c) = true ->
  all_digits s = true -> free_of c s = true.
Proof.
  intros Hc. induction s as [|d r IH]; simpl; [reflexivity|].
  intros H. apply andb_prop in H as [Hd Hr]. rewrite (IH Hr), andb_true_r.
  apply negb_true_iff, Ascii.eqb_neq. intros ->. lia.
Qed.

(** What [strconv.Atoi] accepts is not empty and holds signs and digits only. *)
Lemma Atoi_free (c : ascii) (d : string) (n : Z) :
  (byte_of c <? 48) || (57 <? byte_of c) = true -> c <> "-"%char -> c <> "+"%char ->
  Atoi d = Some n -> free_of c d = true.
Proof.
  intros Hc Hcm Hcp H.
  destruct d as [|x r]; [discriminate|].
  destruct (Ascii.eqb_spec x "-") as [->|Hm].
  { unfold Atoi in H. destruct r as [|c' r']; [discriminate|].
    destruct (digits_val 0 (String c' r')) eqn:E; [|discriminate].
    apply digits_val_all_digits in E.
    cbn [free_of]. rewrite (proj2 (Ascii.eqb_neq "-" c)) by congruence.
    apply (all_digits_free c _ Hc E). }
  destruct (Ascii.eqb_spec x "+") as [->|Hp].
  { unfold Atoi in H. destruct r as [|c' r']; [discriminate|].
    destruct (digits_val 0 (String c' r')) eqn:E; [|discriminate].
    apply digits_val_all_digits in E.
    cbn [free_of]. rewrite (proj2 (Ascii.eqb_neq "+" c)) by congruence.
    apply (all_digits_free c _ Hc E). }
  rewrite Atoi_unsigned in H by assumption.
  destruct (digits_val 0 (String x r)) eqn:E; [|discriminate].
  apply digits_val_all_digits in E. apply (all_digits_free c _ Hc E).
Qed.

Lemma Atoi_numeral (d : string) (n : Z) :
  Atoi d = Some n -> d <> "" /\ free_of "]" d = true.
Proof.
  intros H. split; [intros ->; discriminate H|].
  apply (Atoi_free "]" d n); [reflexivity | discriminate | discriminate | exact H].
Qed.

Lemma free_of_app (c : ascii) (a b : string) :
  free_of c (a ++ b) = free_of c a && free_of c b.
Proof.
  induction a as [|x a IH]; [reflexivity|].
  rewrite append_cons. cbn [free_of]. rewrite IH, andb_assoc. reflexivity.
Qed.

Lemma length_append (a b : string) :
  String.length (a ++ b) = (String.length a + String.length b)%nat.
Proof.
  induction a as [|c a IH]; [reflexivity|].
  rewrite append_cons. cbn [String.length]. rewrite IH. reflexivity.
Qed.

Lemma len_nonneg (s : string) : 0 <= len s.
Proof. unfold len. apply Nat2Z.is_nonneg. Qed.

Lemma len_append (a b : string) : len (a ++ b) = len a + len b.
Proof. unfold len. rewrite length_append. apply Nat2Z.inj_add. Qed.

Lemma len_cons (c : ascii) (r : string) : len (String c r) = 1 + len r.
Proof. unfold len. cbn [String.length]. rewrite Nat2Z.inj_succ. lia. Qed.

Lemma to_nat_len (s : string) : Z.to_nat (len s) = String.length s.
Proof. unfold len. apply Nat2Z.id. Qed.

(** One round of the loop of [ParseKeyAndIndexes] on a well-formed index. *)

Lemma nth_error_list_lookup {A} (l : list A) (i : nat) : nth_error l i = l !! i.
Proof. revert i. induction l as [|a l IH]; intros [|i]; simpl; auto. Qed.

Lemma Split_app (sep : ascii) (a b : string) :
  Split sep (a ++ String sep b) = (Split sep a ++ Split sep b)%list.
Proof.
  induction a as [|c a IH].
  - simpl. rewrite Ascii.eqb_refl. reflexivity.
  - rewrite append_cons. cbn [Split]. rewrite IH.
    destruct (Ascii.eqb c sep); [reflexivity|].
    pose proof (Split_nonempty sep a) as Hne.
    destruct (Split sep a); [contradiction | reflexivity].
Qed.

Lemma list_ascii_app (a b : string) :
  list_ascii_of_string (a ++ b)
  = (list_ascii_of_string a ++ list_ascii_of_string b)%list.
Proof.
  induction a as [|c a IH]; [reflexivity|].
  rewrite append_cons. cbn [list_ascii_of_string]. rewrite IH. reflexivity.
Qed.

Lemma append_inv_head (a b c : string) : a ++ b = a ++ c -> b = c.
Proof.
  induction a as [|x a IH]; [auto|]. rewrite !append_cons. intros [= H]. auto.
Qed.

Lemma HasPrefix_app (a b : string) : HasPrefix (a ++ b) a = true.
Proof.
  unfold HasPrefix. induction a as [|c a IH].
  - destruct b; reflexivity.
  - rewrite append_cons. cbn [String.prefix].
    destruct (ascii_dec c c) as [_|Hne]; [exact IH | congruence].
Qed.

End StringFacts.

(* ===================================================================== *)
(** * More facts about the JSON path functions *)
(* ===================================================================== *)

Module JsonpathMore.
Import GoStrings Hotkey Jsonpath JsonpathGrammar HotkeyFacts JsonpathFacts StringFacts.

Lemma HasPrefix_open (r : string) : HasPrefix (String "[" r) "[" = true.
Proof.
  unfold HasPrefix. simpl. destruct (ascii_dec "[" "[") as [_|Hne]; [|congruence].
  destruct r; reflexivity.
Qed.

Lemma IndexByte_close (d rest : string) :
  free_of "]" d = true ->
  IndexByte "]" (String "[" (d ++ String "]" rest)) = len d + 1.
Proof.
  intros F. pose proof (len_nonneg d).
  cbn [IndexByte]. change (Ascii.eqb "[" "]") with false. cbv iota.
  rewrite (IndexByte_app _ _ _ F).
  replace (len d <? 0) with false by lia. reflexivity.
Qed.

Lemma len_index_token (d rest : string) :
  len (String "[" (d ++ String "]" rest)) = len d + 2 + len rest.
Proof. rewrite len_cons, len_append, len_cons. lia. Qed.

Lemma parse_indexes_round (fuel : nat) (d rest : string) (idxs : list Z) :
  free_of "]" d = true ->
  parse_indexes (S fuel) (String "[" (d ++ String "]" rest)) idxs
  = if String.eqb d "" then Returned None
    else match Atoi d with
         | Some n => parse_indexes fuel rest (idxs ++ [n])%list
         | None => Returned None
         end.
Proof.
  intros Hfree.
  pose proof (len_nonneg d). pose proof (len_nonneg rest).
  cbn [parse_indexes]. rewrite (IndexByte_close _ _ Hfree), len_index_token.
  replace (0 <? len d + 2 + len rest) with true by lia.
  rewrite HasPrefix_open.
  cbn [negb]. replace (len d + 1 =? -1) with false by lia.
  unfold slice_checked, slice_from_checked. rewrite len_index_token.
  replace ((0 <=? 1) && (1 <=? len d + 1) && (len d + 1 <=? len d + 2 + len rest))
    with true by lia.
  replace ((0 <=? len d + 1 + 1) && (len d + 1 + 1 <=? len d + 2 + len rest))
    with true by lia.
  cbn [bind]. unfold slice, slice_from.
  replace (len d + 1 - 1) with (len d) by lia. rewrite to_nat_len.
  replace (len d + 1 + 1) with (len (String "[" (d ++ "]")))
    by (rewrite len_cons, len_append, len_cons; change (len "") with 0; lia).
  rewrite to_nat_len.
  change (Z.to_nat 1) with 1%nat. cbn [drop_bytes String.length].
  rewrite take_bytes_app.
  replace (d ++ String "]" rest) with ((d ++ "]") ++ rest)
    by (rewrite append_assoc; reflexivity).
  rewrite drop_bytes_app.
  destruct (String.eqb d ""); [reflexivity|].
  destruct (Atoi d); reflexivity.
Qed.

Lemma parse_indexes_step (fuel : nat) (d rest : string) (idxs : list Z) (n : Z) :
  Atoi d = Some n ->
  parse_indexes (S fuel) (String "[" (d ++ String "]" rest)) idxs
  = parse_indexes fuel rest (idxs ++ [n])%list.
Proof.
  intros Hd. destruct (Atoi_numeral _ _ Hd) as [Hne Hfree].
  rewrite (parse_indexes_round _ _ _ _ Hfree), Hd.
  destruct (String.eqb_spec d ""); [contradiction | reflexivity].
Qed.

Lemma parse_indexes_done (fuel : nat) (idxs : list Z) :
  parse_indexes fuel "" idxs = Returned (Some idxs).
Proof. destruct fuel; reflexivity. Qed.

Lemma length_brackets_cons (d : string) (ds : list string) :
  String.length (brackets (d :: ds))
  = S (String.length d + S (String.length (brackets ds))).
Proof. cbn [brackets String.length]. rewrite length_append. reflexivity. Qed.

Lemma parse_indexes_brackets (ds : list string) : forall ns fuel idxs,
  Forall2 (fun d n => Atoi d = Some n) ds ns ->
  (String.length (brackets ds) <= fuel)%nat ->
  parse_indexes fuel (brackets ds) idxs = Returned (Some (idxs ++ ns)%list).
Proof.
  induction ds as [|d ds IH]; intros ns fuel idxs HF Hfuel.
  - inversion HF; subst. cbn [brackets]. rewrite parse_indexes_done, List.app_nil_r.
    reflexivity.
  - inversion HF as [|? n ? ns' Hd HF']; subst.
    rewrite length_brackets_cons in Hfuel.
    destruct fuel as [|fuel]; [lia|].
    cbn [brackets]. rewrite (parse_indexes_step _ _ _ _ _ Hd).
    rewrite (IH ns' fuel _ HF') by lia.
    rewrite <- List.app_assoc. reflexivity.
Qed.

Lemma parse_indexes_inv (fuel : nat) : forall rest idxs r,
  parse_indexes fuel rest idxs = Returned (Some r) ->
  exists ds ns, rest = brackets ds /\ r = (idxs ++ ns)%list /\
                Forall2 (fun d n => Atoi d = Some n) ds ns.
Proof.
  assert (Hend : forall rest idxs r,
            (0 <? len rest) = false -> Returned (Some idxs) = Returned (Some r) ->
            exists ds ns, rest = brackets ds /\ r = (idxs ++ ns)%list /\
                          Forall2 (fun d n => Atoi d = Some n) ds ns).
  { intros rest idxs r Hlen [= <-]. exists [], []. rewrite List.app_nil_r.
    destruct rest as [|c r0]; [repeat split; constructor|].
    rewrite len_cons in Hlen. pose proof (len_nonneg r0). lia. }
  induction fuel as [|fuel IH]; intros rest idxs r H.
  { cbn [parse_indexes] in H.
    destruct (0 <? len rest) eqn:Hlen; [discriminate|]. eapply Hend; eassumption. }
  destruct (0 <? len rest) eqn:Hlen.
  2:{ cbn [parse_indexes] in H. rewrite Hlen in H. eapply Hend; eassumption. }
  destruct (HasPrefix rest "[") eqn:Hpre.
  2:{ cbn [parse_indexes] in H. rewrite Hlen, Hpre in H. discriminate. }
  apply HasPrefix_bracket in Hpre as [r0 ->].
  destruct (IndexByte_range "]" r0) as [Hno | Hr].
  { cbn [parse_indexes] in H. rewrite Hlen, HasPrefix_open in H. cbn [negb] in H.
    cbn [IndexByte] in H. change (Ascii.eqb "[" "]") with false in H. cbv iota in H.
    rewrite Hno in H. change (-1 <? 0) with true in H. cbv iota in H.
    change (-1 =? -1) with true in H. cbv iota in H. discriminate. }
  destruct (IndexByte_split "]" r0 (Z.to_nat (IndexByte "]" r0))) as [E F]; [lia|].
  set (i := Z.to_nat (IndexByte "]" r0)) in *.
  set (d := take_bytes i r0) in *.
  set (rest' := drop_bytes (S i) r0) in *.
  rewrite E, (parse_indexes_round _ _ _ _ F) in H.
  destruct (String.eqb d ""); [discriminate|].
  destruct (Atoi d) as [n|] eqn:Hd; [|discriminate].
  apply IH in H as (ds & ns & Hrest & -> & HF).
  exists (d :: ds), (n :: ns). split; [|split].
  - rewrite E at 1. rewrite Hrest. reflexivity.
  - rewrite <- List.app_assoc. reflexivity.
  - constructor; assumption.
Qed.

(** A key followed by bracketed numerals parses to the key and their values. *)
Lemma ParseKeyAndIndexes_accepts (key : string) (ds : list string) (ns : list Z) :
  key ++ brackets ds <> "" -> free_of "[" key = true ->
  Forall2 (fun d n => Atoi d = Some n) ds ns ->
  ParseKeyAndIndexes (key ++ brackets ds) = Returned (Some (key, ns)).
Proof.
  intros Hne Hfree HF. unfold ParseKeyAndIndexes.
  destruct (String.eqb_spec (key ++ brackets ds) "") as [|_]; [contradiction|].
  destruct ds as [|d ds].
  - inversion HF; subst. cbn [brackets]. rewrite append_nil_r.
    rewrite (proj2 (IndexByte_free "[" key) Hfree). reflexivity.
  - pose proof (len_nonneg key) as Hk.
    cbn [brackets]. rewrite (IndexByte_app _ _ _ Hfree).
    replace (len key =? -1) with false by lia.
    unfold slice_checked, slice_from_checked.
    rewrite len_append.
    pose proof (len_nonneg (String "[" (d ++ String "]" (brackets ds)))) as Hr.
    replace ((0 <=? 0) && (0 <=? len key)
             && (len key <=? len key + len (String "[" (d ++ String "]" (brackets ds)))))
      with true by lia.
    replace ((0 <=? len key)
             && (len key <=? len key + len (String "[" (d ++ String "]" (brackets ds)))))
      with true by lia.
    cbn [bind]. unfold slice, slice_from. rewrite Z.sub_0_r, to_nat_len.
    change (Z.to_nat 0) with 0%nat. cbn [drop_bytes].
    rewrite take_bytes_app, drop_bytes_app.
    change (String "[" (d ++ String "]" (brackets ds))) with (brackets (d :: ds)).
    rewrite (parse_indexes_brackets (d :: ds) ns _ [] HF (le_n _)).
    reflexivity.
Qed.

(** X11.  The tokens [ParseKeyAndIndexes] takes, exactly: a key without an
    opening bracket followed by any number of bracketed numerals that
    [strconv.Atoi] reads, the whole not empty; the result is the key and the
    values of the numerals in order. *)
Theorem ParseKeyAndIndexes_grammar (token key : string) (ns : list Z) :
  ParseKeyAndIndexes token = Returned (Some (key, ns)) <->
  token <> "" /\ free_of "[" key = true /\
  exists ds, token = key ++ brackets ds /\
             Forall2 (fun d n => Atoi d = Some n) ds ns.
Proof.
  unfold ParseKeyAndIndexes. split.
  - intros H. destruct (String.eqb_spec token "") as [|Hne]; [discriminate|].
    split; [exact Hne|].
    destruct (IndexByte_range "[" token) as [Hno | Hr].
    + rewrite Hno in H. change (-1 =? -1) with true in H. cbv iota in H.
      injection H as <- <-. split; [apply IndexByte_free, Hno|].
      exists []. split; [symmetry; apply append_nil_r | constructor].
    + set (br := IndexByte "[" token) in *.
      replace (br =? -1) with false in H by lia.
      unfold slice_checked, slice_from_checked in H.
      replace ((0 <=? 0) && (0 <=? br) && (br <=? len token)) with true in H by lia.
      replace ((0 <=? br) && (br <=? len token)) with true in H by lia.
      cbn [bind] in H.
      destruct (parse_indexes (String.length (slice_from token br))
                  (slice_from token br) []) as [[idxs|]| |] eqn:Hp;
        cbn [bind] in H; try discriminate.
      injection H as <- <-.
      apply parse_indexes_inv in Hp as (ds & ns' & Hrest & -> & HF).
      destruct (IndexByte_split "[" token (Z.to_nat br)) as [E F]; [unfold br; lia|].
      unfold slice, slice_from in *. rewrite Z.sub_0_r. change (Z.to_nat 0) with 0%nat.
      cbn [drop_bytes]. split; [exact F|]. exists ds. split; [|exact HF].
      rewrite <- Hrest. symmetry. apply take_drop_bytes.
  - intros (Hne & Hfree & ds & -> & HF).
    apply ParseKeyAndIndexes_accepts; assumption.
Qed.



Section Values.
Context {float64 : Type}.
Variable format_number : float64 -> string.
Variable Unmarshal : string -> option (value float64).
Variable range_order : gmap string (value float64) -> list (string * value float64).

#[local] Abbreviation value := (value float64).

(** The walk along [p1.p2] is the walk along [p1], then along [p2]. *)
Lemma walk_dot (root : value) (p1 p2 : string) :
  walk float64 root (Split "." (p1 ++ String "." p2)) =
  let* r := walk float64 root (Split "." p1) in
  match r with
  | Some v => walk float64 v (Split "." p2)
  | None => Returned None
  end.
Proof. rewrite Split_app. apply walk_app. Qed.

(** X12.  Paths compose: extraction along [p1.p2] is the walk along [p1]
    followed by extraction along [p2] from the value it reaches, and fails
    when the walk does. *)
Theorem ExtractByPath_compose (root : value) (p1 p2 : string) :
  ExtractByPath float64 format_number root (p1 ++ String "." p2) =
  let* r := walk float64 root (Split "." p1) in
  match r with
  | Some v => ExtractByPath float64 format_number v p2
  | None => Returned ("", false)
  end.
Proof.
  unfold ExtractByPath at 1.
  destruct (String.eqb_spec (p1 ++ String "." p2) "") as [E|_].
  { destruct p1; discriminate E. }
  rewrite walk_dot.
  destruct (walk float64 root (Split "." p1)) as [[v|]| |]; cbn [bind]; try reflexivity.
  unfold ExtractByPath.
  destruct (String.eqb_spec p2 "") as [->|_]; reflexivity.
Qed.

Lemma ParseKeyAndIndexes_key (key : string) :
  key <> "" -> free_of "[" key = true ->
  ParseKeyAndIndexes key = Returned (Some (key, [])).
Proof.
  intros Hne Hfree. unfold ParseKeyAndIndexes.
  destruct (String.eqb_spec key ""); [contradiction|].
  rewrite (proj2 (IndexByte_free "[" key) Hfree). reflexivity.
Qed.

Lemma walk_part_key (m : gmap string value) (key : string) :
  key <> "" -> free_of "[" key = true ->
  walk_part float64 (JObject m) key = Returned (m !! key).
Proof.
  intros Hne Hfree. unfold walk_part.
  rewrite (ParseKeyAndIndexes_key key Hne Hfree). cbn [bind]. unfold walk_key.
  destruct (String.eqb_spec key ""); [contradiction|]. cbn [negb].
  destruct (m !! key); reflexivity.
Qed.

(** X13.  A plain key reads a field.  For a key that is not empty and holds
    neither a dot nor an opening bracket, extraction from an object gives
    the text of the field when there is one (of a string, number or boolean
    field; no text for another kind) and fails when there is none; a longer
    path goes on from the field. *)
Theorem ExtractByPath_field (m : gmap string value) (key : string) :
  key <> "" -> free_of "." key = true -> free_of "[" key = true ->
  ExtractByPath float64 format_number (JObject m) key
  = Returned (match m !! key with
              | Some v => leaf_text float64 format_number v
              | None => ("", false)
              end) /\
  forall p,
    ExtractByPath float64 format_number (JObject m) (key ++ String "." p)
    = match m !! key with
      | Some v => ExtractByPath float64 format_number v p
      | None => Returned ("", false)
      end.
Proof.
  intros Hne Hdot Hbr.
  assert (Hw : walk float64 (JObject m) (Split "." key) = Returned (m !! key)).
  { rewrite (Split_free_single _ _ Hdot). cbn [walk].
    rewrite (walk_part_key m key Hne Hbr). cbn [bind].
    destruct (m !! key); reflexivity. }
  split.
  - unfold ExtractByPath. destruct (String.eqb_spec key ""); [contradiction|].
    rewrite Hw. cbn [bind]. destruct (m !! key); reflexivity.
  - intros p. unfold ExtractByPath at 1.
    destruct (String.eqb_spec (key ++ String "." p) "") as [E|_].
    { destruct key; discriminate E. }
    rewrite walk_dot, Hw. cbn [bind].
    destruct (m !! key) as [v|]; [|reflexivity].
    unfold ExtractByPath. destruct (String.eqb_spec p "") as [->|_]; reflexivity.
Qed.

(** X14.  A bracketed numeral reads an element.  On an array, the token
    [[d]] with [d] a numeral of value [n] gives the text of element [n] when
    [0 <= n < len(arr)] and fails otherwise, negative values included; on a
    value that is not an array it fails. *)
Theorem ExtractByPath_index (cur : value) (d : string) (n : Z) :
  Atoi d = Some n ->
  ExtractByPath float64 format_number cur (brackets [d])
  = Returned (match cur with
              | JArray items =>
                  if (0 <=? n) && (n <? Z.of_nat (List.length items)) then
                    match items !! Z.to_nat n with
                    | Some v => leaf_text float64 format_number v
                    | None => ("", false)
                    end
                  else ("", false)
              | _ => ("", false)
              end).
Proof.
  intros Hd. destruct (Atoi_numeral _ _ Hd) as [Hne Hfree].
  assert (Hp : ParseKeyAndIndexes (brackets [d]) = Returned (Some ("", [n]))).
  { apply (ParseKeyAndIndexes_accepts "" [d] [n]);
      [discriminate | reflexivity | repeat constructor; exact Hd]. }
  assert (Hs : Split "." (brackets [d]) = [brackets [d]]).
  { apply Split_free_single. cbn [brackets free_of].
    rewrite free_of_app.
    rewrite (Atoi_free "." d n eq_refl ltac:(discriminate) ltac:(discriminate) Hd).
    reflexivity. }
  unfold ExtractByPath.
  destruct (String.eqb_spec (brackets [d]) "") as [E|_]; [discriminate E|].
  rewrite Hs. cbn [walk]. unfold walk_part. rewrite Hp. cbn [bind].
  change (walk_key float64 cur "") with (Some cur). cbv iota. cbn [walk_indexes].
  destruct cur; try reflexivity.
  destruct ((n <? 0) || (Z.of_nat (List.length items) <=? n)) eqn:Hout.
  - replace ((0 <=? n) && (n <? Z.of_nat (List.length items))) with false by lia.
    reflexivity.
  - replace ((0 <=? n) && (n <? Z.of_nat (List.length items))) with true by lia.
    unfold index_checked.
    replace ((0 <=? n) && (n <? Z.of_nat (List.length items))) with true by lia.
    destruct (nth_error items (Z.to_nat n)) as [v|] eqn:Hnth.
    + cbn [bind walk_indexes]. 
      rewrite <- nth_error_list_lookup, Hnth. reflexivity.
    + apply nth_error_None in Hnth. lia.
Qed.

Lemma first_string_sound (l : list (string * value)) (s : string) :
  first_string float64 l = Some s -> s <> "" /\ exists k, In (k, JString s) l.
Proof.
  induction l as [|[k v] l IH]; [discriminate|]. cbn [first_string].
  assert (Hrec : first_string float64 l = Some s ->
                 s <> "" /\ exists k0, In (k0, JString s) ((k, v) :: l)).
  { intros H. destruct (IH H) as [Hne [k0 Hin]]. split; [exact Hne|].
    exists k0. right. exact Hin. }
  destruct v; try exact Hrec.
  destruct (String.eqb_spec s0 "") as [->|Hne]; cbn [negb]; [exact Hrec|].
  intros [= ->]. split; [exact Hne|]. exists k. left. reflexivity.
Qed.

Lemma first_string_none (l : list (string * value)) :
  first_string float64 l = None -> forall k s, In (k, JString s) l -> s = "".
Proof.
  induction l as [|[k v] l IH]; intros H k0 s Hin; [destruct Hin|].
  cbn [first_string] in H. destruct Hin as [E|Hin].
  - injection E as -> ->.
    destruct (String.eqb_spec s ""); [assumption | discriminate H].
  - destruct v; try (eapply IH; eassumption).
    destruct (String.eqb s0 ""); [eapply IH; eassumption | discriminate H].
Qed.

(** [ExtractTextFromResponse] returns, whatever the response. *)
Lemma ExtractTextFromResponse_returns (body textPath : string) :
  exists text,
    ExtractTextFromResponse float64 format_number Unmarshal range_order body textPath
    = Returned text.
Proof.
  unfold ExtractTextFromResponse.
  destruct (Unmarshal body) as [root|]; [|eauto].
  destruct (negb (String.eqb textPath "")).
  - destruct (ExtractByPath_returns format_number root textPath) as (v & ok & -> & _).
    cbn [bind]. destruct ok; [eauto|].
    destruct root; eauto. destruct (text_field _ _ _); [eauto|].
    destruct (first_string _ _); eauto.
  - cbn [bind]. destruct root; eauto. destruct (text_field _ _ _); [eauto|].
    destruct (first_string _ _); eauto.
Qed.

(** X15.  The order of the fallbacks of [ExtractTextFromResponse] on a
    response that parses.  A configured path that resolves wins, with its
    value even when that is empty.  Otherwise a string, number or boolean
    field [text] of an object is the result.  Otherwise the result is a
    non-empty string field of the object, if there is one: the one there
    is when they all hold the same text, whatever the order in which [range]
    visits the map; and it is empty when the object has none, or when the
    response is not an object. *)
Theorem ExtractTextFromResponse_fallback (body textPath : string) (root : value) :
  Unmarshal body = Some root ->
  (forall m k v, In (k, v) (range_order m) <-> m !! k = Some v) ->
  let result :=
    ExtractTextFromResponse float64 format_number Unmarshal range_order body textPath in
  (forall v, textPath <> "" ->
     ExtractByPath float64 format_number root textPath = Returned (v, true) ->
     result = Returned v) /\
  (textPath = "" \/
   ExtractByPath float64 format_number root textPath = Returned ("", false) ->
   match root with
   | JObject m =>
       match text_field float64 format_number m with
       | Some s => result = Returned s
       | None =>
           (forall s, s <> "" -> (exists k, m !! k = Some (JString s)) ->
              (forall k' s', m !! k' = Some (JString s') -> s' = "" \/ s' = s) ->
              result = Returned s) /\
           ((forall k s, m !! k = Some (JString s) -> s = "") ->
            result = Returned "") /\
           exists s, result = Returned s /\
                     (s = "" \/ exists k, m !! k = Some (JString s))
       end
   | _ => result = Returned ""
   end).
Proof.
  intros Hu Hro result. subst result. unfold ExtractTextFromResponse. rewrite Hu.
  split.
  - intros v Hne Hp. destruct (String.eqb_spec textPath ""); [contradiction|].
    cbn [negb]. rewrite Hp. reflexivity.
  - intros Hmiss.
    assert (Hr : (if negb (String.eqb textPath "")
                  then ExtractByPath float64 format_number root textPath
                  else Returned ("", false)) = Returned ("", false)).
    { destruct Hmiss as [->|Hp]; [reflexivity|].
      destruct (negb (String.eqb textPath "")); [exact Hp | reflexivity]. }
    rewrite Hr. cbn [bind]. destruct root; try reflexivity.
    destruct (text_field float64 format_number fields) as [s|]; [reflexivity|].
    destruct (first_string float64 (range_order fields)) as [s0|] eqn:Hf.
    + apply first_string_sound in Hf as [Hne [k0 Hin]]. apply Hro in Hin.
      split; [|split].
      * intros s Hs [k Hk] Hall. destruct (Hall _ _ Hin) as [E|E]; congruence.
      * intros Hall. apply Hall in Hin. contradiction.
      * exists s0. split; [reflexivity|]. right. exists k0. exact Hin.
    + pose proof (first_string_none _ Hf) as Hnone. split; [|split].
      * intros s Hs [k Hk] _. apply Hro in Hk. apply Hnone in Hk. contradiction.
      * intros _. reflexivity.
      * exists "". split; [reflexivity | left; reflexivity].
Qed.

End Values.

Lemma ExtractByPath_field_witness :
  ExtractByPath unit (fun _ => "") (JObject sample_fields) "text"
    = Returned ("hello", true) /\
  ExtractByPath unit (fun _ => "") (JObject sample_fields) "missing"
    = Returned ("", false).
Proof.
  split.
  - destruct (ExtractByPath_field (fun _ : unit => "") sample_fields "text")
      as [H _]; [discriminate | reflexivity | reflexivity |].
    exact H.
  - reflexivity.
Defined.

Lemma ExtractByPath_index_witness :
  Atoi "1" = Some 1 /\
  ExtractByPath unit (fun _ => "") (JArray [JString "a"; JString "b"]) "[1]"
    = Returned ("b", true).
Proof.
  split; [reflexivity|].
  exact (ExtractByPath_index (fun _ : unit => "")
           (JArray [JString "a"; JString "b"]) "1" 1 eq_refl).
Defined.

Lemma map_to_list_order {A} (m : gmap string A) (k : string) (v : A) :
  In (k, v) (map_to_list m) <-> m !! k = Some v.
Proof. rewrite <- list_elem_of_In. apply elem_of_map_to_list. Qed.

Lemma ExtractTextFromResponse_fallback_witness :
  ExtractTextFromResponse unit (fun _ => "")
    (fun _ => Some (JObject sample_result_fields)) map_to_list "{}" "result"
  = Returned "hello".
Proof.
  apply (proj1 (ExtractTextFromResponse_fallback (fun _ : unit => "")
                  (fun _ => Some (JObject sample_result_fields)) map_to_list
                  "{}" "result" (JObject sample_result_fields) eq_refl
                  (fun m k v => map_to_list_order m k v)) "hello").
  - discriminate.
  - reflexivity.
Defined.

End JsonpathMore.

(* ===================================================================== *)
(** * Facts about [Transcribe] *)
(* ===================================================================== *)

Module AsrFacts.
Import GoStrings Jsonpath Asr JsonpathGrammar JsonpathMore.

Section Client.
Context {float64 : Type}.
Variable format_number : float64 -> string.
Variable Unmarshal : string -> option (value float64).
Variable range_order : gmap string (value float64) -> list (string * value float64).
Variable APIEndpoint : string.
Variable TEXTPath : string.
Variable MaxRetry : Z.
Variable doUpload : Z -> bool * string.

#[local] Abbreviation extract res :=
  (ExtractTextFromResponse float64 format_number Unmarshal range_order res TEXTPath).
#[local] Abbreviation loop :=
  (retry_loop float64 format_number Unmarshal range_order TEXTPath MaxRetry doUpload).

Lemma retry_loop_returns (fuel : nat) : forall try,
  0 <= try -> try < Z.max 1 MaxRetry -> Z.max 1 MaxRetry - try <= Z.of_nat fuel ->
  (forall i, 1 <= i <= try -> fst (doUpload i) = false) ->
  exists t, loop fuel try = Returned t /\
    try < attempts t <= Z.max 1 MaxRetry /\
    (forall i, 1 <= i < attempts t -> fst (doUpload i) = false) /\
    raw t = Some (snd (doUpload (attempts t))) /\
    match err t with
    | None => fst (doUpload (attempts t)) = true /\
              extract (snd (doUpload (attempts t))) = Returned (text t)
    | Some e => e = RetriesExceeded MaxRetry /\
                fst (doUpload (attempts t)) = false /\
                attempts t = Z.max 1 MaxRetry /\ text t = ""
    end.
Proof.
  induction fuel as [|fuel IH]; intros try H0 Hlt Hfuel Hfail; [lia|].
  cbn [retry_loop]. destruct (doUpload (try + 1)) as [ok res] eqn:Hup.
  destruct ok.
  - destruct (ExtractTextFromResponse_returns format_number Unmarshal range_order
                res TEXTPath) as [t Ht].
    rewrite Ht. cbn [bind]. eexists. split; [reflexivity|]. cbn.
    rewrite Hup. cbn. repeat split; try lia; try assumption.
    intros i Hi. apply Hfail. lia.
  - destruct (try + 1 >=? MaxRetry) eqn:Hge.
    + eexists. split; [reflexivity|]. cbn. rewrite Hup. cbn.
      repeat split; try lia.
      intros i Hi. apply Hfail. lia.
    + assert (Hf' : forall i, 1 <= i <= try + 1 -> fst (doUpload i) = false).
      { intros i Hi. destruct (Z.eq_dec i (try + 1)) as [->|Hne].
        - rewrite Hup. reflexivity.
        - apply Hfail. lia. }
      destruct (IH (try + 1)) as (t & Ht & Hr & Hrest); try lia; try assumption.
      exists t. split; [exact Ht|]. split; [lia | exact Hrest].
Qed.

(** X16.  The retry loop of [Transcribe].  With an endpoint configured it
    returns after at least one and at most [MaxRetry] uploads (one when
    [MaxRetry] is below one); every upload before the last failed; the raw
    bytes are those of the last upload.  The error is nil exactly when the
    last upload succeeded, and the text is then extracted from its body;
    otherwise all [MaxRetry] uploads failed and the text is empty. *)
Theorem Transcribe_attempts :
  APIEndpoint <> "" ->
  exists t,
    Transcribe float64 format_number Unmarshal range_order APIEndpoint TEXTPath
      MaxRetry doUpload = Returned t /\
    1 <= attempts t <= Z.max 1 MaxRetry /\
    (forall i, 1 <= i < attempts t -> fst (doUpload i) = false) /\
    raw t = Some (snd (doUpload (attempts t))) /\
    match err t with
    | None => fst (doUpload (attempts t)) = true /\
              extract (snd (doUpload (attempts t))) = Returned (text t)
    | Some e => e = RetriesExceeded MaxRetry /\
                fst (doUpload (attempts t)) = false /\
                attempts t = Z.max 1 MaxRetry /\ text t = ""
    end.
Proof.
  intros Hne. unfold Transcribe.
  destruct (String.eqb_spec APIEndpoint ""); [contradiction|].
  destruct (retry_loop_returns (Z.to_nat (Z.max 1 MaxRetry)) 0) as (t & Ht & Hr & Hrest);
    try lia.
  exists t. split; [exact Ht|]. split; [lia | exact Hrest].
Qed.

End Client.

Lemma Transcribe_attempts_witness :
  exists t,
    Transcribe unit (fun _ => "") (fun _ => Some (JObject sample_fields)) map_to_list
      "http://localhost/v1" "text" 3 second_try_succeeds = Returned t /\
    attempts t = 2 /\ err t = None /\ text t = "hello".
Proof.
  destruct (Transcribe_attempts (fun _ : unit => "")
              (fun _ => Some (JObject sample_fields)) map_to_list
              "http://localhost/v1" "text" 3 second_try_succeeds)
    as (t & Ht & _); [discriminate|].
  exists t. split; [exact Ht|].
  vm_compute in Ht. injection Ht as <-. repeat split.
Defined.

End AsrFacts.

(* ===================================================================== *)
(** * Facts about the configuration and the ffmpeg command line *)
(* ===================================================================== *)

Module ConfigFacts.
Import GoStrings Hotkey Config Ffmpeg HotkeyFacts HotkeyMore.

Lemma lower_byte_ascii (c : ascii) :
  is_ascii_byte c = true -> is_ascii_byte (lower_byte c) = true.
Proof. destruct c as [[] [] [] [] [] [] [] []]; vm_compute; congruence. Qed.

Lemma is_ascii_ToLower (s : string) : is_ascii s = true -> is_ascii (ToLower s) = true.
Proof.
  unfold ToLower. induction s as [|c r IH]; [reflexivity|].
  cbn [is_ascii map_bytes]. intros H. apply andb_prop in H as [Hc Hr].
  rewrite (lower_byte_ascii c Hc), (IH Hr). reflexivity.
Qed.

Lemma one_of_single (s t : string) : one_of s [t] = true -> s = t.
Proof. intros H. apply one_of_In in H as [E|[]]. symmetry. exact E. Qed.

Lemma ContainerExt_ToLower (container : string) :
  ContainerExt container
  = if String.eqb (ToLower container) "" then "ogg" else ToLower container.
Proof.
  unfold ContainerExt. set (c := ToLower container).
  repeat match goal with
  | |- (if one_of c [?t] then _ else _) = _ =>
      let E := fresh "E" in
      destruct (one_of c [t]) eqn:E;
      [apply one_of_single in E; rewrite E; reflexivity | clear E]
  end.
  destruct (one_of c _) eqn:E; [|reflexivity].
  destruct (String.eqb_spec c "") as [E0|]; [|reflexivity].
  rewrite E0 in E. discriminate E.
Qed.

(** X17.  [ContainerExt] is lower-casing with a default.  For a container
    name made of ASCII characters, the extension is the name in lower case,
    [ogg] for the empty name, whether or not the name is one the switch
    lists.  It is never empty, it is made of ASCII characters, and applying
    [ContainerExt] twice changes nothing. *)
Theorem ContainerExt_lowercase (container : string) :
  is_ascii container = true ->
  ContainerExt container
  = (if String.eqb (ToLower container) "" then "ogg" else ToLower container) /\
  is_ascii (ContainerExt container) = true /\
  ContainerExt container <> "" /\
  ContainerExt (ContainerExt container) = ContainerExt container.
Proof.
  intros Ha.
  split; [apply ContainerExt_ToLower|].
  split.
  { rewrite ContainerExt_ToLower.
    destruct (String.eqb (ToLower container) ""); [reflexivity|].
    apply is_ascii_ToLower, Ha. }
  rewrite (ContainerExt_ToLower (ContainerExt container)).
  rewrite (ContainerExt_ToLower container).
  destruct (String.eqb_spec (ToLower container) "") as [E|Hne].
  - split; [discriminate | reflexivity].
  - split; [exact Hne|]. rewrite ToLower_idem.
    destruct (String.eqb_spec (ToLower container) ""); [contradiction | reflexivity].
Qed.

Lemma ContainerExt_lowercase_witness :
  ContainerExt "OGG" = "ogg" /\ ContainerExt "" = "ogg" /\
  ContainerExt (ContainerExt "Flac") = ContainerExt "Flac".
Proof.
  split; [reflexivity|]. split; [reflexivity|].
  apply (ContainerExt_lowercase "Flac"). reflexivity.
Defined.

Lemma allowed_codec_supported (key : string) :
  one_of (ToLower key) allowedCodecs = true -> fst (ffmpegCodecFor key) <> "".
Proof.
  intros H. apply one_of_In in H. unfold allowedCodecs in H. simpl in H.
  unfold ffmpegCodecFor.
  repeat (destruct H as [E|H]; [rewrite <- E; vm_compute; discriminate|]).
  destruct H.
Qed.

Lemma supported_codec_allowed (key : string) :
  fst (ffmpegCodecFor key) <> "" -> one_of (ToLower key) allowedCodecs = true.
Proof.
  unfold ffmpegCodecFor. set (k := ToLower key). intros H.
  repeat match type of H with
  | fst (if one_of k ?l then _ else _) <> _ =>
      let E := fresh "E" in
      destruct (one_of k l) eqn:E;
      [ apply one_of_In in E; apply one_of_In; unfold allowedCodecs;
        simpl in E |- *; tauto
      | clear E ]
  end.
  contradiction H. reflexivity.
Qed.

(** X18.  [Validate] and [ffmpegCodecFor] know the same codecs: a codec
    name passes the check of [Validate] exactly when [ffmpegCodecFor] has an
    encoder for it, so that [Convert] does not fail with "unsupported codec"
    on a configuration that was validated. *)
Theorem validated_codecs_supported (key : string) :
  one_of (ToLower key) allowedCodecs = true <-> fst (ffmpegCodecFor key) <> "".
Proof.
  split; [apply allowed_codec_supported | apply supported_codec_allowed].
Qed.

Lemma ffmpegCodecFor_ToLower (key : string) :
  ffmpegCodecFor (ToLower key) = ffmpegCodecFor key.
Proof. unfold ffmpegCodecFor. rewrite ToLower_idem. reflexivity. Qed.

Section Convert.
Variable Itoa : Z -> string.

(** X19.  The command line of [Convert] for a validated configuration: the
    codec is supported; channels, sampling rate and bit rate are those of the
    configuration (no default steps in, and the [rate] argument is not
    used); an encoder that is not raw PCM gets a sample format for the
    configured depth, and a bit rate when it takes one; the output path
    comes last. *)
Theorem Convert_args_validated (cfg : Config) (inPath outPath : string) (rate : Z) :
  Validate cfg = None ->
  exists codec hasBitrate fmt,
    ffmpegCodecFor (CODECS cfg) = (codec, hasBitrate) /\ codec <> "" /\
    In (SAMPLING_RATE_DEPTH cfg, fmt) [(8, "u8"); (16, "s16"); (24, "s24"); (32, "s32")] /\
    Convert_args Itoa cfg inPath outPath rate
    = Some (["-y"; "-i"; inPath; "-ac"; Itoa (Channels cfg);
             "-ar"; Itoa (SAMPLING_RATE cfg); "-c:a"; codec]
            ++ (if HasPrefix codec "pcm_" then []
                else (if hasBitrate then ["-b:a"; (Itoa (BIT_RATE cfg) ++ "k")%string] else [])
                     ++ ["-sample_fmt"; fmt])
            ++ [outPath])%list.
Proof.
  unfold Validate. intros H.
  destruct ((Channels cfg <? 1) || (8 <? Channels cfg)) eqn:Hch; [discriminate|].
  destruct (SAMPLING_RATE cfg <=? 0) eqn:Hsr; [discriminate|].
  destruct ((SAMPLING_RATE_DEPTH cfg =? 8) || (SAMPLING_RATE_DEPTH cfg =? 16)
            || (SAMPLING_RATE_DEPTH cfg =? 24) || (SAMPLING_RATE_DEPTH cfg =? 32))
    eqn:Hd; [|discriminate].
  destruct (BIT_RATE cfg <=? 0) eqn:Hbr; [discriminate|].
  destruct (one_of (ToLower (CODECS cfg)) allowedCodecs) eqn:Hc; [|discriminate].
  clear H. apply allowed_codec_supported in Hc.
  unfold Convert_args. rewrite ffmpegCodecFor_ToLower.
  destruct (ffmpegCodecFor (CODECS cfg)) as [codec hasBitrate]. simpl in Hc.
  replace (Channels cfg <=? 0) with false by lia. rewrite Hsr, Hbr.
  replace (SAMPLING_RATE_DEPTH cfg =? 0) with false by lia.
  destruct (String.eqb_spec codec ""); [contradiction|].
  assert (Hfmt : exists fmt,
            In (SAMPLING_RATE_DEPTH cfg, fmt)
               [(8, "u8"); (16, "s16"); (24, "s24"); (32, "s32")] /\
            sample_fmt_args (SAMPLING_RATE_DEPTH cfg) = ["-sample_fmt"; fmt]).
  { unfold sample_fmt_args.
    destruct (SAMPLING_RATE_DEPTH cfg =? 8) eqn:E8;
      [apply Z.eqb_eq in E8; rewrite E8; exists "u8"; simpl; auto|].
    destruct (SAMPLING_RATE_DEPTH cfg =? 16) eqn:E16;
      [apply Z.eqb_eq in E16; rewrite E16; exists "s16"; simpl; auto|].
    destruct (SAMPLING_RATE_DEPTH cfg =? 24) eqn:E24;
      [apply Z.eqb_eq in E24; rewrite E24; exists "s24"; simpl; auto|].
    destruct (SAMPLING_RATE_DEPTH cfg =? 32) eqn:E32;
      [apply Z.eqb_eq in E32; rewrite E32; exists "s32"; simpl; auto 6|].
    discriminate Hd. }
  destruct Hfmt as (fmt & Hin & Hargs).
  exists codec, hasBitrate, fmt. repeat split; try assumption.
  rewrite Hargs. destruct (HasPrefix codec "pcm_"); [reflexivity|].
  destruct hasBitrate; reflexivity.
Qed.

End Convert.

Lemma Convert_args_validated_witness :
  Validate DefaultConfig = None /\
  exists codec hasBitrate fmt,
    ffmpegCodecFor (CODECS DefaultConfig) = (codec, hasBitrate) /\ codec <> "" /\
    In (SAMPLING_RATE_DEPTH DefaultConfig, fmt)
       [(8, "u8"); (16, "s16"); (24, "s24"); (32, "s32")] /\
    Convert_args sample_Itoa DefaultConfig "in.wav" "out.ogg" 0
    = Some (["-y"; "-i"; "in.wav"; "-ac"; sample_Itoa (Channels DefaultConfig);
             "-ar"; sample_Itoa (SAMPLING_RATE DefaultConfig); "-c:a"; codec]
            ++ (if HasPrefix codec "pcm_" then []
                else (if hasBitrate
                      then ["-b:a"; (sample_Itoa (BIT_RATE DefaultConfig) ++ "k")%string]
                      else [])
                     ++ ["-sample_fmt"; fmt])
            ++ ["out.ogg"])%list.
Proof.
  split; [reflexivity|].
  exact (Convert_args_validated sample_Itoa DefaultConfig "in.wav" "out.ogg" 0 eq_refl).
Defined.

End ConfigFacts.

(* ===================================================================== *)
(** * Facts about temporary files *)
(* ===================================================================== *)

Module AppFacts.
Import GoStrings Hotkey Record Config App HotkeyFacts StringFacts ConfigFacts.


Lemma ext_scan_plain (r : list ascii) : forall (more : list ascii) (suffix : string),
  Forall (fun c => is_path_separator c = false /\ Ascii.eqb c "." = false) r ->
  ext_scan (r ++ "."%char :: more) suffix
  = String "." (string_of_list_ascii (rev r) ++ suffix).
Proof.
  induction r as [|c r IH]; intros more suffix Hr; [reflexivity|].
  inversion Hr as [|? ? [Hs Hd] Hr']; subst.
  cbn [app ext_scan]. rewrite Hs, Hd, (IH _ _ Hr'). f_equal.
  cbn [rev]. clear. induction (rev r) as [|x l IH]; [reflexivity|].
  cbn [app string_of_list_ascii]. rewrite !append_cons, IH. reflexivity.
Qed.

Lemma Ext_dot (p e : string) : plain e -> Ext (p ++ String "." e) = String "." e.
Proof.
  intros He. unfold Ext. rewrite list_ascii_app. cbn [list_ascii_of_string].
  rewrite rev_app_distr. cbn [rev]. rewrite <- List.app_assoc. cbn [app].
  rewrite ext_scan_plain by (apply List.Forall_rev, He).
  rewrite rev_involutive, string_of_list_ascii_of_string, append_nil_r.
  reflexivity.
Qed.

Lemma TrimSuffix_app (a b : string) : TrimSuffix (a ++ b) b = a.
Proof.
  unfold TrimSuffix, HasSuffix. rewrite length_append.
  replace (String.length a + String.length b - String.length b)%nat
    with (String.length a) by lia.
  rewrite drop_bytes_app, take_bytes_app, String.eqb_refl.
  replace (String.length b <=? String.length a + String.length b)%nat with true
    by (symmetry; apply Nat.leb_le; lia).
  reflexivity.
Qed.

Lemma filepath_Join_app (dir base1 base2 : string) :
  base1 <> "" ->
  filepath_Join dir (base1 ++ base2) = filepath_Join dir base1 ++ base2.
Proof.
  intros _. unfold filepath_Join. destruct (String.eqb dir ""); [reflexivity|].
  rewrite !append_assoc. reflexivity.
Qed.

Lemma plain_wav : plain "wav".
Proof. repeat constructor. Qed.


Lemma Validate_container (cfg : Config) :
  Validate cfg = None -> In (ToLower (CONTAINER cfg)) allowedContainers.
Proof.
  unfold Validate. intros H.
  repeat match type of H with
  | (if ?b then _ else _) = None => destruct b eqn:?; [discriminate|]
  end.
  match goal with
  | E : negb (one_of (ToLower (CONTAINER cfg)) allowedContainers) = false |- _ =>
      apply negb_false_iff, one_of_In in E; exact E
  end.
Qed.

(** The extension of a validated container is a plain token. *)
Lemma validated_ext_plain (cfg : Config) :
  Validate cfg = None ->
  plain (ContainerExt (CONTAINER cfg)) /\
  free_of separator (ContainerExt (CONTAINER cfg)) = true.
Proof.
  intros H. apply Validate_container in H.
  rewrite ContainerExt_ToLower. unfold allowedContainers in H. simpl in H.
  repeat (destruct H as [E|H];
          [rewrite <- E; split; [repeat constructor | reflexivity]|]).
  destruct H.
Qed.

Lemma free_of_plain (e : string) : plain e -> free_of separator e = true.
Proof.
  unfold plain. induction e as [|c e IH]; intros H; [reflexivity|].
  cbn [list_ascii_of_string] in H. inversion H as [|? ? [Hs _] He]; subst.
  cbn [free_of]. rewrite (IH He), andb_true_r.
  unfold is_path_separator in Hs. apply orb_false_elim in Hs as [Hs _].
  unfold separator. rewrite Hs. reflexivity.
Qed.

Lemma outPath_of_generated (r : Recorder) (id cwd container : string) :
  outPath_of (generateTempWav r id cwd) container
  = filepath_Join (if String.eqb (tempDir r) "" then cwd else tempDir r)
      ("RecordTemp_" ++ id ++ "." ++ ContainerExt container) /\
  (plain (ContainerExt container) ->
   Ext (outPath_of (generateTempWav r id cwd) container)
   = String "." (ContainerExt container)).
Proof.
  unfold outPath_of, generateTempWav.
  set (dir := if String.eqb (tempDir r) "" then cwd else tempDir r).
  assert (Hw : filepath_Join dir ("RecordTemp_" ++ id ++ ".wav")
               = filepath_Join dir ("RecordTemp_" ++ id) ++ String "." "wav").
  { rewrite <- filepath_Join_app by discriminate. rewrite append_assoc. reflexivity. }
  rewrite Hw, (Ext_dot _ "wav" plain_wav), TrimSuffix_app.
  split.
  - rewrite <- filepath_Join_app by discriminate. rewrite append_assoc. reflexivity.
  - intros Hp. apply (Ext_dot _ _ Hp).
Qed.

(** X20.  The converted file is named after the recording.  For a
    validated configuration and a recording whose path ends in [.wav], as
    the path [generateTempWav] draws does, the handler's [outPath] is that
    path with [.wav] replaced by the extension of the container; its own
    extension, which [handleCache] gives the cached copy, is that of the
    container; and it is the path of the recording itself exactly when the
    container is [wav]. *)
Theorem outPath_of_recording (cfg : Config) (p : string) :
  Validate cfg = None ->
  outPath_of (p ++ ".wav") (CONTAINER cfg)
  = p ++ String "." (ContainerExt (CONTAINER cfg)) /\
  Ext (outPath_of (p ++ ".wav") (CONTAINER cfg))
  = String "." (ContainerExt (CONTAINER cfg)) /\
  (outPath_of (p ++ ".wav") (CONTAINER cfg) = p ++ ".wav"
   <-> ContainerExt (CONTAINER cfg) = "wav") /\
  (forall r id cwd, exists q, generateTempWav r id cwd = q ++ ".wav").
Proof.
  intros Hv. destruct (validated_ext_plain cfg Hv) as [Hplain _].
  assert (Ho : outPath_of (p ++ ".wav") (CONTAINER cfg)
               = p ++ String "." (ContainerExt (CONTAINER cfg))).
  { unfold outPath_of.
    change (p ++ ".wav") with (p ++ String "." "wav").
    rewrite (Ext_dot _ "wav" plain_wav), TrimSuffix_app. reflexivity. }
  rewrite Ho. split; [reflexivity|]. split; [apply (Ext_dot _ _ Hplain)|]. split.
  - split.
    + intros H. apply append_inv_head in H. injection H as H. exact H.
    + intros ->. reflexivity.
  - intros r id cwd. unfold generateTempWav.
    exists (filepath_Join (if String.eqb (tempDir r) "" then cwd else tempDir r)
              ("RecordTemp_" ++ id)).
    rewrite <- filepath_Join_app by discriminate.
    rewrite append_assoc. reflexivity.
Qed.

Lemma outPath_of_recording_witness :
  outPath_of (generateTempWav (New "tmp") sample_id "") "ogg"
  = filepath_Join "tmp" "RecordTemp_0123456789abcdef.ogg".
Proof.
  exact (proj1 (outPath_of_recording DefaultConfig
                  (filepath_Join "tmp" "RecordTemp_0123456789abcdef") eq_refl)).
Defined.


Lemma filepath_Join_sep (dir base : string) :
  dir <> "" -> filepath_Join dir base = dir ++ String separator base.
Proof.
  intros Hne. unfold filepath_Join. destruct (String.eqb_spec dir ""); [contradiction|].
  reflexivity.
Qed.

(** The last element of a joined path is the name joined. *)
Lemma filepath_Join_last (dir base : string) :
  free_of separator base = true ->
  List.last (Split separator (filepath_Join dir base)) "" = base.
Proof.
  intros Hb. destruct (String.eqb_spec dir "") as [->|Hne].
  - unfold filepath_Join. simpl. rewrite (Split_free_single _ _ Hb). reflexivity.
  - rewrite (filepath_Join_sep _ _ Hne), Split_app, (Split_free_single _ _ Hb).
    apply List.last_last.
Qed.

Lemma filepath_Join_inj_base (d1 d2 b1 b2 : string) :
  free_of separator b1 = true -> free_of separator b2 = true ->
  filepath_Join d1 b1 = filepath_Join d2 b2 -> b1 = b2.
Proof.
  intros H1 H2 E.
  rewrite <- (filepath_Join_last d1 b1 H1), <- (filepath_Join_last d2 b2 H2), E.
  reflexivity.
Qed.

Section Cleanup.
Variable removable : string -> bool.

Lemma elem_of_os_Remove (path p : string) (fs : gset string) :
  p ∈ os_Remove removable path fs <->
  p ∈ fs /\ (p = path -> removable p = false).
Proof.
  unfold os_Remove. destruct (removable path) eqn:E.
  - rewrite elem_of_difference, elem_of_singleton. split.
    + intros [Hin Hne]. split; [exact Hin | intros ->; contradiction].
    + intros [Hin Hr]. split; [exact Hin|]. intros ->.
      specialize (Hr eq_refl). congruence.
  - split; [|tauto]. intros Hin. split; [exact Hin | intros ->; exact E].
Qed.

Lemma cleanup_fold (dir : string) (es : list string) : forall (fs : gset string) p,
  p ∈ fold_left (fun fs name =>
                   if HasPrefix name "RecordTemp_"
                   then os_Remove removable (filepath_Join dir name) fs
                   else fs) es fs <->
  p ∈ fs /\
  forall name, In name es -> HasPrefix name "RecordTemp_" = true ->
    p = filepath_Join dir name -> removable p = false.
Proof.
  induction es as [|e es IH]; intros fs p; cbn [fold_left].
  - split; [intros H; split; [exact H | intros ? []] | tauto].
  - rewrite IH. destruct (HasPrefix e "RecordTemp_") eqn:He.
    + rewrite elem_of_os_Remove. split.
      * intros [[Hin Hr] Hall]. split; [exact Hin|].
        intros name [<-|Hn] Hp Hj; [apply Hr, Hj | eapply Hall; eassumption].
      * intros [Hin Hall]. split; [split; [exact Hin|]|].
        -- intros Hj. apply (Hall e); [left; reflexivity | exact He | exact Hj].
        -- intros name Hn. apply Hall. right. exact Hn.
    + split.
      * intros [Hin Hall]. split; [exact Hin|].
        intros name [<-|Hn] Hp Hj; [congruence | eapply Hall; eassumption].
      * intros [Hin Hall]. split; [exact Hin|].
        intros name Hn. apply Hall. right. exact Hn.
Qed.

(** X21.  What the clean-up at start removes.  A file is gone afterwards
    exactly when it is the join of the directory with a listed name that
    begins with [RecordTemp_] and the system let it be removed; every other
    file stays, and nothing changes when the directory cannot be read.  A
    recording or converted file left in the directory by an earlier run has
    such a name, so it is removed. *)
Theorem cleanup_removes_temp_files (dir : string) (es : list string)
    (fs : gset string) :
  cleanupOldTempFiles removable dir None fs = fs /\
  (forall p,
     p ∈ cleanupOldTempFiles removable dir (Some es) fs <->
     p ∈ fs /\
     forall name, In name es -> HasPrefix name "RecordTemp_" = true ->
       p = filepath_Join dir name -> removable p = false) /\
  (forall id ext,
     dir <> "" ->
     In ("RecordTemp_" ++ id ++ "." ++ ext) es ->
     removable (tempOutputPath dir ext id "") = true ->
     tempOutputPath dir ext id "" ∉ cleanupOldTempFiles removable dir (Some es) fs).
Proof.
  split; [reflexivity|]. split; [intros p; apply cleanup_fold|].
  intros id ext Hd Hin Hr Hp. apply cleanup_fold in Hp as [_ Hall].
  unfold tempOutputPath in *. destruct (String.eqb_spec dir ""); [contradiction|].
  rewrite (Hall _ Hin) in Hr; [discriminate | | reflexivity].
  apply (HasPrefix_app "RecordTemp_").
Qed.

End Cleanup.

Section Recording.
Variable removable : string -> bool.
Variable renames : string -> string -> bool.
Variable writes : string -> bool.
Variable timestamp : string.

Lemma elem_of_cache_file (cfg : Config) (base path p : string) (fs : gset string) :
  p ∈ cache_file removable renames cfg base path fs ->
  (p ∈ fs /\ (p = path -> path <> "" -> removable p = false)) \/
  p = filepath_Join (CacheDir cfg) (base ++ Ext path).
Proof.
  unfold cache_file. destruct (String.eqb_spec path "") as [->|Hne]; cbn [negb].
  { intros H. left. split; [exact H | intros _ Hc; contradiction]. }
  unfold os_Rename. destruct (renames path _ && bool_decide (path ∈ fs)).
  - rewrite elem_of_union, elem_of_difference, !elem_of_singleton.
    intros [[Hin Hp]|Hp]; [left | right; exact Hp].
    split; [exact Hin | intros ->; contradiction].
  - rewrite elem_of_os_Remove. intros [Hin Hr]. left. split; [exact Hin|].
    intros E _. apply Hr, E.
Qed.

(** A path that is on disk after [handleCache] was there before, and if it
    is one of the two paths handed over its removal was refused; or it is
    one of the names in the cache directory. *)
Lemma elem_of_handleCache (cfg : Config) (wavPath outPath : string) (uploadOk : bool)
    (resBody p : string) (fs : gset string) :
  p ∈ handleCache removable renames writes timestamp cfg wavPath outPath uploadOk
        resBody fs ->
  (p ∈ fs /\ (p = wavPath -> wavPath <> "" -> removable p = false)
          /\ (p = outPath -> outPath <> "" -> removable p = false)) \/
  exists ext, (ext = Ext wavPath \/ ext = Ext outPath \/ ext = ".json") /\
    p = filepath_Join (CacheDir cfg) (("audio-" ++ timestamp) ++ ext).
Proof.
  unfold handleCache.
  destruct (KeepCache cfg && negb (String.eqb (CacheDir cfg) "")).
  - cbv zeta. intros H.
    assert (H2 : p ∈ cache_file removable renames cfg ("audio-" ++ timestamp) outPath
                   (cache_file removable renames cfg ("audio-" ++ timestamp) wavPath fs)
                 \/ p = filepath_Join (CacheDir cfg) (("audio-" ++ timestamp) ++ ".json")).
    { destruct (uploadOk && (0 <? len resBody)); [|left; exact H].
      unfold os_WriteFile in H. destruct (writes _); [|left; exact H].
      apply elem_of_union in H as [H|H]; [left; exact H|].
      right. apply elem_of_singleton in H. exact H. }
    destruct H2 as [H2|H2]; [|right; exists ".json"; auto].
    apply elem_of_cache_file in H2 as [[H1 Ho]|H2]; [|right; eexists; eauto].
    apply elem_of_cache_file in H1 as [[H0 Hw]|H1]; [|right; eexists; eauto].
    left. auto.
  - intros H. left.
    assert (H1 : p ∈ (if negb (String.eqb wavPath "")
                      then os_Remove removable wavPath fs else fs)
                 /\ (p = outPath -> outPath <> "" -> removable p = false)).
    { destruct (String.eqb_spec outPath "") as [->|Hne]; cbn [negb] in H.
      - split; [exact H | intros _ Hc; contradiction].
      - apply elem_of_os_Remove in H as [H Hr]. split; [exact H | auto]. }
    destruct H1 as [H1 Ho].
    destruct (String.eqb_spec wavPath "") as [->|Hne]; cbn [negb] in H1.
    + split; [exact H1|]. split; [intros _ Hc; contradiction | exact Ho].
    + apply elem_of_os_Remove in H1 as [H1 Hr]. split; [exact H1|]. split; auto.
Qed.

Lemma audio_not_temp (x y z : string) : ("audio-" ++ x) ++ y <> "RecordTemp_" ++ z.
Proof.
  intros H.
  apply (f_equal (fun s => match s with String c _ => c | EmptyString => "0"%char end))
    in H.
  cbn in H. discriminate H.
Qed.

(** X22.  No temporary file outlives the handling of a recording.  For a
    validated configuration and the path [generateTempWav] drew, when the
    handler is through with a finished recording neither the recording nor
    the converted file is left at its temporary path, provided the system
    lets them be removed: whether the conversion failed (with or without a
    partial output), the upload failed, or the files were kept, in which
    case they were renamed into the cache directory or, the rename failing,
    removed. *)
Theorem recording_leaves_no_temp_file (cfg : Config) (r : Recorder) (id cwd : string)
    (converted partial uploadOk : bool) (raw : string) (fs : gset string) :
  Validate cfg = None ->
  free_of separator id = true -> free_of separator timestamp = true ->
  removable (generateTempWav r id cwd) = true ->
  removable (outPath_of (generateTempWav r id cwd) (CONTAINER cfg)) = true ->
  (generateTempWav r id cwd
     ∉ after_recording removable renames writes timestamp cfg (generateTempWav r id cwd)
         converted partial uploadOk raw fs) /\
  (outPath_of (generateTempWav r id cwd) (CONTAINER cfg)
     ∉ after_recording removable renames writes timestamp cfg (generateTempWav r id cwd)
         converted partial uploadOk raw fs).
Proof.
  intros Hv Hid Hts Hrw Hro.
  destruct (validated_ext_plain cfg Hv) as [Hplain Hfree].
  destruct (outPath_of_generated r id cwd (CONTAINER cfg)) as [Ho Hext].
  set (wav := generateTempWav r id cwd) in *.
  set (out := outPath_of wav (CONTAINER cfg)) in *.
  set (ext := ContainerExt (CONTAINER cfg)) in *.
  set (dir := if String.eqb (tempDir r) "" then cwd else tempDir r) in *.
  assert (Hwne : wav <> "") by apply RecordFacts.generateTempWav_nonempty.
  assert (Hone : out <> "").
  { rewrite Ho. unfold filepath_Join.
    destruct (String.eqb dir ""); [discriminate|]. destruct dir; discriminate. }
  assert (Hbw : free_of separator ("RecordTemp_" ++ id ++ ".wav") = true).
  { rewrite !free_of_app, Hid. reflexivity. }
  assert (Hbo : free_of separator ("RecordTemp_" ++ id ++ "." ++ ext) = true).
  { rewrite !free_of_app, Hid, Hfree. reflexivity. }
  assert (Hcache : forall e p, free_of separator e = true ->
            p = filepath_Join (CacheDir cfg) (("audio-" ++ timestamp) ++ e) ->
            p <> wav /\ p <> out).
  { intros e p He -> . 
    assert (Hb : free_of separator (("audio-" ++ timestamp) ++ e) = true).
    { rewrite !free_of_app, Hts, He. reflexivity. }
    split; intros E.
    - apply filepath_Join_inj_base in E; [|exact Hb | exact Hbw].
      exact (audio_not_temp _ _ _ E).
    - rewrite Ho in E. apply filepath_Join_inj_base in E; [|exact Hb | exact Hbo].
      exact (audio_not_temp _ _ _ E). }
  assert (Hsurv : forall p, p = wav \/ p = out ->
            p ∈ after_recording removable renames writes timestamp cfg wav
                  converted partial uploadOk raw fs -> removable p = false).
  { intros p Hp Hin. unfold after_recording in Hin. fold out in Hin.
    destruct converted; cbn [negb] in Hin.
    - apply elem_of_handleCache in Hin as [(_ & Hw & Hou)|(e & He & Hpe)].
      + destruct Hp as [->| ->]; auto.
      + exfalso.
        assert (Hfe : free_of separator e = true).
        { destruct He as [->|[->| ->]]; [| |reflexivity].
          - unfold wav, generateTempWav. fold dir.
            replace (filepath_Join dir ("RecordTemp_" ++ id ++ ".wav"))
              with (filepath_Join dir ("RecordTemp_" ++ id) ++ String "." "wav")
              by (rewrite <- filepath_Join_app by discriminate;
                  rewrite append_assoc; reflexivity).
            rewrite (Ext_dot _ _ plain_wav). reflexivity.
          - rewrite (Hext Hplain). cbn [free_of]. rewrite Hfree. reflexivity. }
        destruct (Hcache e p Hfe Hpe) as [H1 H2]. destruct Hp; contradiction.
    - apply elem_of_os_Remove in Hin as [Hin Hr1].
      apply elem_of_os_Remove in Hin as [Hin Hr2].
      destruct Hp as [->| ->]; auto. }
  split; intros Hin.
  - rewrite (Hsurv wav (or_introl eq_refl) Hin) in Hrw. discriminate.
  - rewrite (Hsurv out (or_intror eq_refl) Hin) in Hro. discriminate.
Qed.


End Recording.

Lemma recording_leaves_no_temp_file_witness :
  Validate caching_config = None /\
  (generateTempWav (New "cache") sample_id ""
     ∉ after_recording willing willing2 willing "2025-01-01-00.00.00" caching_config
         (generateTempWav (New "cache") sample_id "") true false true "{}" ∅) /\
  (outPath_of (generateTempWav (New "cache") sample_id "") (CONTAINER caching_config)
     ∉ after_recording willing willing2 willing "2025-01-01-00.00.00" caching_config
         (generateTempWav (New "cache") sample_id "") true false true "{}" ∅).
Proof.
  split; [reflexivity|].
  apply (recording_leaves_no_temp_file willing willing2 willing "2025-01-01-00.00.00"
           caching_config (New "cache") sample_id "" true false true "{}" ∅);
    reflexivity.
Defined.

End AppFacts.

(* ===================================================================== *)
(** * More facts about the Recorder *)
(* ===================================================================== *)

Module RecordMore.
Import Record RecordInv RecordProgress RecordFacts.

(** X23.  Pausing twice is resuming.  While a session runs, [TogglePause]
    succeeds, moves between [StateRecording] and [StatePaused], and a second
    call restores the system to what it was: nothing but the state field
    changes. *)
Theorem TogglePause_twice (s : sys) :
  running (state (rec s)) = true ->
  snd (TogglePause s) = None /\
  running (state (rec (fst (TogglePause s)))) = true /\
  state (rec (fst (TogglePause s))) <> state (rec s) /\
  fst (TogglePause (fst (TogglePause s))) = s.
Proof.
  destruct s as [[st td wp sc scl dn] ws cs chs cl]. simpl.
  intros H. destruct st; try discriminate H; simpl; repeat split; discriminate.
Qed.

Lemma TogglePause_twice_witness :
  state (rec (run to_first_read (init "tmp"))) = StateRecording /\
  state (rec (fst (TogglePause (run to_first_read (init "tmp"))))) = StatePaused /\
  fst (TogglePause (fst (TogglePause (run to_first_read (init "tmp")))))
  = run to_first_read (init "tmp").
Proof.
  split; [reflexivity|]. split; [reflexivity|].
  exact (proj2 (proj2 (proj2 (TogglePause_twice (run to_first_read (init "tmp"))
                                eq_refl)))).
Defined.

Lemma at_pc_same (w : worker) : at_pc (w_pc w) w = w.
Proof. destruct w; reflexivity. Qed.

Lemma set_worker_same (s : sys) (i : nat) (w : worker) :
  workers s !! i = Some w -> set_worker i w s = s.
Proof.
  intros Hw. unfold set_worker. rewrite list_insert_id by exact Hw.
  destruct s; reflexivity.
Qed.

Lemma set_worker_twice (s : sys) (i : nat) (w1 w2 : worker) :
  set_worker i w2 (set_worker i w1 s) = set_worker i w2 s.
Proof. unfold set_worker. simpl. rewrite list_insert_insert_eq. reflexivity. Qed.

Lemma worker_steps_snoc (i : nat) (oks : list bool) (ok : bool) :
  worker_steps i (oks ++ [ok]) = (worker_steps i oks ++ [L_Worker i ok])%list.
Proof. unfold worker_steps. rewrite List.map_app. reflexivity. Qed.

(** X24.  A paused worker waits.  While the state stays [StatePaused], a
    worker at the top of its loop only alternates between the two tests
    there: after any number of its steps the system is the one it was but
    for the worker's program point, so no buffer is read or written, the
    stream and the file stay open, and the context is not consulted. *)
Theorem paused_worker_waits (s : sys) (i : nat) (w : worker) (oks : list bool) :
  state (rec s) = StatePaused -> workers s !! i = Some w ->
  w_pc w = AtLoopCanceled \/ w_pc w = AtLoopPaused ->
  exists p, (p = AtLoopCanceled \/ p = AtLoopPaused) /\
            run (worker_steps i oks) s = set_worker i (at_pc p w) s.
Proof.
  intros Hst Hw Hpc. induction oks as [|ok oks IH] using rev_ind.
  - exists (w_pc w). split; [exact Hpc|].
    rewrite at_pc_same, (set_worker_same _ _ _ Hw). reflexivity.
  - destruct IH as (p & Hp & Hrun).
    rewrite worker_steps_snoc, run_snoc, Hrun.
    assert (Hlt : (i < List.length (workers s))%nat) by (eapply lookup_lt_Some, Hw).
    assert (Hw' : workers (set_worker i (at_pc p w) s) !! i = Some (at_pc p w)).
    { simpl. apply list_lookup_insert_eq, Hlt. }
    assert (Hset : working (at_pc p w) = true) by (destruct Hp as [->| ->]; reflexivity).
    rewrite (step_local _ _ ok _ Hw' Hset), set_worker_twice.
    destruct Hp as [->| ->].
    + exists AtLoopPaused. split; [right; reflexivity|].
      unfold recordLoop_local. simpl. rewrite Hst. reflexivity.
    + exists AtLoopCanceled. split; [left; reflexivity|].
      unfold recordLoop_local. simpl. rewrite Hst. reflexivity.
Qed.

Lemma paused_worker_waits_witness :
  state (rec (run paused_after_one_buffer (init "tmp"))) = StatePaused /\
  option_map (fun w => (w_pc w, w_buffers w))
    (workers (run paused_after_one_buffer (init "tmp")) !! 0%nat)
    = Some (AtLoopCanceled, 1%nat) /\
  exists w p,
    workers (run paused_after_one_buffer (init "tmp")) !! 0%nat = Some w /\
    (p = AtLoopCanceled \/ p = AtLoopPaused) /\
    run (worker_steps 0 [true; false; true; true; true])
        (run paused_after_one_buffer (init "tmp"))
    = set_worker 0 (at_pc p w) (run paused_after_one_buffer (init "tmp")).
Proof.
  assert (Hst : state (rec (run paused_after_one_buffer (init "tmp"))) = StatePaused)
    by (vm_compute; reflexivity).
  split; [exact Hst|]. split; [vm_compute; reflexivity|].
  destruct (workers (run paused_after_one_buffer (init "tmp")) !! 0%nat)
    as [w|] eqn:Hw; [|vm_compute in Hw; discriminate Hw].
  assert (Hpc : w_pc w = AtLoopCanceled)
    by (vm_compute in Hw; injection Hw as <-; reflexivity).
  destruct (paused_worker_waits (run paused_after_one_buffer (init "tmp")) 0 w
              [true; false; true; true; true] Hst Hw (or_introl Hpc))
    as (p & Hp & Hrun).
  exists w, p. split; [reflexivity|]. split; [exact Hp | exact Hrun].
Defined.

Lemma ending_stop_requested (k : nat) (s : sys) (w : worker) :
  ending k s w -> stop_requested s = true.
Proof.
  intros (_ & _ & Hc & Hx & _). unfold stop_requested. rewrite Hc, Hx. reflexivity.
Qed.

Lemma ending_set_worker (k : nat) (s : sys) (w w' : worker) :
  ending k s w ->
  match w_pc w' with
  | Exited _ | AtReturn _ | Sending _ _ | AtSend _ => False
  | _ => True
  end ->
  match w_pc w with
  | Exited _ | AtReturn _ | Sending _ _ | AtSend _ => False
  | _ => True
  end ->
  ending k (set_worker k w' s) w'.
Proof.
  intros (Hw & Hd & Hc & Hx & Hm) Hpc' Hpc.
  assert (Hlt : (k < List.length (workers s))%nat) by (eapply lookup_lt_Some, Hw).
  repeat split; try assumption.
  - simpl. apply list_lookup_insert_eq, Hlt.
  - simpl. destruct (w_pc w'); try contradiction;
      destruct (w_pc w); try contradiction; exact Hm.
Qed.

(** One step of a worker that was asked to end brings it nearer its return. *)
Lemma ending_step (k : nat) (s : sys) (w : worker) (ok : bool) :
  ending k s w ->
  exists w', ending k (step (L_Worker k ok) s) w' /\
             (rank (w_pc w') <= pred (rank (w_pc w)))%nat.
Proof.
  intros He. pose proof (ending_stop_requested _ _ _ He) as Hreq.
  pose proof He as (Hw & Hd & Hc & Hx & Hm).
  assert (Hlt : (k < List.length (workers s))%nat) by (eapply lookup_lt_Some, Hw).
  destruct (w_pc w) as [| | | | | | | | | | |res|res|res|od res|res|res] eqn:Hpc.
  all: try (rewrite (step_local _ _ ok _ Hw) by (unfold working; rewrite Hpc; reflexivity);
            eexists; split;
            [ apply (ending_set_worker k s w _ He);
              [ unfold recordLoop_local; rewrite Hpc, ?Hreq;
                try destruct ok;
                try destruct (State_eqb (state (rec s)) StateCanceled);
                try destruct (State_eqb (state (rec s)) StatePaused);
                exact I
              | rewrite Hpc; exact I ]
            | unfold recordLoop_local; rewrite Hpc, ?Hreq;
              try destruct ok;
              try destruct (State_eqb (state (rec s)) StateCanceled);
              try destruct (State_eqb (state (rec s)) StatePaused);
              simpl; lia ]).
  - (* AtLoopPaused: the state is not StatePaused *)
    destruct Hm as [Hch Hst].
    rewrite (step_local _ _ ok _ Hw) by (unfold working; rewrite Hpc; reflexivity).
    assert (Hnp : State_eqb (state (rec s)) StatePaused = false)
      by (destruct Hst as [-> | ->]; reflexivity).
    eexists. split.
    + apply (ending_set_worker k s w _ He);
        [unfold recordLoop_local; rewrite Hpc, Hnp; exact I | rewrite Hpc; exact I].
    + unfold recordLoop_local. rewrite Hpc, Hnp. simpl. lia.
  - (* AtFinish *)
    exists (at_pc (AtSend res) w). split; [|simpl; lia].
    rewrite (step_finish _ _ ok _ _ Hw Hpc).
    destruct Hm as [Hch _]. repeat split; try assumption.
    simpl. apply list_lookup_insert_eq, Hlt.
  - (* AtSend *)
    destruct Hm as [Hch Hst].
    rewrite (step_read _ _ ok _ _ Hw Hpc), Hd.
    exists (at_pc (Sending (Some k) res) w). split; [|simpl; lia].
    repeat split; try assumption.
    simpl. apply list_lookup_insert_eq, Hlt.
  - (* Sending *)
    destruct Hm as (-> & Hch & Hst).
    rewrite (step_send _ _ _ ok _ _ Hw Hpc Hch).
    exists (at_pc (AtReturn res) w). split; [|simpl; lia].
    repeat split; try assumption.
    + simpl. apply list_lookup_insert_eq, Hlt.
    + simpl. apply list_lookup_insert_eq. eapply lookup_lt_Some, Hch.
  - (* AtReturn *)
    destruct Hm as [Hch Hst].
    rewrite (step_return _ _ ok _ _ Hw Hpc).
    exists (returned w res). split; [|simpl; lia].
    repeat split; try assumption.
    simpl. apply list_lookup_insert_eq, Hlt.
  - (* Exited *)
    exists w. split; [|rewrite Hpc; simpl; lia].
    simpl. unfold recordLoop_step, recordLoop_local. rewrite Hw, Hpc.
    rewrite (set_worker_same _ _ _ Hw). exact He.
Qed.

Lemma ending_run (k : nat) (oks : list bool) : forall (s : sys) (w : worker),
  ending k s w ->
  exists w', ending k (run (worker_steps k oks) s) w' /\
             (rank (w_pc w') <= rank (w_pc w) - List.length oks)%nat.
Proof.
  induction oks as [|ok oks IH] using rev_ind; intros s w He.
  - exists w. split; [exact He | simpl; lia].
  - destruct (IH s w He) as (w1 & He1 & Hr1).
    rewrite worker_steps_snoc, run_snoc.
    destruct (ending_step k _ w1 ok He1) as (w2 & He2 & Hr2).
    exists w2. split; [exact He2|]. rewrite List.length_app. simpl. lia.
Qed.

Lemma rank_bound (p : pc) : (rank p <= 14)%nat.
Proof. destruct p; simpl; lia. Qed.

(** X25.  [Stop] and [Cancel] complete.  Once the state is [StateStopping]
    or [StateCanceled] and the caller has cancelled the context, with the
    channel of the session empty, fourteen steps of the session's worker made
    before any other goroutine acts are enough, whatever its calls answer:
    the worker has returned, its result is in the channel and the state is
    [StateIdle]; the step of a caller waiting on that channel is then its
    return with this result. *)
Theorem stop_completes (s : sys) (k : nat) (w : worker) (oks : list bool) :
  wf s -> workers s !! k = Some w -> active w = true ->
  state (rec s) = StateStopping \/ state (rec s) = StateCanceled ->
  ctxs s !! k = Some true -> chans s !! k = Some None ->
  (14 <= List.length oks)%nat ->
  exists res w',
    workers (run (worker_steps k oks) s) !! k = Some w' /\ w_pc w' = Exited res /\
    chans (run (worker_steps k oks) s) !! k = Some (Some res) /\
    state (rec (run (worker_steps k oks) s)) = StateIdle /\
    forall j c,
      callers (run (worker_steps k oks) s) !! j = Some c ->
      c_pc c = Waiting -> c_done c = Some k ->
      callers (step (L_Caller j) (run (worker_steps k oks) s)) !! j
      = Some (moved c (CallerReturned res)).
Proof.
  intros Hwf Hw Hact Hst Hx Hch Hlen.
  destruct (active_is_last s k w Hwf Hw Hact) as (_ & Hd & Hc & _).
  assert (He : ending k s w).
  { repeat split; try assumption.
    unfold active in Hact. destruct (w_pc w); try discriminate Hact; split; assumption. }
  destruct (ending_run k oks s w He) as (w' & He' & Hr).
  pose proof (rank_bound (w_pc w)) as Hb.
  destruct He' as (Hw' & Hd' & Hc' & Hx' & Hm).
  destruct (w_pc w') eqn:Hpc; simpl in Hr; try lia.
  destruct Hm as [Hch' Hst'].
  exists res, w'. repeat split; try assumption.
  intros j c Hj Hp Hdn. simpl. unfold caller_step, moved. rewrite Hj, Hp, Hdn, Hch'.
  simpl. apply list_lookup_insert_eq. eapply lookup_lt_Some, Hj.
Qed.

Lemma stop_completes_witness :
  state (rec (run stop_requested_after_one_buffer (init "tmp"))) = StateStopping /\
  exists res w',
    workers (run (worker_steps 0 [true; true; true; true; true; true; true; true;
                                  true; true; true; true; true; true])
               (run stop_requested_after_one_buffer (init "tmp"))) !! 0%nat = Some w' /\
    w_pc w' = Exited res /\
    chans (run (worker_steps 0 [true; true; true; true; true; true; true; true;
                                true; true; true; true; true; true])
             (run stop_requested_after_one_buffer (init "tmp"))) !! 0%nat
      = Some (Some res).
Proof.
  assert (Hst : state (rec (run stop_requested_after_one_buffer (init "tmp")))
                = StateStopping) by (vm_compute; reflexivity).
  split; [exact Hst|].
  destruct (workers (run stop_requested_after_one_buffer (init "tmp")) !! 0%nat)
    as [w|] eqn:Hw; [|vm_compute in Hw; discriminate Hw].
  assert (Hact : active w = true)
    by (vm_compute in Hw; injection Hw as <-; reflexivity).
  assert (Hx : ctxs (run stop_requested_after_one_buffer (init "tmp")) !! 0%nat
               = Some true) by (vm_compute; reflexivity).
  assert (Hch : chans (run stop_requested_after_one_buffer (init "tmp")) !! 0%nat
                = Some None) by (vm_compute; reflexivity).
  destruct (stop_completes (run stop_requested_after_one_buffer (init "tmp")) 0 w
              [true; true; true; true; true; true; true; true; true; true; true;
               true; true; true]
              (wf_run _ _ (wf_init "tmp")) Hw Hact (or_introl Hst) Hx Hch
              (le_n 14)) as (res & w' & Hw' & Hpc & Hc & _).
  exists res, w'. split; [exact Hw'|]. split; [exact Hpc | exact Hc].
Defined.

(** X26.  Every way out of [recordLoop] releases what it took.  In any
    reachable state, a worker that has returned has terminated PortAudio and
    closed the stream and the file; its temporary file is on disk exactly
    when its result is a recording (not cancelled, no error) or [os.Remove]
    failed, and the [WavPath] of a recording is the path of that file. *)
Theorem returned_worker_released (tempDir : string) (tr : list label) (i : nat)
    (w : worker) (res : Result) :
  workers (run tr (init tempDir)) !! i = Some w -> w_pc w = Exited res ->
  w_pa w = false /\ w_stream w = false /\ w_file w = false /\
  (w_onDisk w = true <->
   (Canceled res = false /\ Err res = None) \/ w_removeFailed w = true) /\
  (Canceled res = false -> Err res = None ->
   w_onDisk w = true /\ w_removeFailed w = false /\
   WavPath res = w_wavPath w /\ WavPath res <> "").
Proof.
  intros Hw Hpc. pose proof (holds_run tempDir tr i w Hw) as [Hne Hh].
  rewrite Hpc in Hh. destruct Hh as (Hpa & Hs & Hf & Hres).
  split; [exact Hpa|]. split; [exact Hs|]. split; [exact Hf|].
  destruct Hres as [[-> Hd]|[[[msg ->] Hd]|[-> [Hd Hr]]]]; rewrite Hd; simpl.
  - split; [|discriminate]. split; [auto|].
    intros [[H _]|H]; [discriminate H | exact H].
  - split; [|intros _ H; discriminate H]. split; [auto|].
    intros [[_ H]|H]; [discriminate H | exact H].
  - split; [split; auto|]. intros _ _. rewrite Hr. auto.
Qed.

(** Two instances: a recording, and a cancelled session whose file the
    system refused to remove. *)
Lemma returned_worker_released_witness :
  option_map w_pc (workers (run stop_after_three_buffers (init "tmp")) !! 0%nat)
    = Some (Exited (completed (spawn (generateTempWav (New "tmp") sample_id "")))) /\
  option_map (fun w => (w_pa w, w_stream w, w_file w, w_onDisk w))
    (workers (run stop_after_three_buffers (init "tmp")) !! 0%nat)
    = Some (false, false, false, true) /\
  option_map (fun w => (w_pc w, w_removeFailed w))
    (workers (run cancel_remove_refused (init "tmp")) !! 0%nat)
    = Some (Exited cancelled_result, true) /\
  option_map (fun w => (w_pa w, w_stream w, w_file w, w_onDisk w))
    (workers (run cancel_remove_refused (init "tmp")) !! 0%nat)
    = Some (false, false, false, true).
Proof.
  split; [vm_compute; reflexivity|]. split.
  - destruct (workers (run stop_after_three_buffers (init "tmp")) !! 0%nat)
      as [w|] eqn:Hw; [|vm_compute in Hw; discriminate Hw].
    assert (Hpc : w_pc w
                  = Exited (completed (spawn (generateTempWav (New "tmp") sample_id "")))).
    { vm_compute in Hw. injection Hw as <-. reflexivity. }
    destruct (returned_worker_released "tmp" stop_after_three_buffers 0 w _ Hw Hpc)
      as (Hpa & Hs & Hf & Hd & _).
    cbn [option_map]. rewrite Hpa, Hs, Hf, (proj2 Hd (or_introl (conj eq_refl eq_refl))).
    reflexivity.
  - split; [vm_compute; reflexivity|].
    destruct (workers (run cancel_remove_refused (init "tmp")) !! 0%nat)
      as [w|] eqn:Hw; [|vm_compute in Hw; discriminate Hw].
    assert (Hpc : w_pc w = Exited cancelled_result /\ w_removeFailed w = true).
    { vm_compute in Hw. injection Hw as <-. split; reflexivity. }
    destruct Hpc as [Hpc Hrf].
    destruct (returned_worker_released "tmp" cancel_remove_refused 0 w _ Hw Hpc)
      as (Hpa & Hs & Hf & Hd & _).
    cbn [option_map]. rewrite Hpa, Hs, Hf, (proj2 Hd (or_intror Hrf)).
    reflexivity.
Defined.

(** X27.  The recorder can be used again.  In a session started when the
    earlier workers had returned, once a caller of [Stop] or [Cancel] has
    its result and no new session was started meanwhile, the state is
    [StateIdle], no worker is active and the next [Start] is accepted. *)
Theorem recorder_reusable (tempDir : string) (tr0 tr : list label)
    (id cwd : string) (j : nat) (c : caller) (res : Result) :
  (forall i w, workers (run tr0 (init tempDir)) !! i = Some w ->
     exists r, w_pc w = Exited r) ->
  callers (run (tr0 ++ L_Start id cwd :: tr) (init tempDir)) !! j = Some c ->
  c_done c = Some (List.length (workers (run tr0 (init tempDir)))) ->
  c_pc c = CallerReturned res ->
  List.length (workers (run (tr0 ++ L_Start id cwd :: tr) (init tempDir)))
    = S (List.length (workers (run tr0 (init tempDir)))) ->
  state (rec (run (tr0 ++ L_Start id cwd :: tr) (init tempDir))) = StateIdle /\
  active_workers (run (tr0 ++ L_Start id cwd :: tr) (init tempDir)) = 0%nat /\
  forall id' cwd',
    snd (Start id' cwd' (run (tr0 ++ L_Start id cwd :: tr) (init tempDir))) = None.
Proof.
  intros Hq Hj Hd Hp Hlen.
  destruct (session_run tempDir tr0 tr id cwd Hq) as [wk Hs].
  set (s := run (tr0 ++ L_Start id cwd :: tr) (init tempDir)) in *.
  set (k := List.length (workers (run tr0 (init tempDir)))) in *.
  assert (Hwf : wf s) by apply wf_run, wf_init.
  assert (Hidle : state (rec s) = StateIdle).
  { apply (wf_idle s Hwf). intros i w Hw.
    pose proof (lookup_lt_Some _ _ _ Hw) as Hlt. rewrite Hlen in Hlt.
    destruct (Nat.eq_dec i k) as [->|Hne].
    - rewrite (ss_worker _ _ _ Hs) in Hw. injection Hw as <-.
      apply (delivered_inactive _ res), (ss_returned _ _ _ Hs j c res Hj Hd Hp).
    - destruct (ss_old _ _ _ Hs i w) as [r Hr]; [lia | exact Hw |].
      unfold active. rewrite Hr. reflexivity. }
  split; [exact Hidle|]. split.
  - apply (wf_active_workers s Hwf), Hidle.
  - intros id' cwd'. apply (Start_idle s id' cwd' Hidle).
Qed.

Lemma recorder_reusable_witness :
  state (rec (run stop_after_three_buffers (init "tmp"))) = StateIdle /\
  active_workers (run stop_after_three_buffers (init "tmp")) = 0%nat /\
  forall id' cwd',
    snd (Start id' cwd' (run stop_after_three_buffers (init "tmp"))) = None.
Proof.
  change stop_after_three_buffers
    with ([] ++ L_Start sample_id "" :: List.tl stop_after_three_buffers)%list.
  apply (recorder_reusable "tmp" [] (List.tl stop_after_three_buffers) sample_id "" 0
           {| c_op := OpStop; c_cancel := Some 0%nat; c_done := Some 0%nat;
              c_pc := CallerReturned
                        (completed (spawn (generateTempWav (New "tmp") sample_id ""))) |}
           (completed (spawn (generateTempWav (New "tmp") sample_id "")))).
  - intros i w Hw. discriminate Hw.
  - vm_compute. reflexivity.
  - reflexivity.
  - reflexivity.
  - vm_compute. reflexivity.
Defined.

End RecordMore.
